(** * openapi-mcp: the conversion engine of package [convert]

    A shallow embedding of the converter (schema walker, parameter, security
    and tool builders) and of the request invoker ([newHandler], [getArgs]),
    followed by the properties of the specification that were checked
    against it.

    Conventions.
    - Go strings are byte strings: [string].
    - A Go map that the code ranges over is an association list in the
      iteration order of the run; statements quantify over the list, hence
      over every order.
    - Functions of packages outside the repository (fmt, encoding/json,
      net/url, net/http) are the fields of the class [GoLib]. *)

From Stdlib Require Import ZArith Ascii String DecimalString Floats.PrimFloat.
From stdpp Require Import gmap strings list.

Local Open Scope Z_scope.
Set Warnings "-register-all,-clear-no-such-hyp".

(** ** Package [strings] on byte strings *)

Module strings.

(** [strings.HasPrefix(s, prefix)] *)
Fixpoint HasPrefix (s pre : string) {struct pre} : bool :=
  match pre, s with
  | EmptyString, _ => true
  | String _ _, EmptyString => false
  | String a pre', String b s' => Ascii.eqb a b && HasPrefix s' pre'
  end.

Fixpoint drop (n : nat) (s : string) : string :=
  match n, s with
  | O, _ => s
  | S _, EmptyString => EmptyString
  | S n', String _ s' => drop n' s'
  end.

(** [strings.TrimPrefix(s, prefix)] *)
Definition TrimPrefix (s pre : string) : string :=
  if HasPrefix s pre then drop (String.length pre) s else s.

Fixpoint inCutset (c : ascii) (cutset : string) : bool :=
  match cutset with
  | EmptyString => false
  | String d cutset' => Ascii.eqb c d || inCutset c cutset'
  end.

(** [strings.TrimLeft(s, cutset)] *)
Fixpoint TrimLeft (s cutset : string) : string :=
  match s with
  | EmptyString => EmptyString
  | String c s' => if inCutset c cutset then TrimLeft s' cutset else s
  end.

(** [strings.TrimRight(s, cutset)] *)
Fixpoint TrimRight (s cutset : string) : string :=
  match s with
  | EmptyString => EmptyString
  | String c s' =>
      match TrimRight s' cutset with
      | EmptyString => if inCutset c cutset then EmptyString else String c EmptyString
      | r => String c r
      end
  end.

(** [strings.Trim(s, cutset)] *)
Definition Trim (s cutset : string) : string :=
  TrimRight (TrimLeft s cutset) cutset.

(** The scan of [strings.Split] for a non-empty separator: [skip] counts
    the bytes of a separator occurrence still to be passed over, [cur] is
    the piece read so far. *)
Fixpoint splitFrom (sep : string) (skip : nat) (cur s : string) : list string :=
  match s with
  | EmptyString => [cur]
  | String c s' =>
      match skip with
      | S k => splitFrom sep k cur s'
      | O =>
          if HasPrefix s sep
          then cur :: splitFrom sep (String.length sep - 1) EmptyString s'
          else splitFrom sep O (cur +:+ String c EmptyString) s'
      end
  end.

(** [strings.Split(s, sep)] for [sep] non-empty (the converter only splits
    on "/"). The result always has at least one element. *)
Definition Split (s sep : string) : list string :=
  splitFrom sep O EmptyString s.

(** [strings.Join(elems, sep)] *)
Definition Join (elems : list string) (sep : string) : string :=
  String.concat sep elems.

Fixpoint replaceFrom (old new : string) (skip : nat) (s : string) : string :=
  match s with
  | EmptyString => EmptyString
  | String c s' =>
      match skip with
      | S k => replaceFrom old new k s'
      | O =>
          if HasPrefix s old
          then new +:+ replaceFrom old new (String.length old - 1) s'
          else String c (replaceFrom old new O s')
      end
  end.

(** [strings.ReplaceAll(s, old, new)] for [old] non-empty: the
    non-overlapping occurrences, left to right. *)
Definition ReplaceAll (s old new : string) : string :=
  replaceFrom old new O s.

Definition lowerByte (c : ascii) : ascii :=
  let n := nat_of_ascii c in
  if (65 <=? n)%nat && (n <=? 90)%nat then ascii_of_nat (n + 32) else c.

Definition upperByte (c : ascii) : ascii :=
  let n := nat_of_ascii c in
  if (97 <=? n)%nat && (n <=? 122)%nat then ascii_of_nat (n - 32) else c.

Fixpoint mapBytes (f : ascii -> ascii) (s : string) : string :=
  match s with
  | EmptyString => EmptyString
  | String c s' => String (f c) (mapBytes f s')
  end.

(** [strings.ToLower] and [strings.ToUpper] on ASCII text (HTTP method
    names, the only strings the converter passes to them). *)
Definition ToLower : string -> string := mapBytes lowerByte.
Definition ToUpper : string -> string := mapBytes upperByte.

End strings.

(** [%d] of [fmt.Sprintf] on an [int]. *)
Definition decimal (c : Z) : string := NilZero.string_of_int (Z.to_int c).

(** ** Dynamic values

    [interface{}] values as the converter meets them: decoded JSON in the
    argument bag and in [default]/[example]/[enum], and the values the walker
    stores in a property descriptor. A [map[string]interface{}] is an
    association list written in the order of the assignments. *)

Inductive any :=
| Nil                                   (* nil *)
| Bool (b : bool)
| Float64 (x : float)
| Uint64 (n : Z)
| Str (s : string)
| Strs (l : list string)                (* []string, *openapi3.Types *)
| Slice (l : list any)                  (* []interface{} *)
| Map (m : list (string * any))         (* map[string]interface{} *)
| StrMap (m : list (string * string)).  (* map[string]string *)

Definition isNil (v : any) : bool :=
  match v with Nil => true | _ => false end.

Definition nonEmpty (s : string) : bool := negb (String.eqb s "").

(** [m[k] = v] on an association list: overwrite in place, else append. *)
Fixpoint mapSet {V : Type} (k : string) (v : V) (m : list (string * V)) : list (string * V) :=
  match m with
  | [] => [(k, v)]
  | (k', v') :: m' => if String.eqb k' k then (k, v) :: m' else (k', v') :: mapSet k v m'
  end.

(** [m[k]] with the comma-ok result. *)
Fixpoint mapGet {V : Type} (k : string) (m : list (string * V)) : option V :=
  match m with
  | [] => None
  | (k', v') :: m' => if String.eqb k' k then Some v' else mapGet k m'
  end.

(** [delete(m, k)] *)
Fixpoint mapDelete {V : Type} (k : string) (m : list (string * V)) : list (string * V) :=
  match m with
  | [] => []
  | (k', v') :: m' => if String.eqb k' k then mapDelete k m' else (k', v') :: mapDelete k m'
  end.

Definition setIf (c : bool) (k : string) (v : any) (m : list (string * any)) :
  list (string * any) :=
  if c then mapSet k v m else m.

Definition setSome {A : Type} (o : option A) (k : string) (f : A -> any)
  (m : list (string * any)) : list (string * any) :=
  match o with Some a => mapSet k (f a) m | None => m end.

(** ** The document model (package openapi3)

    Schemas form a graph: a [*Schema] is an index into the store of schema
    objects of the loaded document, so that a [$ref] cycle is a cycle of
    indices. *)

Definition ptr := nat.

(** [openapi3.SchemaRef]; [Value = None] is the nil pointer. *)
Record SchemaRef := { Ref : string; Value : option ptr }.

Definition refTo (p : ptr) : SchemaRef := {| Ref := ""; Value := Some p |}.

Record AdditionalProperties := {
  Has : option bool;
  AdditionalSchema : option SchemaRef;   (* field [Schema] *)
}.

Record Discriminator := {
  PropertyName : string;
  Mapping : list (string * string);
}.

Record ExternalDocs := {
  ExternalDocs_Description : string;
  ExternalDocs_URL : string;
}.

Record XML := {
  XML_Name : string;
  XML_Namespace : string;
  XML_Prefix : string;
  XML_Attribute : bool;
  XML_Wrapped : bool;
}.

(** [openapi3.Schema], the fields the converter reads. *)
Module Schema.
Record t := {
  Type_ : option (list string);          (* *Types *)
  Title : string;
  Description : string;
  Default : any;
  Example : any;
  Enum : list any;
  Format : string;
  OneOf : list SchemaRef;
  AnyOf : list SchemaRef;
  AllOf : list SchemaRef;
  Not : option SchemaRef;
  Nullable : bool;
  ReadOnly : bool;
  WriteOnly : bool;
  Deprecated : bool;
  AllowEmptyValue : bool;
  UniqueItems : bool;
  ExclusiveMin : bool;
  ExclusiveMax : bool;
  Min : option float;
  Max : option float;
  MultipleOf : option float;
  MinLength : Z;
  MaxLength : option Z;
  Pattern : string;
  MinItems : Z;
  MaxItems : option Z;
  MinProps : Z;
  MaxProps : option Z;
  Required : list string;
  AdditionalProps : AdditionalProperties;   (* field [AdditionalProperties] *)
  Discr : option Discriminator;             (* field [Discriminator] *)
  Properties : list (string * SchemaRef);
  Items : option SchemaRef;
  ExtDocs : option ExternalDocs;            (* field [ExternalDocs] *)
  Xml : option XML;                         (* field [XML] *)
}.

(** The zero value [openapi3.Schema{}]. *)
Definition zero : t := {|
  Type_ := None; Title := ""; Description := ""; Default := Nil; Example := Nil;
  Enum := []; Format := ""; OneOf := []; AnyOf := []; AllOf := []; Not := None;
  Nullable := false; ReadOnly := false; WriteOnly := false; Deprecated := false;
  AllowEmptyValue := false; UniqueItems := false; ExclusiveMin := false;
  ExclusiveMax := false; Min := None; Max := None; MultipleOf := None;
  MinLength := 0; MaxLength := None; Pattern := ""; MinItems := 0; MaxItems := None;
  MinProps := 0; MaxProps := None; Required := [];
  AdditionalProps := {| Has := None; AdditionalSchema := None |};
  Discr := None; Properties := []; Items := None; ExtDocs := None; Xml := None;
|}.
End Schema.

(** [Types.Is(typ)] on a [Types] pointer: exactly one type, equal to [typ];
    false on nil. *)
Definition TypeIs (t : option (list string)) (typ : string) : bool :=
  match t with
  | Some [x] => String.eqb x typ
  | _ => false
  end.

(** The schema objects of a document. An index outside the store reads as the
    zero schema. *)
Definition Store := list Schema.t.

Definition deref (h : Store) (p : ptr) : Schema.t := default Schema.zero (h !! p).

(** The value of a reference, when it is not nil. *)
Definition refValue (r : option SchemaRef) : option ptr :=
  match r with Some r => Value r | None => None end.

(** ** The schema walker

    The walker threads the [visited] map it was handed: one Go map is shared
    by a caller and all the callees it passes it to, so every write a callee
    makes to the map it received is seen by the caller and by the calls the
    caller makes afterwards. A walk therefore takes the contents of that map
    and returns, with its result, the contents the map has when the call
    returns. [map[string]bool] only ever receives [true]: a set of titles. *)

Definition Walk (A : Type) : Type := gset string -> option (A * gset string).

Definition ret {A : Type} (a : A) : Walk A := fun visited => Some (a, visited).

Definition bind {A B : Type} (m : Walk A) (k : A -> Walk B) : Walk B :=
  fun visited =>
    match m visited with
    | Some (a, visited') => k a visited'
    | None => None
    end.

Notation "'let*' x ':=' m 'in' k" := (bind m (fun x => k))
  (at level 10, x name, m at level 100, k at level 200).

(** The terminal descriptor returned at a title already visited. *)
Definition circularReference (refKey : string) : any :=
  Map [("type", Str "reference");
       ("description", Str ("Circular reference to " +:+ refKey));
       ("title", Str refKey)].

(** [for _, schemaRef := range refs { if schemaRef.Value != nil { out = append(out, walk(...)) } }] *)
Fixpoint walkRefs (walk : ptr -> Walk any) (refs : list SchemaRef) : Walk (list any) :=
  match refs with
  | [] => ret []
  | schemaRef :: rest =>
      match Value schemaRef with
      | Some p =>
          let* d := walk p in
          let* ds := walkRefs walk rest in
          ret (d :: ds)
      | None => walkRefs walk rest
      end
  end.

(** [for propName, propRef := range props { if propRef.Value != nil { out[propName] = walk(...) } }] *)
Fixpoint walkProperties (walk : ptr -> Walk any) (props : list (string * SchemaRef))
  (out : list (string * any)) : Walk (list (string * any)) :=
  match props with
  | [] => ret out
  | (propName, propRef) :: rest =>
      match Value propRef with
      | Some p =>
          let* d := walk p in
          walkProperties walk rest (mapSet propName d out)
      | None => walkProperties walk rest out
      end
  end.

(** One of the [oneOf]/[anyOf]/[allOf] blocks of [processSchemaProperty]. *)
Definition composition (walk : ptr -> Walk any) (key : string) (refs : list SchemaRef)
  (property : list (string * any)) : Walk (list (string * any)) :=
  if (0 <? length refs)%nat then
    let* walked := walkRefs walk refs in
    ret (setIf (0 <? length walked)%nat key (Slice walked) property)
  else ret property.

Definition discriminatorMap (d : Discriminator) : any :=
  let discriminator := [("propertyName", Str (PropertyName d))] in
  Map (setIf (0 <? length (Mapping d))%nat "mapping" (StrMap (Mapping d)) discriminator).

Definition externalDocsMap (e : ExternalDocs) : any :=
  let externalDocs := [] in
  let externalDocs :=
    setIf (nonEmpty (ExternalDocs_Description e)) "description"
      (Str (ExternalDocs_Description e)) externalDocs in
  Map (setIf (nonEmpty (ExternalDocs_URL e)) "url" (Str (ExternalDocs_URL e)) externalDocs).

Definition xmlMap (x : XML) : any :=
  let xml := [] in
  let xml := setIf (nonEmpty (XML_Name x)) "name" (Str (XML_Name x)) xml in
  let xml := setIf (nonEmpty (XML_Namespace x)) "namespace" (Str (XML_Namespace x)) xml in
  let xml := setIf (nonEmpty (XML_Prefix x)) "prefix" (Str (XML_Prefix x)) xml in
  let xml := mapSet "attribute" (Bool (XML_Attribute x)) xml in
  Map (mapSet "wrapped" (Bool (XML_Wrapped x)) xml).

(** The body of [processSchemaProperty] after the circular-reference check,
    open in the two recursive functions. *)
Definition propertyBody (walkProperty walkItems : ptr -> Walk any)
  (schema : Schema.t) : Walk any :=
  let property := [] in
  let property := setSome (Schema.Type_ schema) "type" Strs property in
  (* Basic metadata *)
  let property := setIf (nonEmpty (Schema.Title schema)) "title"
                    (Str (Schema.Title schema)) property in
  let property := setIf (nonEmpty (Schema.Description schema)) "description"
                    (Str (Schema.Description schema)) property in
  let property := setIf (negb (isNil (Schema.Default schema))) "default"
                    (Schema.Default schema) property in
  let property := setIf (negb (isNil (Schema.Example schema))) "example"
                    (Schema.Example schema) property in
  let property := setIf (0 <? length (Schema.Enum schema))%nat "enum"
                    (Slice (Schema.Enum schema)) property in
  let property := setIf (nonEmpty (Schema.Format schema)) "format"
                    (Str (Schema.Format schema)) property in
  (* Schema composition *)
  let* property := composition walkProperty "oneOf" (Schema.OneOf schema) property in
  let* property := composition walkProperty "anyOf" (Schema.AnyOf schema) property in
  let* property := composition walkProperty "allOf" (Schema.AllOf schema) property in
  let* property :=
    match refValue (Schema.Not schema) with
    | Some p => let* d := walkProperty p in ret (mapSet "not" d property)
    | None => ret property
    end in
  (* Boolean flags *)
  let property := setIf (Schema.Nullable schema) "nullable" (Bool true) property in
  let property := setIf (Schema.ReadOnly schema) "readOnly" (Bool true) property in
  let property := setIf (Schema.WriteOnly schema) "writeOnly" (Bool true) property in
  let property := setIf (Schema.Deprecated schema) "deprecated" (Bool true) property in
  let property := setIf (Schema.AllowEmptyValue schema) "allowEmptyValue" (Bool true) property in
  let property := setIf (Schema.UniqueItems schema) "uniqueItems" (Bool true) property in
  let property := setIf (Schema.ExclusiveMin schema) "exclusiveMinimum" (Bool true) property in
  let property := setIf (Schema.ExclusiveMax schema) "exclusiveMaximum" (Bool true) property in
  (* Number validations *)
  let property := setSome (Schema.Min schema) "minimum" Float64 property in
  let property := setSome (Schema.Max schema) "maximum" Float64 property in
  let property := setSome (Schema.MultipleOf schema) "multipleOf" Float64 property in
  (* String validations *)
  let property := setIf (negb (Schema.MinLength schema =? 0)) "minLength"
                    (Uint64 (Schema.MinLength schema)) property in
  let property := setSome (Schema.MaxLength schema) "maxLength" Uint64 property in
  let property := setIf (nonEmpty (Schema.Pattern schema)) "pattern"
                    (Str (Schema.Pattern schema)) property in
  (* Array validations *)
  let property := setIf (negb (Schema.MinItems schema =? 0)) "minItems"
                    (Uint64 (Schema.MinItems schema)) property in
  let property := setSome (Schema.MaxItems schema) "maxItems" Uint64 property in
  (* Object validations *)
  let property := setIf (negb (Schema.MinProps schema =? 0)) "minProperties"
                    (Uint64 (Schema.MinProps schema)) property in
  let property := setSome (Schema.MaxProps schema) "maxProperties" Uint64 property in
  let property := setIf (0 <? length (Schema.Required schema))%nat "required"
                    (Strs (Schema.Required schema)) property in
  (* Handle AdditionalProperties *)
  let* property :=
    match Has (Schema.AdditionalProps schema) with
    | Some has => ret (mapSet "additionalProperties" (Bool has) property)
    | None =>
        match refValue (AdditionalSchema (Schema.AdditionalProps schema)) with
        | Some p =>
            let* d := walkProperty p in
            ret (mapSet "additionalProperties" d property)
        | None => ret property
        end
    end in
  (* Handle discriminator *)
  let property := setSome (Schema.Discr schema) "discriminator" discriminatorMap property in
  (* Recursively process nested objects *)
  let* property :=
    if TypeIs (Schema.Type_ schema) "object" && (0 <? length (Schema.Properties schema))%nat
    then
      let* nestedProps := walkProperties walkProperty (Schema.Properties schema) [] in
      ret (mapSet "properties" (Map nestedProps) property)
    else ret property in
  (* Recursively process array items *)
  let* property :=
    if TypeIs (Schema.Type_ schema) "array" then
      match refValue (Schema.Items schema) with
      | Some p => let* d := walkItems p in ret (mapSet "items" d property)
      | None => ret property
      end
    else ret property in
  (* Handle external docs if present *)
  let property := setSome (Schema.ExtDocs schema) "externalDocs" externalDocsMap property in
  (* Handle XML object if present *)
  let property := setSome (Schema.Xml schema) "xml" xmlMap property in
  ret (Map property).

(** The body of [processSchemaItems], open in the two recursive functions. *)
Definition itemsBody (walkProperty walkItems : ptr -> Walk any)
  (schema : Schema.t) : Walk any :=
  let item := [] in
  let item := setSome (Schema.Type_ schema) "type" Strs item in
  let item := setIf (nonEmpty (Schema.Description schema)) "description"
                (Str (Schema.Description schema)) item in
  (* Process nested properties if this is an object *)
  let* item :=
    if (0 <? length (Schema.Properties schema))%nat then
      let* properties := walkProperties walkProperty (Schema.Properties schema) [] in
      ret (mapSet "properties" (Map properties) item)
    else ret item in
  (* Handle reference if this is a reference to another schema *)
  let* item :=
    match refValue (Schema.Items schema) with
    | Some p => let* d := walkItems p in ret (mapSet "items" d item)
    | None => ret item
    end in
  ret (Map item).

(** The circular-reference check at the head of [processSchemaProperty].
    [visited[refKey] = true] writes to the map the caller passed; the copy
    made after it is what the body and its recursive calls receive, and it is
    dropped on return. With an empty title the body runs on the caller's map
    itself. *)
Definition guarded (schema : Schema.t) (body : Walk any) : Walk any :=
  fun visited =>
    if nonEmpty (Schema.Title schema) then
      let refKey := Schema.Title schema in
      if bool_decide (refKey ∈ visited) then Some (circularReference refKey, visited)
      else
        let visited := {[refKey]} ∪ visited in
        let visitedCopy := visited in
        match body visitedCopy with
        | Some (property, _) => Some (property, visited)
        | None => None
        end
    else body visited.

Section Walker.

Variable h : Store.

(** [Converter.processSchemaProperty] and [Converter.processSchemaItems].
    The recursion of the Go functions is unbounded; [fuel] bounds the depth
    of the calls, and [None] is a walk that did not return within it. *)
Fixpoint processSchemaProperty (fuel : nat) (schema : ptr) {struct fuel} : Walk any :=
  match fuel with
  | O => fun _ => None
  | S fuel =>
      guarded (deref h schema)
        (propertyBody (processSchemaProperty fuel) (processSchemaItems fuel)
           (deref h schema))
  end
with processSchemaItems (fuel : nat) (schema : ptr) {struct fuel} : Walk any :=
  match fuel with
  | O => fun _ => None
  | S fuel =>
      itemsBody (processSchemaProperty fuel) (processSchemaItems fuel) (deref h schema)
  end.

(** [Converter.processSchemaProperties] *)
Definition processSchemaProperties (fuel : nat) (schema : ptr) : Walk any :=
  let* obj := walkProperties (processSchemaProperty fuel)
                (Schema.Properties (deref h schema)) [] in
  ret (Map obj).

End Walker.

(** ** The calls of the walker

    The recursive calls a call of the walker makes on a schema, each with
    the function called: the call graph of the walk over a store. *)

Inductive Mode :=
| AsProperty     (* a call of [processSchemaProperty] *)
| AsItems.       (* a call of [processSchemaItems] *)

#[global] Instance Mode_eq_dec : EqDecision Mode.
Proof. solve_decision. Defined.

(** The schemas a list of references points to, nil values left out. *)
Definition refValues (refs : list SchemaRef) : list ptr := omap Value refs.

Definition propertyCalls (s : Schema.t) : list (Mode * ptr) :=
  map (pair AsProperty)
    (refValues (Schema.OneOf s) ++ refValues (Schema.AnyOf s) ++ refValues (Schema.AllOf s)
     ++ option_list (refValue (Schema.Not s))
     ++ match Has (Schema.AdditionalProps s) with
        | Some _ => []
        | None => option_list (refValue (AdditionalSchema (Schema.AdditionalProps s)))
        end
     ++ (if TypeIs (Schema.Type_ s) "object" && (0 <? length (Schema.Properties s))%nat
         then refValues (map snd (Schema.Properties s)) else []))
  ++ map (pair AsItems)
       (if TypeIs (Schema.Type_ s) "array" then option_list (refValue (Schema.Items s))
        else []).

Definition itemsCalls (s : Schema.t) : list (Mode * ptr) :=
  map (pair AsProperty) (refValues (map snd (Schema.Properties s)))
  ++ map (pair AsItems) (option_list (refValue (Schema.Items s))).

Definition calls (h : Store) (n : Mode * ptr) : list (Mode * ptr) :=
  match fst n with
  | AsProperty => propertyCalls (deref h (snd n))
  | AsItems => itemsCalls (deref h (snd n))
  end.

(** A call the circular-reference check does not cover: any call of
    [processSchemaItems], and a call of [processSchemaProperty] on a schema
    without a title. *)
Definition unchecked (h : Store) (n : Mode * ptr) : Prop :=
  fst n = AsItems \/ Schema.Title (deref h (snd n)) = "".

(** The walk of a call of either function. *)
Definition walk (h : Store) (fuel : nat) (n : Mode * ptr) : Walk any :=
  match fst n with
  | AsProperty => processSchemaProperty h fuel (snd n)
  | AsItems => processSchemaItems h fuel (snd n)
  end.

(** The titles of the schemas of a store. *)
Definition titles (h : Store) : gset string := list_to_set (map Schema.Title h).

(** ** Outcomes of a Go call *)

Inductive outcome (A : Type) : Type :=
| Ok (a : A)              (* the call returned [a] (and a nil error) *)
| Err (msg : string)      (* the call returned a non-nil error *)
| Panic (msg : string)    (* a run-time panic unwound the call *)
| Diverge.                (* the call did not return within the fuel *)

Arguments Ok {A} a.
Arguments Err {A} msg.
Arguments Panic {A} msg.
Arguments Diverge {A}.

Definition obind {A B : Type} (m : outcome A) (k : A -> outcome B) : outcome B :=
  match m with
  | Ok a => k a
  | Err msg => Err msg
  | Panic msg => Panic msg
  | Diverge => Diverge
  end.

Notation "'do*' x ':=' m 'in' k" := (obind m (fun x => k))
  (at level 10, x name, m at level 100, k at level 200).

(** A walk started on a fresh [make(map[string]bool)]. *)
Definition walked (w : Walk any) : outcome any :=
  match w ∅ with
  | Some (d, _) => Ok d
  | None => Diverge
  end.

(** ** The rest of the document model *)

Record Server := { URL : string }.

Record SecurityScheme := {
  SecurityScheme_Type : string;
  SecurityScheme_In : string;
  SecurityScheme_Name : string;
  SecurityScheme_Scheme : string;
}.

(** [openapi3.SecuritySchemeRef] *)
Record SecuritySchemeRef := { SecurityScheme_Value : option SecurityScheme }.

Record Components := {
  SecuritySchemes : list (string * SecuritySchemeRef);
}.

(** [openapi3.Parameter] *)
Module Param.
Record t := {
  Name : string;
  In : string;
  Description : string;
  Required : bool;
  Schema : option SchemaRef;
}.
End Param.

(** [openapi3.ParameterRef] *)
Record ParameterRef := { Parameter_Value : option Param.t }.

Record MediaType := { MediaType_Schema : option SchemaRef }.

Module RequestBody.
Record t := {
  Description : string;
  Required : bool;
  Content : list (string * MediaType);
}.
End RequestBody.

Record RequestBodyRef := { RequestBody_Value : option RequestBody.t }.

Module Response.
Record t := {
  Description : option string;            (* *string *)
  Extensions : list (string * any);
  Content : list (string * MediaType);
}.
End Response.

Record ResponseRef := { Response_Value : option Response.t }.

(** [openapi3.SecurityRequirement]: scheme name to scopes. *)
Definition SecurityRequirement := list (string * list string).

Module Operation.
Record t := {
  OperationID : string;
  Summary : string;
  Description : string;
  Deprecated : bool;
  Parameters : list ParameterRef;
  RequestBody : option RequestBodyRef;
  Responses : option (list (string * option ResponseRef));
  Security : option (list SecurityRequirement);
}.
End Operation.

Record PathItem := {
  Get : option Operation.t;
  Post : option Operation.t;
  Put : option Operation.t;
  Delete : option Operation.t;
  Options_ : option Operation.t;
  Head : option Operation.t;
  Patch : option Operation.t;
  Trace : option Operation.t;
}.

Record Info := { Info_Title : string; Info_Version : string }.

(** [openapi3.T] with the store of its schema objects. *)
Record T := {
  Schemas : Store;
  Servers : list Server;
  DocInfo : option Info;
  Paths : list (string * PathItem);
  DocComponents : option Components;
}.

(** ** The parser's accessors *)

Record Parser := { doc : option T }.

Definition GetDocument (p : Parser) : option T := doc p.

Definition GetPaths (p : Parser) : list (string * PathItem) :=
  match doc p with Some d => Paths d | None => [] end.

Definition GetServers (p : Parser) : list Server :=
  match doc p with Some d => Servers d | None => [] end.

Definition GetInfo (p : Parser) : option Info :=
  match doc p with Some d => DocInfo d | None => None end.

Definition GetStore (p : Parser) : Store :=
  match doc p with Some d => Schemas d | None => [] end.

(** [Parser.GetOperationID] *)
Definition GetOperationID (path method : string) (operation : Operation.t) : string :=
  if nonEmpty (Operation.OperationID operation) then Operation.OperationID operation
  else
    let pathParts := strings.Split (strings.Trim path "/") "/" in
    let pathName :=
      if (0 <? length pathParts)%nat
      then
        let pathName := strings.Join pathParts "_" in
        let pathName := strings.ReplaceAll pathName "{" "" in
        strings.ReplaceAll pathName "}" ""
      else "root" in
    strings.ToLower method +:+ "_" +:+ pathName.

(** ** Package mcp (github.com/mark3labs/mcp-go): tools and their options

    An option is kept as data and interpreted by [NewTool], which runs the
    options in order on the tool under construction, as the library does
    with its option closures. *)

Module mcp.

Inductive PropertyOption :=
| Description (desc : string)
| Required
| DefaultString (value : string)
| Enum (values : list string)
| Items (schema : any)
| Properties (props : any).

Definition applyPropertyOption (schema : list (string * any)) (opt : PropertyOption) :
  list (string * any) :=
  match opt with
  | Description desc => mapSet "description" (Str desc) schema
  | Required => mapSet "required" (Bool true) schema
  | DefaultString value => mapSet "default" (Str value) schema
  | Enum values => mapSet "enum" (Strs values) schema
  | Items item => mapSet "items" item schema
  | Properties props => mapSet "properties" props schema
  end.

Inductive ToolOption :=
| WithDescription (description : string)
| WithString (name : string) (opts : list PropertyOption)
| WithNumber (name : string) (opts : list PropertyOption)
| WithBoolean (name : string) (opts : list PropertyOption)
| WithObject (name : string) (opts : list PropertyOption)
| WithArray (name : string) (opts : list PropertyOption).

Module Tool.
Record t := {
  Name : string;
  Description : string;
  InputProperties : list (string * any);   (* InputSchema.Properties *)
  InputRequired : list string;             (* InputSchema.Required *)
}.
End Tool.

(** The property schema an argument option builds from its options, and
    whether the argument is required: a true "required" entry is taken out
    of the schema and the name goes to the tool's required list. *)
Definition propertySchema (initial : list (string * any)) (opts : list PropertyOption) :
  list (string * any) * bool :=
  let schema := fold_left applyPropertyOption opts initial in
  match mapGet "required" schema with
  | Some (Bool true) => (mapDelete "required" schema, true)
  | _ => (schema, false)
  end.

Definition withProperty (initial : list (string * any)) (name : string)
  (opts : list PropertyOption) (t : Tool.t) : Tool.t :=
  let '(schema, required) := propertySchema initial opts in
  {| Tool.Name := Tool.Name t;
     Tool.Description := Tool.Description t;
     Tool.InputProperties := mapSet name (Map schema) (Tool.InputProperties t);
     Tool.InputRequired :=
       if required then Tool.InputRequired t ++ [name] else Tool.InputRequired t |}.

Definition initialSchema (opt : ToolOption) : list (string * any) :=
  match opt with
  | WithDescription _ => []
  | WithString _ _ => [("type", Str "string")]
  | WithNumber _ _ => [("type", Str "number")]
  | WithBoolean _ _ => [("type", Str "boolean")]
  | WithObject _ _ => [("type", Str "object"); ("properties", Map [])]
  | WithArray _ _ => [("type", Str "array")]
  end.

Definition applyToolOption (t : Tool.t) (opt : ToolOption) : Tool.t :=
  match opt with
  | WithDescription description =>
      {| Tool.Name := Tool.Name t;
         Tool.Description := description;
         Tool.InputProperties := Tool.InputProperties t;
         Tool.InputRequired := Tool.InputRequired t |}
  | WithString name opts
  | WithNumber name opts
  | WithBoolean name opts
  | WithObject name opts
  | WithArray name opts => withProperty (initialSchema opt) name opts t
  end.

(** [mcp.NewTool(name, opts...)] *)
Definition NewTool (name : string) (opts : list ToolOption) : Tool.t :=
  fold_left applyToolOption opts
    {| Tool.Name := name; Tool.Description := "";
       Tool.InputProperties := []; Tool.InputRequired := [] |}.

(** The argument descriptor an argument option stands for. *)
Record Argument := {
  ArgName : string;
  ArgSchema : list (string * any);
  ArgRequired : bool;
}.

Definition argument (opt : ToolOption) : option Argument :=
  match opt with
  | WithDescription _ => None
  | WithString name opts
  | WithNumber name opts
  | WithBoolean name opts
  | WithObject name opts
  | WithArray name opts =>
      let '(schema, required) := propertySchema (initialSchema opt) opts in
      Some {| ArgName := name; ArgSchema := schema; ArgRequired := required |}
  end.

End mcp.

(** ** Functions of the Go standard library

    The behaviour of the packages the converter calls into, as far as the
    converter depends on it. *)

(** [url.Values] and [http.Header]: a key to its values, in order. *)
Definition Values := list (string * list string).

Definition Values_Add (key value : string) (v : Values) : Values :=
  match mapGet key v with
  | Some old => mapSet key (old ++ [value]) v
  | None => mapSet key [value] v
  end.

(** [http.Request], as far as the handler fills it in; [Body = None] is the
    nil body. *)
Record Request := {
  Method : string;
  RequestURL : string;
  Header : Values;
  Body : option string;
}.

(** [http.Response] read to its end: the status code and what [io.ReadAll]
    gives for the body ([None] when the read fails). *)
Record HttpResponse := {
  StatusCode : Z;
  ResponseBody : option string;
}.

Class GoLib := {
  (** [fmt.Sprintf("%v", v)] *)
  Sprint : any -> string;
  (** [json.Marshal(v)]; [None] is an error *)
  json_Marshal : any -> option string;
  (** [json.Unmarshal(data, &schema)] into a fresh [openapi3.Schema]: the
      schema objects it allocates and the one decoded into *)
  json_Unmarshal_Schema : string -> option (Store * ptr);
  (** [url.JoinPath(base, elem)] *)
  url_JoinPath : string -> string -> option string;
  (** [*url.URL] with [url.Parse], [URL.Query], the assignment to
      [URL.RawQuery], and [URL.String] *)
  url_URL : Type;
  url_Parse : string -> option url_URL;
  URL_Query : url_URL -> Values;
  URL_setRawQuery : url_URL -> string -> url_URL;
  URL_String : url_URL -> string;
  (** [url.Values.Encode] *)
  Values_Encode : Values -> string;
  (** whether [http.NewRequestWithContext] accepts the method and URL *)
  http_validRequest : string -> string -> bool;
  (** [textproto.CanonicalMIMEHeaderKey] *)
  CanonicalMIMEHeaderKey : string -> string;
  (** [base64.StdEncoding.EncodeToString] *)
  base64_Encode : string -> string;
  (** [http.DefaultClient.Do]; [None] is an error *)
  http_Do : Request -> option HttpResponse;
  (** the two header names the handler sets are in canonical form *)
  canonical_Authorization : CanonicalMIMEHeaderKey "Authorization" = "Authorization";
  canonical_ContentType : CanonicalMIMEHeaderKey "Content-Type" = "Content-Type";
}.

(** ** The converter *)

Record Options := {
  ServerName : string;
  Version : string;
  ToolNamePrefix : string;
}.

Record Converter := {
  parser : Parser;
  options : Options;
}.

Inductive propertyType :=
| PropertyTypeString
| PropertyTypeInteger
| PropertyTypeNumber
| PropertyTypeBoolean
| PropertyTypeObject
| PropertyTypeArray.

(** [Converter.createToolOption] *)
Definition createToolOption (t : propertyType) (name : string)
  (options : list mcp.PropertyOption) : mcp.ToolOption :=
  match t with
  | PropertyTypeString => mcp.WithString name options
  | PropertyTypeInteger => mcp.WithNumber name options
  | PropertyTypeNumber => mcp.WithNumber name options
  | PropertyTypeBoolean => mcp.WithBoolean name options
  | PropertyTypeObject => mcp.WithObject name options
  | PropertyTypeArray => mcp.WithArray name options
  end.

(** [getDescription] *)
Definition getDescription (operation : Operation.t) : string :=
  let parts := [] in
  let parts := if nonEmpty (Operation.Summary operation)
               then parts ++ [Operation.Summary operation] else parts in
  let parts := if nonEmpty (Operation.Description operation)
               then parts ++ [Operation.Description operation] else parts in
  let parts := if Operation.Deprecated operation
               then parts ++ ["WARNING: This operation is deprecated."] else parts in
  strings.Join parts (String "010" (String "010" "")).

(** [getOperations]: the operations of a path item, by lower-case method. *)
Definition getOperations (pathItem : PathItem) : list (string * Operation.t) :=
  let add (method : string) (o : option Operation.t) operations :=
    match o with Some op => mapSet method op operations | None => operations end in
  let operations := [] in
  let operations := add "get" (Get pathItem) operations in
  let operations := add "post" (Post pathItem) operations in
  let operations := add "put" (Put pathItem) operations in
  let operations := add "delete" (Delete pathItem) operations in
  let operations := add "options" (Options_ pathItem) operations in
  let operations := add "head" (Head pathItem) operations in
  let operations := add "patch" (Patch pathItem) operations in
  add "trace" (Trace pathItem) operations.

(** The server-address argument of [convertOperation]. *)
Definition serverAddrOption (servers : list Server) : mcp.ToolOption :=
  match servers with
  | [] =>
      mcp.WithString "openapi|server_addr"
        [mcp.Description "Server address to connect to"; mcp.Required]
  | [server] =>
      let serverUrls := map URL servers in
      mcp.WithString "openapi|server_addr"
        [mcp.Description "Server address to connect to";
         mcp.DefaultString (URL server);
         mcp.Enum serverUrls]
  | _ =>
      let serverUrls := map URL servers in
      mcp.WithString "openapi|server_addr"
        [mcp.Description "Server address to connect to";
         mcp.Required;
         mcp.Enum serverUrls]
  end.

(** The arguments [convertSecurityRequirements] adds for one scheme. *)
Definition securityOptions (schemeName : string) (scopes : list string)
  (scheme : SecurityScheme) : list mcp.ToolOption :=
  if String.eqb (SecurityScheme_Type scheme) "apiKey" then
    [mcp.WithString ("openapi|auth_" +:+ schemeName)
       [mcp.Description ("API Key for " +:+ schemeName +:+ " authentication (in "
                         +:+ SecurityScheme_In scheme +:+ " named '"
                         +:+ SecurityScheme_Name scheme +:+ "')");
        mcp.Required]]
  else if String.eqb (SecurityScheme_Type scheme) "http" then
    if String.eqb (SecurityScheme_Scheme scheme) "basic" then
      [mcp.WithString "openapi|auth_username"
         [mcp.Description "Username for Basic authentication"; mcp.Required];
       mcp.WithString "openapi|auth_password"
         [mcp.Description "Password for Basic authentication"; mcp.Required]]
    else if String.eqb (SecurityScheme_Scheme scheme) "bearer" then
      [mcp.WithString "openapi|auth_token"
         [mcp.Description "Bearer token for authentication"; mcp.Required]]
    else []
  else if String.eqb (SecurityScheme_Type scheme) "oauth2" then
    if (0 <? length scopes)%nat then
      [mcp.WithString "openapi|auth_oauth2_token"
         [mcp.Description ("OAuth2 token with scopes: " +:+ strings.Join scopes ", ");
          mcp.Required]]
    else
      [mcp.WithString "openapi|auth_oauth2_token"
         [mcp.Description "OAuth2 token for authentication"; mcp.Required]]
  else [].

(** [Converter.convertSecurityRequirements] *)
Definition convertSecurityRequirements (c : Converter)
  (securityRequirements : list SecurityRequirement) : list mcp.ToolOption :=
  match GetDocument (parser c) with
  | None => []
  | Some document =>
      match DocComponents document with
      | None => []
      | Some components =>
          let securitySchemes := SecuritySchemes components in
          if (length securitySchemes =? 0)%nat then []
          else
            flat_map (fun requirement : SecurityRequirement =>
              flat_map (fun '(schemeName, scopes) =>
                match mapGet schemeName securitySchemes with
                | Some {| SecurityScheme_Value := Some scheme |} =>
                    securityOptions schemeName scopes scheme
                | _ => []
                end) requirement) securityRequirements
      end
  end.

Section Convert.

Context {L : GoLib}.

Variable c : Converter.

Let store : Store := GetStore (parser c).

(** The choice of property type in [convertParameters], with the
    [items]/[properties] option it adds. *)
Definition parameterType (fuel : nat) (schema : ptr)
  (propertyOptions : list mcp.PropertyOption) :
  outcome (propertyType * list mcp.PropertyOption) :=
  let s := deref store schema in
  match TypeIs (Schema.Type_ s) "array", refValue (Schema.Items s) with
  | true, Some items =>
      do* item := walked (processSchemaItems store fuel items) in
      Ok (PropertyTypeArray, propertyOptions ++ [mcp.Items item])
  | _, _ =>
      if TypeIs (Schema.Type_ s) "object" && (0 <? length (Schema.Properties s))%nat then
        do* obj := walked (processSchemaProperties store fuel schema) in
        Ok (PropertyTypeObject, propertyOptions ++ [mcp.Properties obj])
      else if TypeIs (Schema.Type_ s) "integer" then Ok (PropertyTypeInteger, propertyOptions)
      else if TypeIs (Schema.Type_ s) "number" then Ok (PropertyTypeNumber, propertyOptions)
      else if TypeIs (Schema.Type_ s) "boolean" then Ok (PropertyTypeBoolean, propertyOptions)
      else Ok (PropertyTypeString, propertyOptions)
  end.

Definition enumString (val : any) : string :=
  match val with
  | Str strVal => strVal
  | _ => Sprint val
  end.

(** One round of the loop of [convertParameters]. *)
Definition convertParameter (fuel : nat) (param : Param.t) : outcome mcp.ToolOption :=
  let propertyOptions := [mcp.Description (Param.Description param)] in
  let propertyOptions :=
    if Param.Required param then propertyOptions ++ [mcp.Required] else propertyOptions in
  do* typed :=
    match refValue (Param.Schema param) with
    | Some schema =>
        do* typed := parameterType fuel schema propertyOptions in
        let '(t, propertyOptions) := typed in
        let s := deref store schema in
        (* Add enum values if present *)
        let propertyOptions :=
          if (0 <? length (Schema.Enum s))%nat then
            let enumValues := map enumString (Schema.Enum s) in
            if (0 <? length enumValues)%nat
            then propertyOptions ++ [mcp.Enum enumValues] else propertyOptions
          else propertyOptions in
        (* Add example if present *)
        let propertyOptions :=
          if negb (isNil (Schema.Example s))
          then propertyOptions ++ [mcp.DefaultString (Sprint (Schema.Example s))]
          else propertyOptions in
        Ok (t, propertyOptions)
    | None => Ok (PropertyTypeString, propertyOptions)
    end in
  let '(t, propertyOptions) := typed in
  if String.eqb (Param.In param) "body"
  then Ok (createToolOption t (Param.In param) propertyOptions)
  else Ok (createToolOption t (Param.In param +:+ "|" +:+ Param.Name param) propertyOptions).

(** [Converter.convertParameters] *)
Fixpoint convertParameters (fuel : nat) (parameters : list ParameterRef) :
  outcome (list mcp.ToolOption) :=
  match parameters with
  | [] => Ok []
  | paramRef :: rest =>
      match Parameter_Value paramRef with
      | None => convertParameters fuel rest
      | Some param =>
          do* arg := convertParameter fuel param in
          do* args := convertParameters fuel rest in
          Ok (arg :: args)
      end
  end.

(** The choice of property type in [convertRequestBody]. *)
Definition bodyType (fuel : nat) (schema : ptr)
  (propertyOptions : list mcp.PropertyOption) :
  outcome (propertyType * list mcp.PropertyOption) :=
  let s := deref store schema in
  match Schema.Type_ s with
  | None => Ok (PropertyTypeObject, propertyOptions)
  | Some _ =>
      match TypeIs (Schema.Type_ s) "array", refValue (Schema.Items s) with
      | true, Some items =>
          do* item := walked (processSchemaItems store fuel items) in
          Ok (PropertyTypeArray, propertyOptions ++ [mcp.Items item])
      | _, _ =>
          if TypeIs (Schema.Type_ s) "object" || (0 <? length (Schema.Properties s))%nat then
            do* obj := walked (processSchemaProperties store fuel schema) in
            Ok (PropertyTypeObject, propertyOptions ++ [mcp.Properties obj])
          else if TypeIs (Schema.Type_ s) "string" then Ok (PropertyTypeString, propertyOptions)
          else if TypeIs (Schema.Type_ s) "integer" then Ok (PropertyTypeInteger, propertyOptions)
          else if TypeIs (Schema.Type_ s) "number" then Ok (PropertyTypeNumber, propertyOptions)
          else if TypeIs (Schema.Type_ s) "boolean" then Ok (PropertyTypeBoolean, propertyOptions)
          else Ok (PropertyTypeObject, propertyOptions)
      end
  end.

(** [Converter.convertRequestBody]: one argument per content entry that
    has a schema. *)
Fixpoint convertContent (fuel : nat) (requestBody : RequestBody.t)
  (content : list (string * MediaType)) : outcome (list mcp.ToolOption) :=
  match content with
  | [] => Ok []
  | (_, mediaType) :: rest =>
      match refValue (MediaType_Schema mediaType) with
      | None => convertContent fuel requestBody rest
      | Some schema =>
          let propertyOptions := [] in
          let propertyOptions :=
            if nonEmpty (RequestBody.Description requestBody)
            then propertyOptions ++ [mcp.Description (RequestBody.Description requestBody)]
            else propertyOptions in
          let propertyOptions :=
            if RequestBody.Required requestBody
            then propertyOptions ++ [mcp.Required] else propertyOptions in
          do* typed := bodyType fuel schema propertyOptions in
          let '(t, propertyOptions) := typed in
          do* args := convertContent fuel requestBody rest in
          Ok (createToolOption t "body" propertyOptions :: args)
      end
  end.

Definition convertRequestBody (fuel : nat) (requestBody : RequestBody.t) :
  outcome (list mcp.ToolOption) :=
  convertContent fuel requestBody (RequestBody.Content requestBody).

End Convert.

Section Describe.

Context {L : GoLib}.

Variable c : Converter.

Let store : Store := GetStore (parser c).

(** The content loop of [generateResponseDescription]. *)
Fixpoint describeContent (fuel : nat) (content : list (string * MediaType))
  (desc : string) : outcome string :=
  match content with
  | [] => Ok desc
  | (contentType, mediaType) :: rest =>
      match refValue (MediaType_Schema mediaType) with
      | Some schema =>
          do* property := walked (processSchemaProperty store fuel schema) in
          match json_Marshal property with
          | None => describeContent fuel rest desc
          | Some str =>
              describeContent fuel rest
                (desc +:+ ", content type: " +:+ contentType +:+ ", schema: " +:+ str)
          end
      | None => describeContent fuel rest desc
      end
  end.

(** One round of the loop of [generateResponseDescription]; [None] is a
    round left by [continue]. *)
Definition describeResponse (fuel : nat) (code : string) (response : Response.t) :
  outcome (option string) :=
  match Response.Description response with
  | None => Panic "invalid memory address or nil pointer dereference"
  | Some description =>
      let desc := "- status: " +:+ code +:+ ", description: " +:+ description in
      let continue_ : outcome (option string) := Ok None in
      let content (desc : string) : outcome (option string) :=
        do* desc := describeContent fuel (Response.Content response) desc in
        Ok (Some desc) in
      match mapGet "schema" (Response.Extensions response) with
      | Some (Map rawSchema) =>
          if (0 <? length rawSchema)%nat then
            match json_Marshal (Map rawSchema) with
            | None => continue_
            | Some jsonStr =>
                match json_Unmarshal_Schema jsonStr with
                | None => continue_
                | Some (decoded, schema) =>
                    do* property := walked (processSchemaProperty decoded fuel schema) in
                    match json_Marshal property with
                    | None => continue_
                    | Some str => content (desc +:+ ", schema: " +:+ str)
                    end
                end
            end
          else content desc
      | _ => content desc
      end
  end.

(** [Converter.generateResponseDescription] *)
Fixpoint describeResponses (fuel : nat) (respMap : list (string * option ResponseRef)) :
  outcome (list string) :=
  match respMap with
  | [] => Ok []
  | (code, responseRef) :: rest =>
      match responseRef with
      | Some {| Response_Value := Some response |} =>
          do* desc := describeResponse fuel code response in
          do* descs := describeResponses fuel rest in
          Ok (match desc with Some d => d :: descs | None => descs end)
      | _ => describeResponses fuel rest
      end
  end.

Definition generateResponseDescription (fuel : nat)
  (responses : list (string * option ResponseRef)) : outcome string :=
  do* responseDescriptions := describeResponses fuel responses in
  Ok (strings.Join responseDescriptions (String "010" (String "010" ""))).

(** The tool name of [convertOperation]. *)
Definition toolName (path method : string) (operation : Operation.t) : string :=
  let toolName := GetOperationID path method operation in
  if nonEmpty (ToolNamePrefix (options c))
  then ToolNamePrefix (options c) +:+ toolName
  else toolName.

(** The description of [convertOperation]. *)
Definition toolDescription (fuel : nat) (operation : Operation.t) : outcome string :=
  let description := getDescription operation in
  match Operation.Responses operation with
  | Some responses =>
      do* responseDesc := generateResponseDescription fuel responses in
      if nonEmpty responseDesc
      then Ok (description +:+ String "010" (String "010" "Responses:")
               +:+ String "010" (String "010" "") +:+ responseDesc)
      else Ok description
  | None => Ok description
  end.

(** The options [convertOperation] hands to [mcp.NewTool], in order. *)
Definition operationOptions (fuel : nat) (operation : Operation.t) :
  outcome (list mcp.ToolOption) :=
  do* args := convertParameters c fuel (Operation.Parameters operation) in
  (* Handle request body if present *)
  do* args :=
    match Operation.RequestBody operation with
    | Some {| RequestBody_Value := Some requestBody |} =>
        do* bodyArgs := convertRequestBody c fuel requestBody in
        Ok (args ++ bodyArgs)
    | _ => Ok args
    end in
  (* Add server address parameter *)
  let servers := GetServers (parser c) in
  let args := args ++ [serverAddrOption servers] in
  (* Handle security requirements if present and enabled *)
  let args :=
    match Operation.Security operation with
    | Some security =>
        if (0 <? length security)%nat
        then args ++ convertSecurityRequirements c security
        else args
    | None => args
    end in
  do* description := toolDescription fuel operation in
  Ok (args ++ [mcp.WithDescription description]).

(** [Converter.convertOperation] *)
Definition convertOperation (fuel : nat) (path method : string)
  (operation : Operation.t) : outcome mcp.Tool.t :=
  do* args := operationOptions fuel operation in
  Ok (mcp.NewTool (toolName path method operation) args).

End Describe.

(** ** The request invoker *)

Record Args := {
  ServerAddr : string;
  AuthToken : string;
  AuthUsername : string;
  AuthPassword : string;
  AuthOAuth2Token : string;
  Headers : list (string * any);
  ArgBody : any;                      (* field [Body] *)
  Query : list (string * any);
  Path : list (string * any);
  Forms : list (string * any);
}.

Definition setServerAddr (v : string) (a : Args) : Args :=
  {| ServerAddr := v; AuthToken := AuthToken a; AuthUsername := AuthUsername a;
     AuthPassword := AuthPassword a; AuthOAuth2Token := AuthOAuth2Token a;
     Headers := Headers a; ArgBody := ArgBody a; Query := Query a; Path := Path a;
     Forms := Forms a |}.

Definition setAuthToken (v : string) (a : Args) : Args :=
  {| ServerAddr := ServerAddr a; AuthToken := v; AuthUsername := AuthUsername a;
     AuthPassword := AuthPassword a; AuthOAuth2Token := AuthOAuth2Token a;
     Headers := Headers a; ArgBody := ArgBody a; Query := Query a; Path := Path a;
     Forms := Forms a |}.

Definition setAuthUsername (v : string) (a : Args) : Args :=
  {| ServerAddr := ServerAddr a; AuthToken := AuthToken a; AuthUsername := v;
     AuthPassword := AuthPassword a; AuthOAuth2Token := AuthOAuth2Token a;
     Headers := Headers a; ArgBody := ArgBody a; Query := Query a; Path := Path a;
     Forms := Forms a |}.

Definition setAuthPassword (v : string) (a : Args) : Args :=
  {| ServerAddr := ServerAddr a; AuthToken := AuthToken a; AuthUsername := AuthUsername a;
     AuthPassword := v; AuthOAuth2Token := AuthOAuth2Token a;
     Headers := Headers a; ArgBody := ArgBody a; Query := Query a; Path := Path a;
     Forms := Forms a |}.

Definition setAuthOAuth2Token (v : string) (a : Args) : Args :=
  {| ServerAddr := ServerAddr a; AuthToken := AuthToken a; AuthUsername := AuthUsername a;
     AuthPassword := AuthPassword a; AuthOAuth2Token := v;
     Headers := Headers a; ArgBody := ArgBody a; Query := Query a; Path := Path a;
     Forms := Forms a |}.

Definition setHeaders (v : list (string * any)) (a : Args) : Args :=
  {| ServerAddr := ServerAddr a; AuthToken := AuthToken a; AuthUsername := AuthUsername a;
     AuthPassword := AuthPassword a; AuthOAuth2Token := AuthOAuth2Token a;
     Headers := v; ArgBody := ArgBody a; Query := Query a; Path := Path a;
     Forms := Forms a |}.

Definition setBody (v : any) (a : Args) : Args :=
  {| ServerAddr := ServerAddr a; AuthToken := AuthToken a; AuthUsername := AuthUsername a;
     AuthPassword := AuthPassword a; AuthOAuth2Token := AuthOAuth2Token a;
     Headers := Headers a; ArgBody := v; Query := Query a; Path := Path a;
     Forms := Forms a |}.

Definition setQuery (v : list (string * any)) (a : Args) : Args :=
  {| ServerAddr := ServerAddr a; AuthToken := AuthToken a; AuthUsername := AuthUsername a;
     AuthPassword := AuthPassword a; AuthOAuth2Token := AuthOAuth2Token a;
     Headers := Headers a; ArgBody := ArgBody a; Query := v; Path := Path a;
     Forms := Forms a |}.

Definition setPath (v : list (string * any)) (a : Args) : Args :=
  {| ServerAddr := ServerAddr a; AuthToken := AuthToken a; AuthUsername := AuthUsername a;
     AuthPassword := AuthPassword a; AuthOAuth2Token := AuthOAuth2Token a;
     Headers := Headers a; ArgBody := ArgBody a; Query := Query a; Path := v;
     Forms := Forms a |}.

Definition setForms (v : list (string * any)) (a : Args) : Args :=
  {| ServerAddr := ServerAddr a; AuthToken := AuthToken a; AuthUsername := AuthUsername a;
     AuthPassword := AuthPassword a; AuthOAuth2Token := AuthOAuth2Token a;
     Headers := Headers a; ArgBody := ArgBody a; Query := Query a; Path := Path a;
     Forms := v |}.

(** The argument bag, [map[string]interface{}], in the order the loop of
    [getArgs] meets its entries. *)
Definition Bag := list (string * any).

(** The type assertion [v.(string)]. *)
Definition assertString (v : any) : outcome string :=
  match v with
  | Str s => Ok s
  | _ => Panic "interface conversion: interface {} is not string"
  end.

(** The initial value of [arg] in [getArgs]. *)
Definition emptyArgs : Args :=
  {| ServerAddr := ""; AuthToken := ""; AuthUsername := ""; AuthPassword := "";
     AuthOAuth2Token := ""; Headers := []; ArgBody := Nil; Query := []; Path := [];
     Forms := [] |}.

(** One round of the loop of [getArgs]. *)
Definition getArgsStep (arg : Args) (k : string) (v : any) : outcome Args :=
  if strings.HasPrefix k "openapi|" then
    let subkey := strings.TrimPrefix k "openapi|" in
    if String.eqb subkey "server_addr" then
      do* s := assertString v in Ok (setServerAddr s arg)
    else if String.eqb subkey "auth_token" then
      do* s := assertString v in Ok (setAuthToken s arg)
    else if String.eqb subkey "auth_username" then
      do* s := assertString v in Ok (setAuthUsername s arg)
    else if String.eqb subkey "auth_password" then
      do* s := assertString v in Ok (setAuthPassword s arg)
    else if String.eqb subkey "auth_oauth2_token" then
      do* s := assertString v in Ok (setAuthOAuth2Token s arg)
    else
      do* s := assertString v in Ok (setAuthToken s arg)
  else if String.eqb k "body" then Ok (setBody v arg)
  else if strings.HasPrefix k "query|" then
    Ok (setQuery (mapSet (strings.TrimPrefix k "query|") v (Query arg)) arg)
  else if strings.HasPrefix k "path|" then
    Ok (setPath (mapSet (strings.TrimPrefix k "path|") v (Path arg)) arg)
  else if strings.HasPrefix k "header|" then
    Ok (setHeaders (mapSet (strings.TrimPrefix k "header|") v (Headers arg)) arg)
  else if strings.HasPrefix k "formData|" then
    Ok (setForms (mapSet (strings.TrimPrefix k "formData|") v (Forms arg)) arg)
  else Ok arg.

Fixpoint getArgsFrom (arg : Args) (args : Bag) : outcome Args :=
  match args with
  | [] => Ok arg
  | (k, v) :: rest =>
      do* arg := getArgsStep arg k v in
      getArgsFrom arg rest
  end.

(** [getArgs] *)
Definition getArgs (args : Bag) : outcome Args := getArgsFrom emptyArgs args.

(** The authentication the handler adds to the request. *)
Inductive Auth :=
| Bearer (token : string)
| Basic (username password : string).

(** The choice made by the if-chain "Add authentication if provided". *)
Definition authentication (arg : Args) : option Auth :=
  if nonEmpty (AuthToken arg) then Some (Bearer (AuthToken arg))
  else if nonEmpty (AuthUsername arg) && nonEmpty (AuthPassword arg)
  then Some (Basic (AuthUsername arg) (AuthPassword arg))
  else if nonEmpty (AuthOAuth2Token arg) then Some (Bearer (AuthOAuth2Token arg))
  else None.

(** The server the handler sends to: the argument, else the server bound at
    conversion time, else the empty string. *)
Definition serverURL (server : option Server) (arg : Args) : string :=
  let serverURL := ServerAddr arg in
  match server with
  | Some server => if String.eqb serverURL "" then URL server else serverURL
  | None => serverURL
  end.

Inductive CallToolResult :=
| NewToolResultText (text : string).

Section Invoke.

Context {L : GoLib}.

(** [http.Header]: [Add], [Set], [Get] and [Request.SetBasicAuth]. *)
Definition Header_Add (key value : string) (h : Values) : Values :=
  Values_Add (CanonicalMIMEHeaderKey key) value h.

Definition Header_Set (key value : string) (h : Values) : Values :=
  mapSet (CanonicalMIMEHeaderKey key) [value] h.

Definition Header_Values (key : string) (h : Values) : list string :=
  default [] (mapGet (CanonicalMIMEHeaderKey key) h).

Definition basicAuth (username password : string) : string :=
  "Basic " +:+ base64_Encode (username +:+ ":" +:+ password).

(** The value of the [Authorization] header for an authentication. *)
Definition authValue (auth : Auth) : string :=
  match auth with
  | Bearer token => "Bearer " +:+ token
  | Basic username password => basicAuth username password
  end.

Definition applyAuth (auth : option Auth) (h : Values) : Values :=
  match auth with
  | Some auth => Header_Set "Authorization" (authValue auth) h
  | None => h
  end.

(** The header after "Add headers" and "Set content type". *)
Definition contentHeader (arg : Args) : Values :=
  let header :=
    fold_left (fun header '(key, value) => Header_Add key (Sprint value) header)
      (Headers arg) [] in
  if negb (isNil (ArgBody arg))
  then Header_Set "Content-Type" "application/json" header
  else header.

(** "Replace path parameters" *)
Definition finalPath (path : string) (arg : Args) : string :=
  fold_left (fun finalPath '(paramName, paramValue) =>
               strings.ReplaceAll finalPath ("{" +:+ paramName +:+ "}") (Sprint paramValue))
    (Path arg) path.

(** "Add query parameters" *)
Definition withQuery (parsedURL : url_URL) (arg : Args) : url_URL :=
  if (0 <? length (Query arg))%nat then
    let q := fold_left (fun q '(key, value) => Values_Add key (Sprint value) q)
               (Query arg) (URL_Query parsedURL) in
    URL_setRawQuery parsedURL (Values_Encode q)
  else parsedURL.

(** The loop "For form data". *)
Fixpoint formData (forms : list (string * any)) (data : Values) : outcome Values :=
  match forms with
  | [] => Ok data
  | (key, value) :: rest =>
      match value with
      | Map _ =>
          match json_Marshal value with
          | None => Err "json: unsupported value"
          | Some jsonStr => formData rest (Values_Add key jsonStr data)
          end
      | _ => formData rest (Values_Add key (Sprint value) data)
      end
  end.

(** The handler of [newHandler] up to the call of the HTTP client: the
    request it has built by then. *)
Definition buildRequest (server : option Server) (path method : string)
  (arguments : Bag) : outcome Request :=
  do* arg := getArgs arguments in
  (* Build the URL *)
  let serverURL := serverURL server arg in
  (* Replace path parameters *)
  let finalPath := finalPath path arg in
  (* Build the full URL with query parameters *)
  match url_JoinPath serverURL finalPath with
  | None => Err "failed to join URL path"
  | Some fullURL =>
      match url_Parse fullURL with
      | None => Err "failed to parse URL"
      | Some parsedURL =>
          (* Add query parameters *)
          let parsedURL := withQuery parsedURL arg in
          (* Create the request body if needed *)
          do* reqBody :=
            if negb (isNil (ArgBody arg)) then
              match json_Marshal (ArgBody arg) with
              | None => Err "failed to marshal request body"
              | Some bodyBytes => Ok (Some bodyBytes)
              end
            else Ok None in
          (* Create the HTTP request *)
          if negb (http_validRequest (strings.ToUpper method) (URL_String parsedURL))
          then Err "failed to create HTTP request"
          else
            let header := [] in
            (* Add headers *)
            let header :=
              fold_left (fun header '(key, value) => Header_Add key (Sprint value) header)
                (Headers arg) header in
            (* Set content type for requests with body *)
            let header :=
              if negb (isNil (ArgBody arg))
              then Header_Set "Content-Type" "application/json" header
              else header in
            (* Add authentication if provided *)
            let header := applyAuth (authentication arg) header in
            (* For form data *)
            do* formed :=
              if (0 <? length (Forms arg))%nat then
                do* data := formData (Forms arg) [] in
                Ok (Header_Set "Content-Type" "application/x-www-form-urlencoded" header,
                    Some (Values_Encode data))
              else Ok (header, reqBody) in
            Ok {| Method := strings.ToUpper method;
                  RequestURL := URL_String parsedURL;
                  Header := fst formed;
                  Body := snd formed |}
      end
  end.

(** The text of the tool result. *)
Definition resultText (statusCode : Z) (result : string) : string :=
  "status code: " +:+ decimal statusCode +:+ String "010" "response body: " +:+ result.

(** The handler returned by [newHandler]. *)
Definition newHandler (server : option Server) (path method : string)
  (operation : Operation.t) (arguments : Bag) : outcome CallToolResult :=
  do* httpReq := buildRequest server path method arguments in
  match http_Do httpReq with
  | None => Err "request failed"
  | Some resp =>
      match ResponseBody resp with
      | None => Err "read response error"
      | Some result => Ok (NewToolResultText (resultText (StatusCode resp) result))
      end
  end.

(** [Converter.Convert]: the registered tools with their handlers, by
    tool name. *)
Record MCPServer := {
  MCPServer_name : string;
  MCPServer_version : string;
  MCPServer_tools : list (string * (mcp.Tool.t * (Bag -> outcome CallToolResult)));
}.

Fixpoint convertOperations (c : Converter) (fuel : nat) (server : option Server)
  (path : string) (operations : list (string * Operation.t))
  (tools : list (string * (mcp.Tool.t * (Bag -> outcome CallToolResult)))) :
  outcome (list (string * (mcp.Tool.t * (Bag -> outcome CallToolResult)))) :=
  match operations with
  | [] => Ok tools
  | (method, operation) :: rest =>
      do* tool := convertOperation c fuel path method operation in
      let handler := newHandler server path method operation in
      convertOperations c fuel server path rest
        (mapSet (mcp.Tool.Name tool) (tool, handler) tools)
  end.

Fixpoint convertPaths (c : Converter) (fuel : nat) (server : option Server)
  (paths : list (string * PathItem))
  (tools : list (string * (mcp.Tool.t * (Bag -> outcome CallToolResult)))) :
  outcome (list (string * (mcp.Tool.t * (Bag -> outcome CallToolResult)))) :=
  match paths with
  | [] => Ok tools
  | (path, pathItem) :: rest =>
      do* tools := convertOperations c fuel server path (getOperations pathItem) tools in
      convertPaths c fuel server rest tools
  end.

(** The server bound to every handler: the single declared server. *)
Definition boundServer (servers : list Server) : option Server :=
  match servers with
  | [server] => Some server
  | _ => None
  end.

Definition Convert (c : Converter) (fuel : nat) : outcome MCPServer :=
  match GetDocument (parser c) with
  | None => Err "no OpenAPI document loaded"
  | Some _ =>
      match GetInfo (parser c) with
      | None => Err "no info found in OpenAPI document"
      | Some info =>
          let options' :=
            {| ServerName := if String.eqb (ServerName (options c)) ""
                             then Info_Title info else ServerName (options c);
               Version := if String.eqb (Version (options c)) ""
                          then Info_Version info else Version (options c);
               ToolNamePrefix := ToolNamePrefix (options c) |} in
          let c := {| parser := parser c; options := options' |} in
          let servers := GetServers (parser c) in
          let server := boundServer servers in
          do* tools := convertPaths c fuel server (GetPaths (parser c)) [] in
          Ok {| MCPServer_name := ServerName options';
                MCPServer_version := Version options';
                MCPServer_tools := tools |}
      end
  end.

End Invoke.

(** ** A library instance for the examples

    Exact on what the examples below pass to it (nil, booleans, integers and
    strings without characters to escape; clean URL paths; header names in
    canonical form), and a simplification elsewhere. The HTTP client
    refuses a URL that is neither http nor https, as Go's transport does
    ("unsupported protocol scheme"), and reaches a server that answers every
    other request with 200 and the body "ok". *)

Module Sample.

Definition alphabet : string :=
  "ABCDEFGHIJKLMNOPQRSTUVWXYZabcdefghijklmnopqrstuvwxyz0123456789+/".

Definition digit (n : nat) : string :=
  match String.get n alphabet with
  | Some ch => String ch ""
  | None => ""
  end.

Fixpoint base64 (bytes : list nat) : string :=
  match bytes with
  | [] => ""
  | [a] => digit (a / 4) +:+ digit (a mod 4 * 16) +:+ "=="
  | [a; b] =>
      digit (a / 4) +:+ digit (a mod 4 * 16 + b / 16) +:+ digit (b mod 16 * 4) +:+ "="
  | a :: b :: c :: rest =>
      digit (a / 4) +:+ digit (a mod 4 * 16 + b / 16)
      +:+ digit (b mod 16 * 4 + c / 64) +:+ digit (c mod 64) +:+ base64 rest
  end%nat.

Definition sprint (v : any) : string :=
  match v with
  | Nil => "<nil>"
  | Bool true => "true"
  | Bool false => "false"
  | Uint64 n => decimal n
  | Str s => s
  | _ => ""
  end.

Definition quote (s : string) : string := String "034" (s +:+ String "034" "").

Fixpoint marshal (v : any) : string :=
  match v with
  | Nil => "null"
  | Bool true => "true"
  | Bool false => "false"
  | Uint64 n => decimal n
  | Str s => quote s
  | Strs l => "[" +:+ String.concat "," (map quote l) +:+ "]"
  | Slice l => "[" +:+ String.concat "," (map marshal l) +:+ "]"
  | Map m =>
      "{" +:+ String.concat "," (map (fun kv => quote (fst kv) +:+ ":" +:+ marshal (snd kv)) m)
      +:+ "}"
  | StrMap m =>
      "{" +:+ String.concat "," (map (fun kv => quote (fst kv) +:+ ":" +:+ quote (snd kv)) m)
      +:+ "}"
  | Float64 _ => "0"
  end.

Definition JoinPath (base elem : string) : option string :=
  if String.eqb base "" then Some (strings.TrimLeft elem "/")
  else Some (strings.TrimRight base "/" +:+ "/" +:+ strings.TrimLeft elem "/").

Definition Encode (v : Values) : string :=
  String.concat "&"
    (flat_map (fun kv => map (fun value => fst kv +:+ "=" +:+ value) (snd kv)) v).

Definition Do (req : Request) : option HttpResponse :=
  if strings.HasPrefix (RequestURL req) "http://"
     || strings.HasPrefix (RequestURL req) "https://"
  then Some {| StatusCode := 200; ResponseBody := Some "ok" |}
  else None.

#[export] Instance lib : GoLib := {|
  Sprint := sprint;
  json_Marshal := fun v => Some (marshal v);
  json_Unmarshal_Schema := fun _ => None;
  url_JoinPath := JoinPath;
  url_URL := string * string;
  url_Parse := fun s => Some (s, "");
  URL_Query := fun _ => [];
  URL_setRawQuery := fun u q => (fst u, q);
  URL_String := fun u => if String.eqb (snd u) "" then fst u else fst u +:+ "?" +:+ snd u;
  Values_Encode := Encode;
  http_validRequest := fun _ _ => true;
  CanonicalMIMEHeaderKey := fun key => key;
  base64_Encode := fun s => base64 (map nat_of_ascii (list_ascii_of_string s));
  http_Do := Do;
  canonical_Authorization := eq_refl;
  canonical_ContentType := eq_refl;
|}.

(** A schema with a type, a title, properties and an item schema, and
    nothing else set. *)
Definition schema (type : option (list string)) (title : string)
  (properties : list (string * ptr)) (items : option ptr) : Schema.t :=
  {| Schema.Type_ := type; Schema.Title := title; Schema.Description := "";
     Schema.Default := Nil; Schema.Example := Nil; Schema.Enum := [];
     Schema.Format := ""; Schema.OneOf := []; Schema.AnyOf := []; Schema.AllOf := [];
     Schema.Not := None; Schema.Nullable := false; Schema.ReadOnly := false;
     Schema.WriteOnly := false; Schema.Deprecated := false;
     Schema.AllowEmptyValue := false; Schema.UniqueItems := false;
     Schema.ExclusiveMin := false; Schema.ExclusiveMax := false;
     Schema.Min := None; Schema.Max := None; Schema.MultipleOf := None;
     Schema.MinLength := 0; Schema.MaxLength := None; Schema.Pattern := "";
     Schema.MinItems := 0; Schema.MaxItems := None; Schema.MinProps := 0;
     Schema.MaxProps := None; Schema.Required := [];
     Schema.AdditionalProps := {| Has := None; AdditionalSchema := None |};
     Schema.Discr := None;
     Schema.Properties := map (fun kp => (fst kp, refTo (snd kp))) properties;
     Schema.Items := refTo <$> items;
     Schema.ExtDocs := None; Schema.Xml := None |}.

(** GET /pets/{id} with one required string path parameter. *)
Definition getPet : Operation.t :=
  {| Operation.OperationID := ""; Operation.Summary := "Find a pet";
     Operation.Description := ""; Operation.Deprecated := false;
     Operation.Parameters :=
       [{| Parameter_Value := Some
             {| Param.Name := "id"; Param.In := "path"; Param.Description := "pet id";
                Param.Required := true; Param.Schema := Some (refTo 0%nat) |} |}];
     Operation.RequestBody := None; Operation.Responses := None;
     Operation.Security := None |}.

Definition document (servers : list Server) : T :=
  {| Schemas := [schema (Some ["string"]) "" [] None];
     Servers := servers;
     DocInfo := Some {| Info_Title := "pets"; Info_Version := "1" |};
     Paths := [("/pets/{id}",
                {| Get := Some getPet; Post := None; Put := None; Delete := None;
                   Options_ := None; Head := None; Patch := None; Trace := None |})];
     DocComponents := None |}.

Definition converter (servers : list Server) : Converter :=
  {| parser := {| doc := Some (document servers) |};
     options := {| ServerName := ""; Version := ""; ToolNamePrefix := "" |} |}.

Definition apiServer : Server := {| URL := "https://api.example.com" |}.

(** An object whose properties [a] and [b] are the same schema [Pet], in
    the two orders a run can meet them. *)
Definition pet : list Schema.t :=
  [schema (Some ["object"]) "Pet" [("name", 2%nat)] None;
   schema (Some ["string"]) "" [] None].

Definition siblings : Store :=
  schema (Some ["object"]) "" [("a", 1%nat); ("b", 1%nat)] None :: pet.

Definition siblingsReversed : Store :=
  schema (Some ["object"]) "" [("b", 1%nat); ("a", 1%nat)] None :: pet.

Definition petExpanded : any :=
  Map [("type", Strs ["object"]); ("title", Str "Pet");
       ("properties", Map [("name", Map [("type", Strs ["string"])])])].

(** A schema without a title whose property [next] is the schema itself. *)
Definition untitledLoop : Store :=
  [schema (Some ["object"]) "" [("next", 0%nat)] None].

(** An array [Tree] whose items are [Tree]. *)
Definition itemsLoop : Store :=
  [schema (Some ["array"]) "Tree" [] (Some 0%nat)].

(** An object [Person] whose property [friend] is [Person]. *)
Definition person : Store :=
  [schema (Some ["object"]) "Person" [("friend", 0%nat)] None].

(** An operation without an operation id and with nothing declared. *)
Definition bare : Operation.t :=
  {| Operation.OperationID := ""; Operation.Summary := ""; Operation.Description := "";
     Operation.Deprecated := false; Operation.Parameters := [];
     Operation.RequestBody := None; Operation.Responses := None;
     Operation.Security := None |}.

(** Basic credentials together with an OAuth2 token. *)
Definition basicAndOAuth2 : Bag :=
  [("openapi|auth_username", Str "user");
   ("openapi|auth_password", Str "pass");
   ("openapi|auth_oauth2_token", Str "tok")].

(** An API key scheme carried in the header X-API-Key. *)
Definition apiKeyScheme : SecurityScheme :=
  {| SecurityScheme_Type := "apiKey"; SecurityScheme_In := "header";
     SecurityScheme_Name := "X-API-Key"; SecurityScheme_Scheme := "" |}.

End Sample.

(** ** Vocabulary of the statements *)

(** The sub-keys of [openapi|] that [getArgs] names in its switch. *)
Definition namedSubkeys : list string :=
  ["server_addr"; "auth_token"; "auth_username"; "auth_password"; "auth_oauth2_token"].

(** The keys [getArgs] stores under one of its prefixes. *)
Definition recognized (k : string) : bool :=
  strings.HasPrefix k "openapi|" || String.eqb k "body" || strings.HasPrefix k "query|"
  || strings.HasPrefix k "path|" || strings.HasPrefix k "header|"
  || strings.HasPrefix k "formData|".

(** The keys whose value [getArgs] stores in [AuthToken]. *)
Definition writesAuthToken (k : string) : bool :=
  strings.HasPrefix k "openapi|"
  && negb (existsb (String.eqb (strings.TrimPrefix k "openapi|"))
             ["server_addr"; "auth_username"; "auth_password"; "auth_oauth2_token"]).

Definition isString (v : any) : bool :=
  match v with Str _ => true | _ => false end.

(** The name of the argument an option declares. *)
Definition optionName (opt : mcp.ToolOption) : string :=
  match mcp.argument opt with
  | Some a => mcp.ArgName a
  | None => ""
  end.

(** ** Vocabulary of the proofs *)

(** The handlers registered so far are all bound to [server]. *)
Definition boundTo {L : GoLib} (server : option Server)
  (tools : list (string * (mcp.Tool.t * (Bag -> outcome CallToolResult)))) : Prop :=
  forall name tool handler,
    In (name, (tool, handler)) tools ->
    exists path method operation, handler = newHandler server path method operation.

(** The descriptor of the server-address argument, by the number of
    declared servers. *)
Definition serverAddrArgument (servers : list Server) : mcp.Argument :=
  let described :=
    [("type", Str "string"); ("description", Str "Server address to connect to")] in
  match servers with
  | [] =>
      {| mcp.ArgName := "openapi|server_addr"; mcp.ArgSchema := described;
         mcp.ArgRequired := true |}
  | [server] =>
      {| mcp.ArgName := "openapi|server_addr";
         mcp.ArgSchema := described ++ [("default", Str (URL server));
                                        ("enum", Strs [URL server])];
         mcp.ArgRequired := false |}
  | _ =>
      {| mcp.ArgName := "openapi|server_addr";
         mcp.ArgSchema := described ++ [("enum", Strs (map URL servers))];
         mcp.ArgRequired := true |}
  end.

(** A walk that returns from every map above [visited0], with a map above
    the one it started from. *)
Definition returnsFrom {A : Type} (visited0 : gset string) (m : Walk A) : Prop :=
  forall visited, visited0 ⊆ visited ->
    exists a visited', m visited = Some (a, visited') /\ visited ⊆ visited'.

(** Where [m] returns, [m'] returns the same. *)
Definition refines {A : Type} (m m' : Walk A) : Prop :=
  forall visited r, m visited = Some r -> m' visited = Some r.

(** The map the body of a call runs on. *)
Definition bodyVisited (h : Store) (n : Mode * ptr) (visited : gset string) : gset string :=
  match fst n with
  | AsProperty =>
      if nonEmpty (Schema.Title (deref h (snd n)))
      then {[Schema.Title (deref h (snd n))]} ∪ visited
      else visited
  | AsItems => visited
  end.

(** The titles not yet visited, then the rank. *)
Definition depth (h : Store) (rank : Mode * ptr -> nat) (R : nat) (n : Mode * ptr)
  (visited : gset string) : nat :=
  (size (titles h ∖ bodyVisited h n visited) * S R + rank n)%nat.


(** ** Vocabulary of the further properties *)

(** The entries of a bag whose key has the prefix [pre], under the name
    that follows the prefix, in the order of the bag. *)
Definition entriesUnder (pre : string) (bag : Bag) : list (string * any) :=
  map (fun kv => (strings.TrimPrefix (fst kv) pre, snd kv))
    (List.filter (fun kv => strings.HasPrefix (fst kv) pre) bag).

(** A walk that only adds to the visited map, and only elements of [T]. *)
Definition addsWithin {A : Type} (T : gset string) (m : Walk A) : Prop :=
  forall visited a visited',
    m visited = Some (a, visited') -> visited ⊆ visited' /\ visited' ⊆ visited ∪ T.

(** The string without the occurrences of a byte. *)
Fixpoint withoutByte (c : ascii) (s : string) : string :=
  match s with
  | EmptyString => EmptyString
  | String ch s' => if Ascii.eqb ch c then withoutByte c s' else String ch (withoutByte c s')
  end.

(** Whether a byte occurs in a string. *)
Fixpoint hasByte (c : ascii) (s : string) : bool :=
  match s with
  | EmptyString => false
  | String ch s' => Ascii.eqb ch c || hasByte c s'
  end.

(** A slash becomes an underscore. *)
Definition slashToUnderscore (ch : ascii) : ascii :=
  if Ascii.eqb ch "/" then "_"%char else ch.

(** The methods [getOperations] knows. *)
Definition methods : list string :=
  ["get"; "post"; "put"; "delete"; "options"; "head"; "patch"; "trace"].

(** A call that did not return a non-nil error. *)
Definition noError {A : Type} (o : outcome A) : Prop := forall msg, o <> Err msg.

(** The converter after [Convert] has filled in the server name and the
    version from the document's info. *)
Definition withDefaults (c : Converter) (info : Info) : Converter :=
  {| parser := parser c;
     options :=
       {| ServerName := if String.eqb (ServerName (options c)) ""
                        then Info_Title info else ServerName (options c);
          Version := if String.eqb (Version (options c)) ""
                     then Info_Version info else Version (options c);
          ToolNamePrefix := ToolNamePrefix (options c) |} |}.

(** The tools registered so far: each under its own name, the conversion of
    a declared operation, with the handler of that operation. *)
Definition registered {L : GoLib} (c : Converter) (fuel : nat) (server : option Server)
  (declared : string -> string -> Operation.t -> Prop)
  (tools : list (string * (mcp.Tool.t * (Bag -> outcome CallToolResult)))) : Prop :=
  forall name tool handler,
    In (name, (tool, handler)) tools ->
    name = mcp.Tool.Name tool
    /\ exists path method operation,
         declared path method operation
         /\ convertOperation c fuel path method operation = Ok tool
         /\ handler = newHandler server path method operation.

(** The operations a list of paths declares. *)
Definition declaredIn (paths : list (string * PathItem)) (path method : string)
  (operation : Operation.t) : Prop :=
  exists pathItem, In (path, pathItem) paths /\ In (method, operation) (getOperations pathItem).

(** ** Further examples *)

Module Examples.

(** An operation whose only response has no description. *)
Definition undescribed : Operation.t :=
  {| Operation.OperationID := "ping"; Operation.Summary := ""; Operation.Description := "";
     Operation.Deprecated := false; Operation.Parameters := [];
     Operation.RequestBody := None;
     Operation.Responses :=
       Some [("200", Some {| Response_Value :=
                               Some {| Response.Description := None;
                                       Response.Extensions := [];
                                       Response.Content := [] |} |})];
     Operation.Security := None |}.

(** A document that declares it under [GET /ping]. *)
Definition undescribedConverter : Converter :=
  {| parser :=
       {| doc := Some {| Schemas := []; Servers := [];
                         DocInfo := Some {| Info_Title := "ping"; Info_Version := "1" |};
                         Paths := [("/ping",
                                    {| Get := Some undescribed; Post := None; Put := None;
                                       Delete := None; Options_ := None; Head := None;
                                       Patch := None; Trace := None |})];
                         DocComponents := None |} |};
     options := {| ServerName := ""; Version := ""; ToolNamePrefix := "" |} |}.

(** A store with an integer schema and an array schema without items. *)
Definition scalarConverter : Converter :=
  {| parser :=
       {| doc := Some {| Schemas := [Sample.schema (Some ["integer"]) "" [] None;
                                     Sample.schema (Some ["array"]) "" [] None];
                         Servers := [];
                         DocInfo := Some {| Info_Title := "scalars"; Info_Version := "1" |};
                         Paths := []; DocComponents := None |} |};
     options := {| ServerName := ""; Version := ""; ToolNamePrefix := "" |} |}.

Definition limit : Param.t :=
  {| Param.Name := "limit"; Param.In := "query"; Param.Description := "page size";
     Param.Required := false; Param.Schema := Some (refTo 0%nat) |}.

Definition payload : RequestBody.t :=
  {| RequestBody.Description := "payload"; RequestBody.Required := true;
     RequestBody.Content :=
       [("application/json", {| MediaType_Schema := Some (refTo 0%nat) |});
        ("text/plain", {| MediaType_Schema := None |})] |}.

End Examples.

(** A form field of the request for an entry of [Forms]: the same name
    with one value, the JSON of an object and the rendering of anything
    else. *)
Definition formField {L : GoLib} (entry : string * any) (field : string * list string) :
  Prop :=
  fst field = fst entry
  /\ exists s, snd field = [s]
               /\ match snd entry with
                  | Map _ => json_Marshal (snd entry) = Some s
                  | _ => s = Sprint (snd entry)
                  end.

(** The keys [processSchemaProperty] writes to a descriptor. *)
Definition propertyKeys : list string :=
  ["type"; "title"; "description"; "default"; "example"; "enum"; "format";
   "oneOf"; "anyOf"; "allOf"; "not";
   "nullable"; "readOnly"; "writeOnly"; "deprecated"; "allowEmptyValue"; "uniqueItems";
   "exclusiveMinimum"; "exclusiveMaximum";
   "minimum"; "maximum"; "multipleOf"; "minLength"; "maxLength"; "pattern";
   "minItems"; "maxItems"; "minProperties"; "maxProperties"; "required";
   "additionalProperties"; "discriminator"; "properties"; "items"; "externalDocs"; "xml"].

(** A descriptor under construction for a schema: only known keys, and the
    type, title and description of the schema. *)
Definition describes (s : Schema.t) (property : list (string * any)) : Prop :=
  (forall k, In k (map fst property) -> In k propertyKeys)
  /\ mapGet "type" property = option_map Strs (Schema.Type_ s)
  /\ mapGet "title" property
     = (if nonEmpty (Schema.Title s) then Some (Str (Schema.Title s)) else None)
  /\ mapGet "description" property
     = (if nonEmpty (Schema.Description s) then Some (Str (Schema.Description s)) else None).

(** What a walk returns, when it returns, satisfies [P]. *)
Definition yields {A : Type} (m : Walk A) (P : A -> Prop) : Prop :=
  forall visited a visited', m visited = Some (a, visited') -> P a.

(** The name [convertParameters] gives the argument of a parameter. *)
Definition parameterKey (param : Param.t) : string :=
  if String.eqb (Param.In param) "body" then "body"
  else Param.In param +:+ "|" +:+ Param.Name param.
(** ** Association lists *)

Lemma mapGet_mapSet_eq {V : Type} (k : string) (v : V) (m : list (string * V)) :
  mapGet k (mapSet k v m) = Some v.
Proof.
  induction m as [|[k' v'] m IH]; simpl.
  - by rewrite String.eqb_refl.
  - destruct (String.eqb k' k) eqn:E; simpl.
    + by rewrite String.eqb_refl.
    + by rewrite E.
Qed.

Lemma mapGet_mapSet_ne {V : Type} (k k' : string) (v : V) (m : list (string * V)) :
  k <> k' -> mapGet k (mapSet k' v m) = mapGet k m.
Proof.
  intros Hne. induction m as [|[k0 v0] m IH]; simpl.
  - destruct (String.eqb k' k) eqn:E; [|done].
    apply String.eqb_eq in E. congruence.
  - destruct (String.eqb k0 k') eqn:E; simpl.
    + apply String.eqb_eq in E. subst k0.
      destruct (String.eqb k' k) eqn:E'; [|done].
      apply String.eqb_eq in E'. congruence.
    + by rewrite IH.
Qed.

Lemma mapSet_not_nil {V : Type} (k : string) (v : V) (m : list (string * V)) :
  mapSet k v m <> [].
Proof. destruct m as [|[k' v'] m]; simpl; [done|]. by destruct (String.eqb k' k). Qed.

(** ** Prefixes *)

Lemma HasPrefix_append (pre rest : string) : strings.HasPrefix (pre +:+ rest) pre = true.
Proof.
  induction pre as [|a pre IH]; simpl; [by destruct rest|].
  by rewrite Ascii.eqb_refl, IH.
Qed.

Lemma HasPrefix_split (k pre : string) :
  strings.HasPrefix k pre = true -> k = pre +:+ strings.drop (String.length pre) k.
Proof.
  revert k. induction pre as [|a pre IH]; intros k Hk; simpl in *; [done|].
  destruct k as [|b k]; [done|].
  apply andb_prop in Hk as [Hab Hk]. apply Ascii.eqb_eq in Hab. subst b.
  change (String a k = String a (pre +:+ strings.drop (String.length pre) k)).
  f_equal. by apply IH.
Qed.

Lemma TrimPrefix_append (pre rest : string) : strings.TrimPrefix (pre +:+ rest) pre = rest.
Proof.
  unfold strings.TrimPrefix. rewrite HasPrefix_append.
  induction pre as [|a pre IH]; simpl; [by destruct rest|done].
Qed.

(** A key with the prefix [formData|] has none of the prefixes tested
    before it, and is not [body]. *)
Lemma formData_key (k : string) :
  strings.HasPrefix k "formData|" = true ->
  strings.HasPrefix k "openapi|" = false /\ String.eqb k "body" = false
  /\ strings.HasPrefix k "query|" = false /\ strings.HasPrefix k "path|" = false
  /\ strings.HasPrefix k "header|" = false.
Proof.
  intros Hk. apply HasPrefix_split in Hk. rewrite Hk. by cbn.
Qed.

(** ** [getArgs] *)

Lemma getArgsStep_cases (arg : Args) (k : string) (v : any) :
  (exists arg', getArgsStep arg k v = Ok arg')
  \/ getArgsStep arg k v = Panic "interface conversion: interface {} is not string".
Proof.
  unfold getArgsStep.
  repeat match goal with
         | |- context [if ?b then _ else _] => destruct b
         end; try (left; eexists; reflexivity);
    destruct v; simpl; try (left; eexists; reflexivity); by right.
Qed.

Lemma getArgsStep_openapi_not_string (arg : Args) (k : string) (v : any) :
  strings.HasPrefix k "openapi|" = true -> isString v = false ->
  getArgsStep arg k v = Panic "interface conversion: interface {} is not string".
Proof.
  intros Hk Hv. unfold getArgsStep. rewrite Hk.
  repeat match goal with
         | |- context [if ?b then _ else _] => destruct b
         end; by destruct v.
Qed.

Lemma getArgsStep_unrecognized (arg : Args) (k : string) (v : any) :
  recognized k = false -> getArgsStep arg k v = Ok arg.
Proof.
  unfold recognized, getArgsStep. intros Hk.
  repeat (apply orb_false_elim in Hk as [Hk ?]).
  by repeat match goal with H : _ = false |- _ => rewrite H; clear H end.
Qed.

Lemma getArgsStep_total (arg : Args) (k : string) (v : any) :
  (strings.HasPrefix k "openapi|" = true -> isString v = true) ->
  exists arg', getArgsStep arg k v = Ok arg'.
Proof.
  intros Hv. unfold getArgsStep.
  destruct (strings.HasPrefix k "openapi|").
  - destruct v; try (by discriminate Hv).
    repeat match goal with
           | |- context [if ?b then _ else _] => destruct b
           end; eexists; reflexivity.
  - repeat match goal with
           | |- context [if ?b then _ else _] => destruct b
           end; eexists; reflexivity.
Qed.

Lemma getArgsFrom_app (arg : Args) (bag1 bag2 : Bag) :
  getArgsFrom arg (bag1 ++ bag2)
  = obind (getArgsFrom arg bag1) (fun arg' => getArgsFrom arg' bag2).
Proof.
  revert arg. induction bag1 as [|[k v] bag1 IH]; intros arg; simpl; [done|].
  destruct (getArgsStep arg k v); simpl; auto.
Qed.

Lemma getArgsFrom_cases (arg : Args) (bag : Bag) :
  (exists arg', getArgsFrom arg bag = Ok arg')
  \/ getArgsFrom arg bag = Panic "interface conversion: interface {} is not string".
Proof.
  revert arg. induction bag as [|[k v] bag IH]; intros arg; simpl.
  - left. by eexists.
  - destruct (getArgsStep_cases arg k v) as [[arg' ->] | ->]; simpl; auto.
Qed.

Lemma getArgsFrom_panics (arg : Args) (bag : Bag) (k : string) (v : any) :
  In (k, v) bag -> strings.HasPrefix k "openapi|" = true -> isString v = false ->
  getArgsFrom arg bag = Panic "interface conversion: interface {} is not string".
Proof.
  revert arg. induction bag as [|[k' v'] bag IH]; intros arg Hin Hk Hv; [done|].
  simpl. destruct Hin as [Heq | Hin].
  - inversion Heq; subst. by rewrite getArgsStep_openapi_not_string.
  - destruct (getArgsStep_cases arg k' v') as [[arg' ->] | ->]; simpl; auto.
Qed.

Lemma getArgsFrom_total (arg : Args) (bag : Bag) :
  (forall k v, In (k, v) bag -> strings.HasPrefix k "openapi|" = true -> isString v = true) ->
  exists arg', getArgsFrom arg bag = Ok arg'.
Proof.
  revert arg. induction bag as [|[k v] bag IH]; intros arg Hbag; simpl.
  - by eexists.
  - destruct (getArgsStep_total arg k v) as [arg' ->].
    + intros Hk. apply (Hbag k v); [by left | done].
    + simpl. apply IH. intros k' v' Hin. apply Hbag. by right.
Qed.

(** ** The request the handler builds *)

Section InvokeFacts.

Context {L : GoLib}.

Lemma Header_Values_Set_eq (key value : string) (h : Values) :
  Header_Values key (Header_Set key value h) = [value].
Proof. unfold Header_Values, Header_Set. by rewrite mapGet_mapSet_eq. Qed.

Lemma Header_Values_Set_ne (key key' value : string) (h : Values) :
  CanonicalMIMEHeaderKey key <> CanonicalMIMEHeaderKey key' ->
  Header_Values key (Header_Set key' value h) = Header_Values key h.
Proof. intros Hne. unfold Header_Values, Header_Set. by rewrite mapGet_mapSet_ne. Qed.

Lemma canonical_distinct :
  CanonicalMIMEHeaderKey "Authorization" <> CanonicalMIMEHeaderKey "Content-Type".
Proof. by rewrite canonical_Authorization, canonical_ContentType. Qed.

(** What a request that was built is made of. *)
Lemma buildRequest_Ok (server : option Server) (path method : string) (bag : Bag)
  (req : Request) :
  buildRequest server path method bag = Ok req ->
  exists arg fullURL parsedURL,
    getArgs bag = Ok arg
    /\ url_JoinPath (serverURL server arg) (finalPath path arg) = Some fullURL
    /\ url_Parse fullURL = Some parsedURL
    /\ Method req = strings.ToUpper method
    /\ RequestURL req = URL_String (withQuery parsedURL arg)
    /\ (if (0 <? length (Forms arg))%nat
        then exists data,
            formData (Forms arg) [] = Ok data
            /\ Header req = Header_Set "Content-Type" "application/x-www-form-urlencoded"
                              (applyAuth (authentication arg) (contentHeader arg))
            /\ Body req = Some (Values_Encode data)
        else Header req = applyAuth (authentication arg) (contentHeader arg)
             /\ Body req = (if negb (isNil (ArgBody arg))
                            then json_Marshal (ArgBody arg) else None)).
Proof.
  unfold buildRequest. intros Hreq.
  destruct (getArgs bag) as [arg| | |] eqn:Harg; simpl in Hreq; try done.
  destruct (url_JoinPath _ _) as [fullURL|] eqn:Hjoin; [|done].
  destruct (url_Parse fullURL) as [parsedURL|] eqn:Hparse; [|done].
  exists arg, fullURL, parsedURL. split_and!; try done.
  all: unfold contentHeader.
  all: destruct (negb (isNil (ArgBody arg))) eqn:Hbody;
    [destruct (json_Marshal (ArgBody arg)) as [bodyBytes|] eqn:Hm; [|done]|];
    simpl in Hreq;
    (destruct (negb (http_validRequest _ _)); [done|]);
    destruct (0 <? length (Forms arg))%nat eqn:Hforms; simpl in Hreq;
    try (destruct (formData (Forms arg) []) as [data| | |] eqn:Hdata; simpl in Hreq; try done);
    inversion Hreq; subst; simpl; rewrite ?Hforms; eauto.
Qed.

(** [getArgs] never returns an error, and never fails to return. *)
Lemma buildRequest_panics (server : option Server) (path method : string) (bag : Bag)
  (msg : string) :
  getArgs bag = Panic msg -> buildRequest server path method bag = Panic msg.
Proof. intros Hp. unfold buildRequest. by rewrite Hp. Qed.

End InvokeFacts.

(** ** Argument-bag demultiplexing *)

(** C10. [getArgs] returns exactly on the bags whose [openapi|] entries all
    carry strings; on any other bag the type assertion panics and the
    handler is unwound by the same panic, returning no result and no error;
    an entry whose key has none of the recognized prefixes changes
    nothing. *)
Theorem getArgs_total_only_on_string_openapi :
  (forall bag : Bag,
      (forall k v, In (k, v) bag -> strings.HasPrefix k "openapi|" = true -> isString v = true)
      <-> (exists arg, getArgs bag = Ok arg))
  /\ (forall (L : GoLib) (bag : Bag) k v server path method operation,
         In (k, v) bag -> strings.HasPrefix k "openapi|" = true -> isString v = false ->
         exists msg,
           getArgs bag = Panic msg
           /\ newHandler server path method operation bag = Panic msg)
  /\ (forall (bag1 bag2 : Bag) k v,
         recognized k = false ->
         getArgs (bag1 ++ (k, v) :: bag2) = getArgs (bag1 ++ bag2)).
Proof.
  split_and!.
  - intros bag. split.
    + apply getArgsFrom_total.
    + intros [arg Harg] k v Hin Hk.
      destruct (isString v) eqn:Hv; [done|].
      unfold getArgs in Harg.
      by rewrite (getArgsFrom_panics _ _ k v Hin Hk Hv) in Harg.
  - intros L bag k v server path method operation Hin Hk Hv.
    eexists. split.
    + apply (getArgsFrom_panics _ _ k v Hin Hk Hv).
    + unfold newHandler.
      rewrite (buildRequest_panics _ _ _ _ _ (getArgsFrom_panics _ _ k v Hin Hk Hv)).
      done.
  - intros bag1 bag2 k v Hk. unfold getArgs.
    rewrite !getArgsFrom_app.
    destruct (getArgsFrom emptyArgs bag1) as [arg| | |]; simpl; try done.
    by rewrite getArgsStep_unrecognized.
Qed.

Lemma getArgs_total_only_on_string_openapi_witness :
  exists msg,
    getArgs [("query|limit", Float64 10); ("openapi|auth_token", Bool true)] = Panic msg
    /\ newHandler (L := Sample.lib) (Some Sample.apiServer) "/pets" "get" Sample.bare
         [("query|limit", Float64 10); ("openapi|auth_token", Bool true)] = Panic msg.
Proof.
  apply (proj1 (proj2 getArgs_total_only_on_string_openapi) Sample.lib
           [("query|limit", Float64 10); ("openapi|auth_token", Bool true)]
           "openapi|auth_token" (Bool true)).
  - right. by left.
  - reflexivity.
  - reflexivity.
Defined.

(** ** The result text *)

(** C8. When the HTTP call completes with status code [c] and body [b], the
    handler returns the text "status code: c", a newline, and
    "response body: b". *)
Theorem result_text_format {L : GoLib} (server : option Server) (path method : string)
  (operation : Operation.t) (bag : Bag) (req : Request) (c : Z) (b : string) :
  buildRequest server path method bag = Ok req ->
  http_Do req = Some {| StatusCode := c; ResponseBody := Some b |} ->
  newHandler server path method operation bag
  = Ok (NewToolResultText
          ("status code: " +:+ decimal c +:+ String "010" ("response body: " +:+ b))).
Proof.
  intros Hreq Hdo. unfold newHandler. rewrite Hreq. simpl. by rewrite Hdo.
Qed.

Lemma result_text_format_witness :
  newHandler (L := Sample.lib) (Some Sample.apiServer) "/pets/{id}" "get" Sample.getPet
    [("path|id", Str "42")]
  = Ok (NewToolResultText
          ("status code: " +:+ "200" +:+ String "010" ("response body: " +:+ "ok"))).
Proof.
  apply (result_text_format (L := Sample.lib) (Some Sample.apiServer) "/pets/{id}" "get" Sample.getPet
           [("path|id", Str "42")]
           {| Method := "GET"; RequestURL := "https://api.example.com/pets/42";
              Header := []; Body := None |} 200 "ok"); reflexivity.
Defined.

(** ** Authentication *)

(** C3, as the specification states it, fails: with a user name, a password
    and an OAuth2 token in the bag, the OAuth2 bearer token is non-empty and
    yet basic authentication is what the handler applies. *)
Lemma basic_auth_applied_despite_oauth2_token :
  exists arg,
    getArgs Sample.basicAndOAuth2 = Ok arg
    /\ AuthOAuth2Token arg = "tok"
    /\ authentication arg = Some (Basic "user" "pass")
    /\ buildRequest (L := Sample.lib) None "/pets" "get" Sample.basicAndOAuth2
       = Ok {| Method := "GET"; RequestURL := "pets";
               Header := [("Authorization", ["Basic dXNlcjpwYXNz"])];
               Body := None |}.
Proof. eexists. split_and!; reflexivity. Qed.

(** The choice of the if-chain, case by case. *)
Lemma authentication_cases (arg : Args) :
  (AuthToken arg <> "" -> authentication arg = Some (Bearer (AuthToken arg)))
  /\ (AuthToken arg = "" -> AuthUsername arg <> "" -> AuthPassword arg <> "" ->
      authentication arg = Some (Basic (AuthUsername arg) (AuthPassword arg)))
  /\ (AuthToken arg = "" -> AuthUsername arg = "" \/ AuthPassword arg = "" ->
      AuthOAuth2Token arg <> "" ->
      authentication arg = Some (Bearer (AuthOAuth2Token arg)))
  /\ (AuthToken arg = "" -> AuthUsername arg = "" \/ AuthPassword arg = "" ->
      AuthOAuth2Token arg = "" -> authentication arg = None).
Proof.
  unfold authentication, nonEmpty.
  destruct (String.eqb_spec (AuthToken arg) "") as [Ht|Ht];
    destruct (String.eqb_spec (AuthUsername arg) "") as [Hu|Hu];
    destruct (String.eqb_spec (AuthPassword arg) "") as [Hp|Hp];
    destruct (String.eqb_spec (AuthOAuth2Token arg) "") as [Ho|Ho];
    simpl; split_and!; intros; try done; intuition congruence.
Qed.

(** The [Authorization] header of a request that was built. *)
Lemma buildRequest_Authorization {L : GoLib} (server : option Server) (path method : string)
  (bag : Bag) (req : Request) :
  buildRequest server path method bag = Ok req ->
  exists arg,
    getArgs bag = Ok arg
    /\ match authentication arg with
       | Some auth => Header_Values "Authorization" (Header req) = [authValue auth]
       | None =>
           Header_Values "Authorization" (Header req)
           = Header_Values "Authorization" (contentHeader arg)
       end.
Proof.
  intros Hreq.
  apply buildRequest_Ok in Hreq as (arg & fullURL & parsedURL & Harg & _ & _ & _ & _ & Hrest).
  exists arg. split; [done|].
  assert (Hhdr : Header_Values "Authorization" (Header req)
                 = Header_Values "Authorization"
                     (applyAuth (authentication arg) (contentHeader arg))).
  { destruct (0 <? length (Forms arg))%nat.
    - destruct Hrest as (data & _ & -> & _).
      apply Header_Values_Set_ne, canonical_distinct.
    - by destruct Hrest as [-> _]. }
  rewrite Hhdr. destruct (authentication arg) as [auth|]; simpl; [|done].
  apply Header_Values_Set_eq.
Qed.

(** C3, amended. At most one authentication is applied to the request, in
    the order: [openapi|auth_token]; else basic authentication when user
    name and password are both non-empty; else [openapi|auth_oauth2_token].
    A request that carries an authentication has exactly one
    [Authorization] value, the one of the authentication chosen. *)
Theorem authentication_precedence :
  (forall arg : Args,
      (AuthToken arg <> "" -> authentication arg = Some (Bearer (AuthToken arg)))
      /\ (AuthToken arg = "" -> AuthUsername arg <> "" -> AuthPassword arg <> "" ->
          authentication arg = Some (Basic (AuthUsername arg) (AuthPassword arg)))
      /\ (AuthToken arg = "" -> AuthUsername arg = "" \/ AuthPassword arg = "" ->
          AuthOAuth2Token arg <> "" ->
          authentication arg = Some (Bearer (AuthOAuth2Token arg)))
      /\ (AuthToken arg = "" -> AuthUsername arg = "" \/ AuthPassword arg = "" ->
          AuthOAuth2Token arg = "" -> authentication arg = None))
  /\ (forall (L : GoLib) server path method (bag : Bag) (req : Request),
         buildRequest server path method bag = Ok req ->
         exists arg,
           getArgs bag = Ok arg
           /\ match authentication arg with
              | Some auth => Header_Values "Authorization" (Header req) = [authValue auth]
              | None =>
                  Header_Values "Authorization" (Header req)
                  = Header_Values "Authorization" (contentHeader arg)
              end).
Proof.
  split.
  - apply authentication_cases.
  - intros L. apply buildRequest_Authorization.
Qed.

Lemma authentication_precedence_witness :
  authentication
    {| ServerAddr := ""; AuthToken := ""; AuthUsername := "user"; AuthPassword := "pass";
       AuthOAuth2Token := "tok"; Headers := []; ArgBody := Nil; Query := []; Path := [];
       Forms := [] |}
  = Some (Basic "user" "pass").
Proof.
  apply (proj1 (proj2 (proj1 authentication_precedence
           {| ServerAddr := ""; AuthToken := ""; AuthUsername := "user";
              AuthPassword := "pass"; AuthOAuth2Token := "tok"; Headers := [];
              ArgBody := Nil; Query := []; Path := []; Forms := [] |})));
    [reflexivity | discriminate | discriminate].
Defined.

(** ** Where the value of an argument goes *)

Lemma getArgsStep_unnamed (arg : Args) (subkey v : string) :
  ~ In subkey namedSubkeys ->
  getArgsStep arg ("openapi|" +:+ subkey) (Str v) = Ok (setAuthToken v arg).
Proof.
  intros Hsub. unfold getArgsStep.
  rewrite HasPrefix_append, TrimPrefix_append.
  unfold namedSubkeys in Hsub. simpl in Hsub.
  repeat match goal with
         | |- context [String.eqb subkey ?s] =>
             destruct (String.eqb_spec subkey s); [exfalso; apply Hsub; subst; tauto|]
         end.
  done.
Qed.

Lemma getArgsStep_AuthToken (arg arg' : Args) (k : string) (v : any) :
  getArgsStep arg k v = Ok arg' -> writesAuthToken k = false ->
  AuthToken arg' = AuthToken arg.
Proof.
  unfold getArgsStep, writesAuthToken. intros Hstep Hk.
  destruct (strings.HasPrefix k "openapi|"); simpl in Hk.
  - apply negb_false_iff in Hk.
    remember (strings.TrimPrefix k "openapi|") as subkey eqn:Hsub. clear Hsub.
    revert Hstep Hk.
    repeat match goal with
           | |- context [String.eqb subkey ?b] =>
               destruct (String.eqb_spec subkey b) as [->|?]
           end; simpl; intros Hstep Hk; try discriminate Hk;
      destruct v; simpl in Hstep; inversion Hstep; done.
  - repeat match type of Hstep with
           | context [if ?b then _ else _] => destruct b
           end; inversion Hstep; done.
Qed.

Lemma getArgsFrom_AuthToken (arg arg' : Args) (bag : Bag) :
  getArgsFrom arg bag = Ok arg' ->
  (forall k v, In (k, v) bag -> writesAuthToken k = false) ->
  AuthToken arg' = AuthToken arg.
Proof.
  revert arg. induction bag as [|[k v] bag IH]; intros arg Hrun Hbag; simpl in Hrun.
  - by inversion Hrun.
  - destruct (getArgsStep arg k v) as [arg1| | |] eqn:Hstep; simpl in Hrun; try done.
    rewrite (IH arg1 Hrun); [|intros k' v' Hin; apply (Hbag k' v'); by right].
    apply (getArgsStep_AuthToken _ _ k v Hstep). apply (Hbag k v). by left.
Qed.

(** The value of an entry that runs into the default case is the bearer
    token, unless a later entry of the loop overwrites it. *)
Lemma getArgs_unnamed_AuthToken (bag1 bag2 : Bag) (subkey v : string) (arg : Args) :
  ~ In subkey namedSubkeys ->
  (forall k' v', In (k', v') bag2 -> writesAuthToken k' = false) ->
  getArgs (bag1 ++ ("openapi|" +:+ subkey, Str v) :: bag2) = Ok arg ->
  AuthToken arg = v.
Proof.
  intros Hsub Hbag2. unfold getArgs. rewrite getArgsFrom_app.
  destruct (getArgsFrom emptyArgs bag1) as [arg1| | |]; simpl; try done.
  rewrite (getArgsStep_unnamed _ _ _ Hsub). simpl. intros Hrun.
  by rewrite (getArgsFrom_AuthToken _ _ _ Hrun Hbag2).
Qed.

(** C9, as stated, fails for an API key scheme that is called [username]:
    its argument is [openapi|auth_username], one of the named sub-keys; the
    credential goes to the user-name slot and the request carries no
    [Authorization] header at all. *)
Lemma apiKey_scheme_named_username_is_not_bearer :
  map optionName (securityOptions "username" [] Sample.apiKeyScheme)
  = ["openapi|auth_username"]
  /\ getArgs [("openapi|auth_username", Str "secret")]
     = Ok (setAuthUsername "secret" emptyArgs)
  /\ authentication (setAuthUsername "secret" emptyArgs) = None
  /\ buildRequest (L := Sample.lib) None "/pets" "get"
       [("openapi|auth_username", Str "secret")]
     = Ok {| Method := "GET"; RequestURL := "pets"; Header := []; Body := None |}.
Proof. split_and!; reflexivity. Qed.

(** C9, amended. A string under a key [openapi|subkey] with [subkey] none of
    the five named sub-keys is stored in the bearer-token slot and nowhere
    else. The argument of an API key scheme is [openapi|auth_] followed by
    the scheme name, which is such a key unless the scheme is called
    [token], [username], [password] or [oauth2_token]. When no later entry
    overwrites the slot and the value is not empty, the request carries it
    as [Authorization: Bearer] and as nothing else. *)
Theorem unnamed_openapi_key_is_bearer_token :
  (forall (arg : Args) (subkey v : string),
      ~ In subkey namedSubkeys ->
      getArgsStep arg ("openapi|" +:+ subkey) (Str v) = Ok (setAuthToken v arg))
  /\ (forall (schemeName : string) (scopes : list string) (scheme : SecurityScheme),
         SecurityScheme_Type scheme = "apiKey" ->
         map optionName (securityOptions schemeName scopes scheme)
         = ["openapi|auth_" +:+ schemeName]
         /\ (~ In schemeName ["token"; "username"; "password"; "oauth2_token"] ->
             ~ In ("auth_" +:+ schemeName) namedSubkeys))
  /\ (forall (L : GoLib) (bag1 bag2 : Bag) (subkey v : string) server path method
        (req : Request),
         ~ In subkey namedSubkeys ->
         v <> "" ->
         (forall k' v', In (k', v') bag2 -> writesAuthToken k' = false) ->
         buildRequest server path method (bag1 ++ ("openapi|" +:+ subkey, Str v) :: bag2)
         = Ok req ->
         exists arg,
           getArgs (bag1 ++ ("openapi|" +:+ subkey, Str v) :: bag2) = Ok arg
           /\ AuthToken arg = v
           /\ authentication arg = Some (Bearer v)
           /\ Header_Values "Authorization" (Header req) = ["Bearer " +:+ v]).
Proof.
  split_and!.
  - apply getArgsStep_unnamed.
  - intros schemeName scopes scheme Htype. split.
    + unfold securityOptions. rewrite Htype. reflexivity.
    + simpl. intros Hname Hin. apply Hname.
      destruct Hin as [Hin|[Hin|[Hin|[Hin|[Hin|[]]]]]]; inversion Hin; tauto.
  - intros L bag1 bag2 subkey v server path method req Hsub Hv Hbag2 Hreq.
    destruct (buildRequest_Authorization _ _ _ _ _ Hreq) as (arg & Harg & Hauth).
    exists arg.
    assert (Htoken : AuthToken arg = v)
      by exact (getArgs_unnamed_AuthToken _ _ _ _ _ Hsub Hbag2 Harg).
    assert (Hbearer : authentication arg = Some (Bearer v)).
    { destruct (authentication_cases arg) as [Hfirst _]. rewrite Hfirst; congruence. }
    rewrite Hbearer in Hauth. done.
Qed.

Lemma unnamed_openapi_key_is_bearer_token_witness :
  exists arg,
    getArgs ([] ++ ("openapi|" +:+ "auth_petKey", Str "secret") :: []) = Ok arg
    /\ AuthToken arg = "secret"
    /\ authentication arg = Some (Bearer "secret")
    /\ Header_Values (L := Sample.lib) "Authorization"
         [("Authorization", ["Bearer secret"])] = ["Bearer " +:+ "secret"].
Proof.
  apply (proj2 (proj2 unnamed_openapi_key_is_bearer_token) Sample.lib [] []
           "auth_petKey" "secret" None "/pets" "get"
           {| Method := "GET"; RequestURL := "pets";
              Header := [("Authorization", ["Bearer secret"])]; Body := None |}).
  - simpl. intros Hin. decompose [or] Hin; done.
  - done.
  - intros k' v' [].
  - reflexivity.
Defined.

(** ** The body and the form fields *)

Lemma getArgsStep_Body (arg arg' : Args) (k : string) (v : any) :
  getArgsStep arg k v = Ok arg' ->
  ArgBody arg' = if String.eqb k "body" then v else ArgBody arg.
Proof.
  unfold getArgsStep. intros Hstep.
  destruct (String.eqb_spec k "body") as [->|Hne].
  - simpl in Hstep. by inversion Hstep.
  - repeat match type of Hstep with
           | context [if ?b then _ else _] => destruct b
           end; try (destruct v; simpl in Hstep); inversion Hstep; done.
Qed.

Lemma getArgsFrom_Body_absent (arg arg' : Args) (bag : Bag) :
  getArgsFrom arg bag = Ok arg' -> ~ In "body" (map fst bag) ->
  ArgBody arg' = ArgBody arg.
Proof.
  revert arg. induction bag as [|[k v] bag IH]; intros arg Hrun Hbag; simpl in *.
  - by inversion Hrun.
  - destruct (getArgsStep arg k v) as [arg1| | |] eqn:Hstep; simpl in Hrun; try done.
    rewrite (IH arg1 Hrun); [|tauto].
    rewrite (getArgsStep_Body _ _ _ _ Hstep).
    destruct (String.eqb_spec k "body"); [|done]. subst. tauto.
Qed.

(** The body of the arguments is the value the bag binds to [body]. *)
Lemma getArgsFrom_Body (arg arg' : Args) (bag : Bag) (body : any) :
  getArgsFrom arg bag = Ok arg' -> NoDup (map fst bag) -> In ("body", body) bag ->
  ArgBody arg' = body.
Proof.
  revert arg. induction bag as [|[k v] bag IH]; intros arg Hrun Hnd Hin; [done|].
  simpl in Hrun, Hnd. apply NoDup_cons in Hnd as [Hk Hnd].
  destruct (getArgsStep arg k v) as [arg1| | |] eqn:Hstep; simpl in Hrun; try done.
  destruct Hin as [Heq|Hin].
  - inversion Heq; subst.
    rewrite (getArgsFrom_Body_absent _ _ _ Hrun); [|by rewrite <- list_elem_of_In].
    by rewrite (getArgsStep_Body _ _ _ _ Hstep).
  - by apply (IH arg1).
Qed.

Lemma getArgsStep_Forms (arg arg' : Args) (k : string) (v : any) :
  getArgsStep arg k v = Ok arg' ->
  Forms arg' = if strings.HasPrefix k "formData|"
               then mapSet (strings.TrimPrefix k "formData|") v (Forms arg)
               else Forms arg.
Proof.
  unfold getArgsStep. intros Hstep.
  destruct (strings.HasPrefix k "formData|") eqn:Hk.
  - destruct (formData_key k Hk) as (-> & -> & -> & -> & ->) in Hstep.
    by inversion Hstep.
  - repeat match type of Hstep with
           | context [if ?b then _ else _] => destruct b
           end; try (destruct v; simpl in Hstep); inversion Hstep; done.
Qed.

(** There are form fields exactly when the bag has a [formData|] entry. *)
Lemma getArgsFrom_Forms_nil (arg arg' : Args) (bag : Bag) :
  getArgsFrom arg bag = Ok arg' ->
  (Forms arg' = [] <->
   Forms arg = [] /\ forall k v, In (k, v) bag -> strings.HasPrefix k "formData|" = false).
Proof.
  revert arg. induction bag as [|[k v] bag IH]; intros arg Hrun; simpl in Hrun.
  - inversion Hrun; subst. split; [intros Hnil; split; [done|intros k v []] | by intros [Hnil _]].
  - destruct (getArgsStep arg k v) as [arg1| | |] eqn:Hstep; simpl in Hrun; try done.
    rewrite (IH arg1 Hrun), (getArgsStep_Forms _ _ _ _ Hstep).
    destruct (strings.HasPrefix k "formData|") eqn:Hk.
    + split.
      * intros [Hnil _]. by apply mapSet_not_nil in Hnil.
      * intros [_ Hall]. specialize (Hall k v (or_introl eq_refl)). congruence.
    + split.
      * intros [Hnil Hall]. split; [done|]. intros k' v' [Heq|Hin]; [congruence|eauto].
      * intros [Hnil Hall]. split; [done|]. intros k' v' Hin. apply (Hall k' v'). by right.
Qed.

Lemma length_pos_not_nil {A : Type} (l : list A) : (0 <? length l)%nat = negb (bool_decide (l = [])).
Proof. by destruct l. Qed.

(** C7 fails as stated: a bag that binds [body] to JSON null has a body
    argument, yet the request has no payload and no content type. *)
Lemma null_body_is_no_body :
  In ("body", Nil) [("body", Nil)]
  /\ buildRequest (L := Sample.lib) (Some Sample.apiServer) "/pets" "post" [("body", Nil)]
     = Ok {| Method := "POST"; RequestURL := "https://api.example.com/pets";
             Header := []; Body := None |}.
Proof. split; [by left | reflexivity]. Qed.

Section PayloadFacts.

Context {L : GoLib}.

(** C7, amended. When the bag binds [body] to a value that is not null and
    the library calls on the way succeed, the handler builds a request
    whose payload is the JSON of the body with the single content type
    [application/json]; unless the bag has a [formData|] entry, in which
    case the payload is the encoding of the form fields with the single
    content type [application/x-www-form-urlencoded]. A form field whose
    value is an object enters the form as its JSON. *)
Theorem body_and_form_payload (server : option Server) (path method : string)
  (bag : Bag) (body : any) (arg : Args) (fullURL : string) (parsedURL : url_URL)
  (bodyBytes : string) :
  NoDup (map fst bag) ->
  In ("body", body) bag ->
  body <> Nil ->
  getArgs bag = Ok arg ->
  url_JoinPath (serverURL server arg) (finalPath path arg) = Some fullURL ->
  url_Parse fullURL = Some parsedURL ->
  http_validRequest (strings.ToUpper method) (URL_String (withQuery parsedURL arg)) = true ->
  json_Marshal body = Some bodyBytes ->
  ((forall k v, In (k, v) bag -> strings.HasPrefix k "formData|" = false) ->
   exists req,
     buildRequest server path method bag = Ok req
     /\ Body req = Some bodyBytes
     /\ Header_Values "Content-Type" (Header req) = ["application/json"])
  /\ (forall k v data,
         In (k, v) bag -> strings.HasPrefix k "formData|" = true ->
         formData (Forms arg) [] = Ok data ->
         exists req,
           buildRequest server path method bag = Ok req
           /\ Body req = Some (Values_Encode data)
           /\ Header_Values "Content-Type" (Header req)
              = ["application/x-www-form-urlencoded"])
  /\ (forall key m rest data jsonStr,
         json_Marshal (Map m) = Some jsonStr ->
         formData ((key, Map m) :: rest) data = formData rest (Values_Add key jsonStr data)).
Proof.
  intros Hnd Hin Hbody Harg Hjoin Hparse Hvalid Hmarshal.
  assert (HargBody : ArgBody arg = body) by exact (getArgsFrom_Body _ _ _ _ Harg Hnd Hin).
  assert (HnotNil : negb (isNil (ArgBody arg)) = true).
  { rewrite HargBody. by destruct body. }
  pose proof (getArgsFrom_Forms_nil _ _ _ Harg) as Hforms.
  split_and!.
  - intros Hnone.
    assert (Hnil : Forms arg = []) by (apply Hforms; by split).
    eexists. unfold buildRequest.
    rewrite Harg; simpl. rewrite Hjoin, Hparse, HnotNil, HargBody, Hmarshal; simpl.
    rewrite Hvalid, Hnil; simpl. split_and!; [reflexivity|reflexivity|].
    destruct (authentication arg) as [auth|]; simpl.
    + rewrite Header_Values_Set_ne by (intros Heq; by apply canonical_distinct).
      apply Header_Values_Set_eq.
    + apply Header_Values_Set_eq.
  - intros k v data Hk Hform Hdata.
    assert (Hcons : (0 <? length (Forms arg))%nat = true).
    { rewrite length_pos_not_nil. apply negb_true_iff, bool_decide_eq_false.
      intros Hnil. apply Hforms in Hnil as [_ Hall]. rewrite (Hall k v Hk) in Hform. done. }
    eexists. unfold buildRequest.
    rewrite Harg; simpl. rewrite Hjoin, Hparse, HnotNil, HargBody, Hmarshal; simpl.
    rewrite Hvalid, Hcons; simpl. rewrite Hdata; simpl.
    split_and!; [reflexivity|reflexivity|]. apply Header_Values_Set_eq.
  - intros key m rest data jsonStr Hjson. simpl. by rewrite Hjson.
Qed.

End PayloadFacts.

Lemma body_and_form_payload_witness :
  (exists req,
      buildRequest (L := Sample.lib) (Some Sample.apiServer) "/pets" "post"
        [("body", Map [("name", Str "a")])] = Ok req
      /\ Body req = Some (Sample.marshal (Map [("name", Str "a")]))
      /\ Header_Values (L := Sample.lib) "Content-Type" (Header req) = ["application/json"]).
Proof.
  refine (proj1 (body_and_form_payload (L := Sample.lib) (Some Sample.apiServer) "/pets" "post"
            [("body", Map [("name", Str "a")])] (Map [("name", Str "a")])
            {| ServerAddr := ""; AuthToken := ""; AuthUsername := ""; AuthPassword := "";
               AuthOAuth2Token := ""; Headers := []; ArgBody := Map [("name", Str "a")];
               Query := []; Path := []; Forms := [] |}
            "https://api.example.com/pets" ("https://api.example.com/pets", "")
            (Sample.marshal (Map [("name", Str "a")]))
            _ _ _ _ _ _ _ _) _).
  - repeat constructor. intros Hin. inversion Hin.
  - by left.
  - discriminate.
  - reflexivity.
  - reflexivity.
  - reflexivity.
  - reflexivity.
  - reflexivity.
  - intros k v [Heq|[]]. by inversion Heq.
Defined.

(** ** The target server *)

Lemma TrimPrefix_drop (k pre : string) :
  strings.HasPrefix k pre = true ->
  k = pre +:+ strings.TrimPrefix k pre.
Proof.
  intros Hk. unfold strings.TrimPrefix. rewrite Hk. by apply HasPrefix_split.
Qed.

Lemma getArgsStep_ServerAddr (arg arg' : Args) (k : string) (v : any) :
  getArgsStep arg k v = Ok arg' ->
  ServerAddr arg' = if String.eqb k "openapi|server_addr"
                    then match v with Str s => s | _ => ServerAddr arg end
                    else ServerAddr arg.
Proof.
  unfold getArgsStep. intros Hstep.
  destruct (String.eqb_spec k "openapi|server_addr") as [->|Hne].
  - simpl in Hstep. destruct v; simpl in Hstep; inversion Hstep; done.
  - destruct (strings.HasPrefix k "openapi|") eqn:Hk.
    + apply TrimPrefix_drop in Hk.
      destruct (String.eqb_spec (strings.TrimPrefix k "openapi|") "server_addr") as [Heq|_].
      { rewrite Heq in Hk. done. }
      repeat match type of Hstep with
             | context [if ?b then _ else _] => destruct b
             end; destruct v; simpl in Hstep; inversion Hstep; done.
    + repeat match type of Hstep with
             | context [if ?b then _ else _] => destruct b
             end; inversion Hstep; done.
Qed.

Lemma getArgsFrom_ServerAddr_absent (arg arg' : Args) (bag : Bag) :
  getArgsFrom arg bag = Ok arg' -> ~ In "openapi|server_addr" (map fst bag) ->
  ServerAddr arg' = ServerAddr arg.
Proof.
  revert arg. induction bag as [|[k v] bag IH]; intros arg Hrun Hbag; simpl in *.
  - by inversion Hrun.
  - destruct (getArgsStep arg k v) as [arg1| | |] eqn:Hstep; simpl in Hrun; try done.
    rewrite (IH arg1 Hrun); [|tauto].
    rewrite (getArgsStep_ServerAddr _ _ _ _ Hstep).
    destruct (String.eqb_spec k "openapi|server_addr"); [|done]. subst. tauto.
Qed.

Lemma getArgsFrom_ServerAddr (arg arg' : Args) (bag : Bag) (s : string) :
  getArgsFrom arg bag = Ok arg' -> NoDup (map fst bag) ->
  In ("openapi|server_addr", Str s) bag ->
  ServerAddr arg' = s.
Proof.
  revert arg. induction bag as [|[k v] bag IH]; intros arg Hrun Hnd Hin; [done|].
  simpl in Hrun, Hnd. apply NoDup_cons in Hnd as [Hk Hnd].
  destruct (getArgsStep arg k v) as [arg1| | |] eqn:Hstep; simpl in Hrun; try done.
  destruct Hin as [Heq|Hin].
  - inversion Heq; subst.
    rewrite (getArgsFrom_ServerAddr_absent _ _ _ Hrun); [|by rewrite <- list_elem_of_In].
    by rewrite (getArgsStep_ServerAddr _ _ _ _ Hstep).
  - by apply (IH arg1).
Qed.

Lemma mapSet_In {V : Type} (k : string) (v : V) (m : list (string * V)) (x : string * V) :
  In x (mapSet k v m) -> x = (k, v) \/ In x m.
Proof.
  induction m as [|[k' v'] m IH]; simpl.
  - intros [<-|[]]. by left.
  - destruct (String.eqb k' k); simpl; intros [<-|Hin]; auto.
    destruct (IH Hin); auto.
Qed.

Section ConvertFacts.

Context {L : GoLib}.

Lemma convertOperations_bound (c : Converter) (fuel : nat) (server : option Server)
  (path : string) (operations : list (string * Operation.t)) tools tools' :
  boundTo server tools ->
  convertOperations c fuel server path operations tools = Ok tools' ->
  boundTo server tools'.
Proof.
  revert tools. induction operations as [|[method operation] operations IH];
    intros tools Hb Hrun; simpl in Hrun.
  - by inversion Hrun; subst.
  - destruct (convertOperation c fuel path method operation) as [tool| | |];
      simpl in Hrun; try done.
    refine (IH _ _ Hrun). intros name tool' handler Hin.
    apply mapSet_In in Hin as [Heq|Hin]; [|by eapply Hb].
    inversion Heq; subst. by repeat eexists.
Qed.

Lemma convertPaths_bound (c : Converter) (fuel : nat) (server : option Server)
  (paths : list (string * PathItem)) tools tools' :
  boundTo server tools ->
  convertPaths c fuel server paths tools = Ok tools' ->
  boundTo server tools'.
Proof.
  revert tools. induction paths as [|[path pathItem] paths IH];
    intros tools Hb Hrun; simpl in Hrun.
  - by inversion Hrun; subst.
  - destruct (convertOperations c fuel server path (getOperations pathItem) tools)
      as [tools1| | |] eqn:Hops; simpl in Hrun; try done.
    apply (IH tools1); [|done]. by eapply convertOperations_bound.
Qed.

End ConvertFacts.

(** C5 fails as stated: with no declared server and no server argument the
    handler does not stop with an error of its own. It joins the path to
    the empty server address, builds the request for the URL that comes out
    and calls the HTTP client with it; the call ends with the error of the
    client, as for any request that fails. *)
Lemma no_server_still_builds_a_request :
  boundServer [] = None
  /\ buildRequest (L := Sample.lib) (boundServer []) "/pets" "get" []
     = Ok {| Method := "GET"; RequestURL := "pets"; Header := []; Body := None |}
  /\ newHandler (L := Sample.lib) (boundServer []) "/pets" "get" Sample.bare []
     = Err "request failed".
Proof. split_and!; reflexivity. Qed.

(** C5, amended. Every handler is bound to the single declared server, or
    to none when the document declares zero or several. The server address
    of a call is the [openapi|server_addr] argument when it is a non-empty
    string, else the URL of the bound server, else the empty string. In all
    three cases the handler joins the address and the path, and when the
    library accepts the result it builds the request and hands it to the
    HTTP client: no case ends in an error of the handler's own. *)
Theorem server_resolution :
  (forall (L : GoLib) (c : Converter) (fuel : nat) (srv : MCPServer) name tool handler,
      Convert c fuel = Ok srv ->
      In (name, (tool, handler)) (MCPServer_tools srv) ->
      exists path method operation,
        handler = newHandler (boundServer (GetServers (parser c))) path method operation)
  /\ (forall (servers : list Server) (arg : Args),
         serverURL (boundServer servers) arg
         = if nonEmpty (ServerAddr arg) then ServerAddr arg
           else match servers with
                | [server] => URL server
                | _ => ""
                end)
  /\ (forall (bag : Bag) (arg : Args),
         getArgs bag = Ok arg -> NoDup (map fst bag) ->
         (forall s, In ("openapi|server_addr", Str s) bag -> ServerAddr arg = s)
         /\ (~ In "openapi|server_addr" (map fst bag) -> ServerAddr arg = ""))
  /\ (forall (L : GoLib) server path method (bag : Bag) (arg : Args) fullURL parsedURL,
         getArgs bag = Ok arg ->
         url_JoinPath (serverURL server arg) (finalPath path arg) = Some fullURL ->
         url_Parse fullURL = Some parsedURL ->
         http_validRequest (strings.ToUpper method) (URL_String (withQuery parsedURL arg))
         = true ->
         ArgBody arg = Nil -> Forms arg = [] ->
         buildRequest server path method bag
         = Ok {| Method := strings.ToUpper method;
                 RequestURL := URL_String (withQuery parsedURL arg);
                 Header := applyAuth (authentication arg) (contentHeader arg);
                 Body := None |})
  /\ (forall (L : GoLib) server path method operation (bag : Bag) (req : Request),
         buildRequest server path method bag = Ok req ->
         newHandler server path method operation bag
         = match http_Do req with
           | None => Err "request failed"
           | Some resp =>
               match ResponseBody resp with
               | None => Err "read response error"
               | Some result =>
                   Ok (NewToolResultText (resultText (StatusCode resp) result))
               end
           end).
Proof.
  split_and!.
  - intros L c fuel srv name tool handler Hconv Hin. unfold Convert in Hconv.
    destruct (GetDocument (parser c)); [|done].
    destruct (GetInfo (parser c)); [|done].
    simpl in Hconv.
    match type of Hconv with
    | obind ?m _ = _ => destruct m as [tools| | |] eqn:Hpaths
    end; simpl in Hconv; try done.
    inversion Hconv; subst; simpl in Hin.
    eapply convertPaths_bound in Hpaths; [by eapply Hpaths|].
    intros ? ? ? [].
  - intros servers arg. unfold serverURL, boundServer, nonEmpty.
    destruct servers as [|server [|server' servers]];
      by destruct (String.eqb_spec (ServerAddr arg) "") as [->|].
  - intros bag arg Harg Hnd. split.
    + intros s Hin. by apply (getArgsFrom_ServerAddr _ _ _ _ Harg Hnd Hin).
    + intros Hout. by apply (getArgsFrom_ServerAddr_absent _ _ _ Harg Hout).
  - intros L server path method bag arg fullURL parsedURL Harg Hjoin Hparse Hvalid
      Hbody Hforms.
    unfold buildRequest. rewrite Harg; simpl. rewrite Hjoin, Hparse.
    unfold contentHeader. rewrite Hbody; simpl. by rewrite Hvalid, Hforms.
  - intros L server path method operation bag req Hreq.
    unfold newHandler. by rewrite Hreq.
Qed.

Lemma server_resolution_witness :
  buildRequest (L := Sample.lib) (Some Sample.apiServer) "/pets/{id}" "get"
    [("path|id", Str "42")]
  = Ok {| Method := "GET"; RequestURL := "https://api.example.com/pets/42";
          Header := []; Body := None |}.
Proof.
  apply (proj1 (proj2 (proj2 (proj2 server_resolution))) Sample.lib (Some Sample.apiServer)
           "/pets/{id}" "get" [("path|id", Str "42")]
           {| ServerAddr := ""; AuthToken := ""; AuthUsername := ""; AuthPassword := "";
              AuthOAuth2Token := ""; Headers := []; ArgBody := Nil; Query := [];
              Path := [("id", Str "42")]; Forms := [] |}
           "https://api.example.com/pets/42" ("https://api.example.com/pets/42", ""));
    reflexivity.
Defined.

(** ** Tools and their options *)

Lemma optionName_createToolOption (t : propertyType) (name : string)
  (opts : list mcp.PropertyOption) :
  optionName (createToolOption t name opts) = name.
Proof.
  unfold optionName. destruct t; simpl;
    match goal with |- context [mcp.propertySchema ?i ?o] =>
      by destruct (mcp.propertySchema i o) end.
Qed.

Lemma optionName_argument (opt : mcp.ToolOption) (a : mcp.Argument) :
  mcp.argument opt = Some a -> optionName opt = mcp.ArgName a.
Proof. unfold optionName. by intros ->. Qed.

(** An option leaves the arguments of other names as they are. *)
Lemma applyToolOption_other (t : mcp.Tool.t) (opt : mcp.ToolOption) (name : string) :
  name <> "" -> optionName opt <> name ->
  mapGet name (mcp.Tool.InputProperties (mcp.applyToolOption t opt))
  = mapGet name (mcp.Tool.InputProperties t)
  /\ (In name (mcp.Tool.InputRequired (mcp.applyToolOption t opt))
      <-> In name (mcp.Tool.InputRequired t)).
Proof.
  intros Hname Hopt. unfold optionName, mcp.argument in Hopt.
  destruct opt as [d|n o|n o|n o|n o|n o]; simpl; [done|..];
    unfold mcp.withProperty;
    match goal with |- context [mcp.propertySchema ?i ?o] =>
      destruct (mcp.propertySchema i o) as [schema required] eqn:Hs
    end; simpl in *; rewrite ?Hs in Hopt; simpl in Hopt;
    (split; [by apply mapGet_mapSet_ne |]);
    destruct required; [|done| |done| |done| |done| |done];
    rewrite in_app_iff; simpl; intuition congruence.
Qed.

Lemma fold_applyToolOption_other (opts : list mcp.ToolOption) (t : mcp.Tool.t)
  (name : string) :
  name <> "" -> (forall opt, In opt opts -> optionName opt <> name) ->
  mapGet name (mcp.Tool.InputProperties (fold_left mcp.applyToolOption opts t))
  = mapGet name (mcp.Tool.InputProperties t)
  /\ (In name (mcp.Tool.InputRequired (fold_left mcp.applyToolOption opts t))
      <-> In name (mcp.Tool.InputRequired t)).
Proof.
  intros Hname. revert t. induction opts as [|opt opts IH]; intros t Hopts; simpl; [done|].
  destruct (IH (mcp.applyToolOption t opt)) as [Hp Hr].
  { intros opt' Hin. apply Hopts. by right. }
  destruct (applyToolOption_other t opt name Hname) as [Hp' Hr'].
  { apply Hopts. by left. }
  rewrite Hp, Hp', Hr, Hr'. done.
Qed.

(** An argument option registers its schema under its name, and its name
    among the required ones exactly when it is required. *)
Lemma applyToolOption_argument (t : mcp.Tool.t) (opt : mcp.ToolOption) (a : mcp.Argument) :
  mcp.argument opt = Some a ->
  mapGet (mcp.ArgName a) (mcp.Tool.InputProperties (mcp.applyToolOption t opt))
  = Some (Map (mcp.ArgSchema a))
  /\ (In (mcp.ArgName a) (mcp.Tool.InputRequired (mcp.applyToolOption t opt))
      <-> mcp.ArgRequired a = true \/ In (mcp.ArgName a) (mcp.Tool.InputRequired t)).
Proof.
  unfold mcp.argument.
  destruct opt as [d|n o|n o|n o|n o|n o]; simpl; [done|..];
    unfold mcp.withProperty;
    match goal with |- context [mcp.propertySchema ?i ?o] =>
      destruct (mcp.propertySchema i o) as [schema required] eqn:Hs
    end; intros Ha; inversion Ha; subst; simpl;
    (split; [by apply mapGet_mapSet_eq |]);
    destruct required; rewrite ?in_app_iff; simpl; intuition congruence.
Qed.

(** ** The names of the generated arguments *)

Section NamingFacts.

Context {L : GoLib}.

Variable c : Converter.

Lemma convertParameter_name (fuel : nat) (param : Param.t) (opt : mcp.ToolOption) :
  convertParameter c fuel param = Ok opt ->
  optionName opt = if String.eqb (Param.In param) "body" then "body"
                   else Param.In param +:+ "|" +:+ Param.Name param.
Proof.
  unfold convertParameter.
  match goal with |- obind ?m _ = _ -> _ => destruct m as [[t opts]| | |] end;
    simpl; try done.
  destruct (String.eqb_spec (Param.In param) "body") as [Hin|Hin];
    intros Hopt; inversion Hopt; rewrite optionName_createToolOption; done.
Qed.

Lemma convertParameters_names (fuel : nat) (parameters : list ParameterRef)
  (args : list mcp.ToolOption) :
  convertParameters c fuel parameters = Ok args ->
  forall opt, In opt args ->
    exists param,
      In {| Parameter_Value := Some param |} parameters
      /\ optionName opt = if String.eqb (Param.In param) "body" then "body"
                          else Param.In param +:+ "|" +:+ Param.Name param.
Proof.
  revert args. induction parameters as [|[[param|]] parameters IH]; intros args Hrun; simpl in Hrun.
  - inversion Hrun. by intros opt [].
  - destruct (convertParameter c fuel param) as [arg| | |] eqn:Harg; simpl in Hrun; try done.
    destruct (convertParameters c fuel parameters) as [args'| | |]; simpl in Hrun; try done.
    inversion Hrun; subst. intros opt [<-|Hin].
    + exists param. split; [by left|]. by apply (convertParameter_name fuel).
    + destruct (IH args' eq_refl opt Hin) as (param' & Hin' & Hname).
      exists param'. split; [by right|done].
  - intros opt Hin. destruct (IH args Hrun opt Hin) as (param' & Hin' & Hname).
    exists param'. split; [by right|done].
Qed.

Lemma convertContent_names (fuel : nat) (requestBody : RequestBody.t)
  (content : list (string * MediaType)) (args : list mcp.ToolOption) :
  convertContent c fuel requestBody content = Ok args ->
  forall opt, In opt args -> optionName opt = "body".
Proof.
  revert args. induction content as [|[contentType mediaType] content IH];
    intros args Hrun; simpl in Hrun.
  - inversion Hrun. by intros opt [].
  - destruct (refValue (MediaType_Schema mediaType)) as [schema|]; [|by apply IH].
    match type of Hrun with obind ?m _ = _ => destruct m as [[t opts]| | |] end;
      simpl in Hrun; try done.
    destruct (convertContent c fuel requestBody content) as [args'| | |];
      simpl in Hrun; try done.
    inversion Hrun; subst. intros opt [<-|Hin].
    + apply optionName_createToolOption.
    + by apply (IH args').
Qed.

Lemma securityOptions_names (schemeName : string) (scopes : list string)
  (scheme : SecurityScheme) (opt : mcp.ToolOption) :
  In opt (securityOptions schemeName scopes scheme) ->
  strings.HasPrefix (optionName opt) "openapi|auth_" = true.
Proof.
  unfold securityOptions.
  repeat match goal with
         | |- context [if ?b then _ else _] => destruct b
         end; simpl; intros Hin; decompose [or] Hin; try done; subst; reflexivity.
Qed.

Lemma convertSecurityRequirements_names (securityRequirements : list SecurityRequirement)
  (opt : mcp.ToolOption) :
  In opt (convertSecurityRequirements c securityRequirements) ->
  strings.HasPrefix (optionName opt) "openapi|auth_" = true.
Proof.
  unfold convertSecurityRequirements.
  destruct (GetDocument (parser c)) as [document|]; [|done].
  destruct (DocComponents document) as [components|]; [|done].
  destruct (length (SecuritySchemes components) =? 0)%nat; [done|].
  intros Hin. apply in_flat_map in Hin as (requirement & _ & Hin).
  apply in_flat_map in Hin as ([schemeName scopes] & _ & Hin).
  destruct (mapGet schemeName (SecuritySchemes components)) as [[[scheme|]]|]; try done.
  by apply securityOptions_names in Hin.
Qed.

(** The options of an operation: the declared parameters and the body, the
    server address, then the security arguments and the description. *)
Lemma operationOptions_shape (fuel : nat) (operation : Operation.t)
  (args : list mcp.ToolOption) :
  operationOptions c fuel operation = Ok args ->
  exists declared rest,
    args = declared ++ serverAddrOption (GetServers (parser c)) :: rest
    /\ (forall opt, In opt declared ->
          optionName opt = "body"
          \/ exists param,
               In {| Parameter_Value := Some param |} (Operation.Parameters operation)
               /\ optionName opt = Param.In param +:+ "|" +:+ Param.Name param)
    /\ (forall opt, In opt rest ->
          optionName opt = ""
          \/ strings.HasPrefix (optionName opt) "openapi|auth_" = true).
Proof.
  unfold operationOptions. intros Hrun.
  destruct (convertParameters c fuel (Operation.Parameters operation)) as [params| | |]
    eqn:Hparams; simpl in Hrun; try done.
  assert (Hdeclared : exists declared,
             match Operation.RequestBody operation with
             | Some {| RequestBody_Value := Some requestBody |} =>
                 do* bodyArgs := convertRequestBody c fuel requestBody in
                 Ok (params ++ bodyArgs)
             | _ => Ok params
             end = Ok declared
             /\ forall opt, In opt declared ->
                  optionName opt = "body"
                  \/ exists param,
                       In {| Parameter_Value := Some param |} (Operation.Parameters operation)
                       /\ optionName opt = Param.In param +:+ "|" +:+ Param.Name param).
  { assert (Hp : forall opt, In opt params ->
                   optionName opt = "body"
                   \/ exists param,
                        In {| Parameter_Value := Some param |} (Operation.Parameters operation)
                        /\ optionName opt = Param.In param +:+ "|" +:+ Param.Name param).
    { intros opt Hin.
      destruct (convertParameters_names fuel _ _ Hparams opt Hin) as (param & Hin' & Hname).
      destruct (String.eqb (Param.In param) "body"); [by left|]. right. by exists param. }
    destruct (Operation.RequestBody operation) as [[[requestBody|]]|];
      try (exists params; by split).
    destruct (convertRequestBody c fuel requestBody) as [bodyArgs| | |] eqn:Hbody;
      simpl in Hrun; try done.
    exists (params ++ bodyArgs). split; [done|].
    intros opt Hin. apply in_app_or in Hin as [Hin|Hin]; [by apply Hp|].
    left. by apply (convertContent_names fuel _ _ _ Hbody). }
  destruct Hdeclared as (declared & Hdecl & Hnames). rewrite Hdecl in Hrun. simpl in Hrun.
  destruct (toolDescription c fuel operation) as [description| | |]; simpl in Hrun; try done.
  inversion Hrun as [Hargs]. clear Hrun.
  exists declared.
  destruct (Operation.Security operation) as [security|].
  - destruct (0 <? length security)%nat.
    + exists (convertSecurityRequirements c security ++ [mcp.WithDescription description]).
      split_and!; [by rewrite <- !app_assoc | done |].
      intros opt Hin. apply in_app_or in Hin as [Hin|[<-|[]]]; [|by left].
      right. by apply convertSecurityRequirements_names in Hin.
    + exists [mcp.WithDescription description].
      split_and!; [by rewrite <- !app_assoc | done |].
      intros opt [<-|[]]. by left.
  - exists [mcp.WithDescription description].
    split_and!; [by rewrite <- !app_assoc | done |].
    intros opt [<-|[]]. by left.
Qed.

End NamingFacts.

(** ** The server-address argument *)

Lemma serverAddrOption_argument (servers : list Server) :
  mcp.argument (serverAddrOption servers) = Some (serverAddrArgument servers).
Proof. by destruct servers as [|server [|server' servers]]. Qed.

(** C4. The tool built for an operation has the argument
    [openapi|server_addr] as a string: with no declared server required
    and unconstrained; with exactly one optional, with that server's URL
    as default and as only enum value; with more than one required, with
    the declared URLs as enum. (Optional, that is, as long as no declared
    parameter is itself called [openapi|server_addr] and required: argument
    names are unique within a tool.) *)
Theorem server_addr_argument_policy {L : GoLib} (c : Converter) (fuel : nat)
  (path method : string) (operation : Operation.t) (tool : mcp.Tool.t) :
  convertOperation c fuel path method operation = Ok tool ->
  let described :=
    [("type", Str "string"); ("description", Str "Server address to connect to")] in
  let schema := mapGet "openapi|server_addr" (mcp.Tool.InputProperties tool) in
  let required := In "openapi|server_addr" (mcp.Tool.InputRequired tool) in
  match GetServers (parser c) with
  | [] => schema = Some (Map described) /\ required
  | [server] =>
      schema = Some (Map (described ++ [("default", Str (URL server));
                                        ("enum", Strs [URL server])]))
      /\ ((forall param,
              In {| Parameter_Value := Some param |} (Operation.Parameters operation) ->
              Param.In param +:+ "|" +:+ Param.Name param <> "openapi|server_addr") ->
          ~ required)
  | servers =>
      schema = Some (Map (described ++ [("enum", Strs (map URL servers))]))
      /\ required
  end.
Proof.
  intros Hconv. unfold convertOperation in Hconv.
  destruct (operationOptions c fuel operation) as [args| | |] eqn:Hargs;
    simpl in Hconv; try done.
  inversion Hconv as [Htool]. clear Hconv.
  destruct (operationOptions_shape c fuel operation args Hargs)
    as (declared & rest & -> & Hdeclared & Hrest).
  remember (GetServers (parser c)) as servers eqn:Hservers. clear Hservers.
  unfold mcp.NewTool. rewrite fold_left_app. simpl.
  set (t0 := fold_left mcp.applyToolOption declared _).
  set (name := "openapi|server_addr").
  assert (Hname : name <> "") by done.
  destruct (fold_applyToolOption_other rest
              (mcp.applyToolOption t0 (serverAddrOption servers)) name Hname) as [Hp Hr].
  { intros opt Hin Heq. destruct (Hrest opt Hin) as [Hopt|Hopt]; rewrite Heq in Hopt; done. }
  destruct (applyToolOption_argument t0 _ _ (serverAddrOption_argument servers))
    as [Hp' Hr'].
  assert (Hname' : mcp.ArgName (serverAddrArgument servers) = name).
  { by destruct servers as [|server [|server' servers]]. }
  rewrite Hname' in Hp', Hr'.
  assert (Hbefore :
            (forall param,
                In {| Parameter_Value := Some param |} (Operation.Parameters operation) ->
                Param.In param +:+ "|" +:+ Param.Name param <> name) ->
            ~ In name (mcp.Tool.InputRequired t0)).
  { intros Hparams. unfold t0.
    destruct (fold_applyToolOption_other declared
                {| mcp.Tool.Name := toolName c path method operation;
                   mcp.Tool.Description := ""; mcp.Tool.InputProperties := [];
                   mcp.Tool.InputRequired := [] |} name Hname) as [_ Hr0].
    - intros opt Hin Heq. destruct (Hdeclared opt Hin) as [Hopt|(param & Hin' & Hopt)].
      + rewrite Heq in Hopt. done.
      + apply (Hparams param Hin'). by rewrite <- Hopt.
    - rewrite Hr0. simpl. tauto. }
  cbv zeta.
  destruct servers as [|server [|server' servers]]; rewrite Hp, Hp'; simpl.
  - split; [done|]. apply Hr, Hr'. by left.
  - split; [done|]. intros Hparams Hreq. apply Hr, Hr' in Hreq as [Hreq|Hin]; [done|].
    by apply Hbefore.
  - split; [done|]. apply Hr, Hr'. by left.
Qed.

Lemma server_addr_argument_policy_witness :
  mapGet "openapi|server_addr"
    (mcp.Tool.InputProperties
       (mcp.NewTool "get_pets_id"
          [mcp.WithString "path|id" [mcp.Description "pet id"; mcp.Required];
           serverAddrOption [Sample.apiServer];
           mcp.WithDescription "Find a pet"]))
  = Some (Map ([("type", Str "string");
                ("description", Str "Server address to connect to")]
               ++ [("default", Str "https://api.example.com");
                   ("enum", Strs ["https://api.example.com"])]))
  /\ ~ In "openapi|server_addr"
         (mcp.Tool.InputRequired
            (mcp.NewTool "get_pets_id"
               [mcp.WithString "path|id" [mcp.Description "pet id"; mcp.Required];
                serverAddrOption [Sample.apiServer];
                mcp.WithDescription "Find a pet"])).
Proof.
  destruct (server_addr_argument_policy (L := Sample.lib)
              (Sample.converter [Sample.apiServer]) 5 "/pets/{id}" "get" Sample.getPet
              (mcp.NewTool "get_pets_id"
                 [mcp.WithString "path|id" [mcp.Description "pet id"; mcp.Required];
                  serverAddrOption [Sample.apiServer];
                  mcp.WithDescription "Find a pet"])
              eq_refl) as [Hschema Hoptional].
  split; [exact Hschema|].
  apply Hoptional. intros param [Heq|[]]. inversion Heq. discriminate.
Defined.

(** ** Tool names *)

Lemma splitFrom_not_nil (sep : string) (skip : nat) (cur s : string) :
  strings.splitFrom sep skip cur s <> [].
Proof.
  revert skip cur. induction s as [|ch s IH]; intros skip cur; simpl; [done|].
  destruct skip; [|by apply IH].
  destruct (strings.HasPrefix (String ch s) sep); [done|by apply IH].
Qed.

(** [strings.Split] never returns an empty slice: the test on the number of
    path parts in [GetOperationID] always succeeds. *)
Lemma Split_length (s sep : string) : (0 <? length (strings.Split s sep))%nat = true.
Proof.
  unfold strings.Split. pose proof (splitFrom_not_nil sep 0 "" s) as Hne.
  by destruct (strings.splitFrom sep 0 "" s).
Qed.

(** The name of an operation that has an id is the id. *)
Lemma GetOperationID_explicit (path method : string) (operation : Operation.t) :
  Operation.OperationID operation <> "" ->
  GetOperationID path method operation = Operation.OperationID operation.
Proof.
  intros Hid. unfold GetOperationID, nonEmpty.
  by destruct (String.eqb_spec (Operation.OperationID operation) "").
Qed.

(** The name generated for an operation without an id: the branch that
    yields "root" is never taken. *)
Lemma GetOperationID_generated (path method : string) (operation : Operation.t) :
  Operation.OperationID operation = "" ->
  GetOperationID path method operation
  = strings.ToLower method +:+ "_"
    +:+ strings.ReplaceAll
          (strings.ReplaceAll (strings.Join (strings.Split (strings.Trim path "/") "/") "_")
             "{" "")
          "}" "".
Proof.
  intros Hid. unfold GetOperationID, nonEmpty. rewrite Hid. simpl.
  by rewrite Split_length.
Qed.

(** The prefix of the options, when there is one, comes first. *)
Lemma toolName_prefix (c : Converter) (path method : string) (operation : Operation.t) :
  toolName c path method operation
  = ToolNamePrefix (options c) +:+ GetOperationID path method operation.
Proof.
  unfold toolName, nonEmpty.
  by destruct (String.eqb_spec (ToolNamePrefix (options c)) "") as [->|].
Qed.

(** C6, at the root path. For an operation without an id on the path "/"
    the generated name is the lower-case method and an underscore with
    nothing after it, where the specification, and the else branch of
    [GetOperationID], say "root". A path with segments is named by them,
    braces dropped. *)
Theorem root_path_is_not_named_root :
  (forall (method : string) (operation : Operation.t),
      Operation.OperationID operation = "" ->
      GetOperationID "/" method operation = strings.ToLower method +:+ "_")
  /\ GetOperationID "/" "get" Sample.bare = "get_"
  /\ toolName (Sample.converter []) "/" "get" Sample.bare = "get_"
  /\ GetOperationID "/" "get" Sample.bare <> "get_root"
  /\ GetOperationID "/pets/{id}" "get" Sample.bare = "get_pets_id".
Proof.
  split_and!; try done.
  intros method operation Hid. by rewrite GetOperationID_generated.
Qed.

(** ** The walker: the visited map is shared *)

(** When a call of [processSchemaProperty] on a titled schema returns, the
    title is in the map of the caller. *)
Lemma processSchemaProperty_marks (h : Store) (fuel : nat) (schema : ptr)
  (visited visited' : gset string) (d : any) :
  Schema.Title (deref h schema) <> "" ->
  processSchemaProperty h fuel schema visited = Some (d, visited') ->
  Schema.Title (deref h schema) ∈ visited'.
Proof.
  intros Htitle. destruct fuel as [|fuel]; simpl; [done|].
  unfold guarded, nonEmpty.
  destruct (String.eqb_spec (Schema.Title (deref h schema)) "") as [Heq|_]; [done|]. simpl.
  case_bool_decide as Hin.
  - intros Hrun. by inversion Hrun; subst.
  - destruct (propertyBody _ _ _ _) as [[property visited1]|]; [|done].
    intros Hrun. inversion Hrun; subst. set_solver.
Qed.

(** A call on a schema whose title is in the map returns the stub. *)
Lemma processSchemaProperty_visited (h : Store) (fuel : nat) (schema : ptr)
  (visited : gset string) :
  Schema.Title (deref h schema) <> "" ->
  Schema.Title (deref h schema) ∈ visited ->
  processSchemaProperty h (S fuel) schema visited
  = Some (circularReference (Schema.Title (deref h schema)), visited).
Proof.
  intros Htitle Hin. simpl. unfold guarded, nonEmpty.
  destruct (String.eqb_spec (Schema.Title (deref h schema)) "") as [Heq|_]; [done|]. simpl.
  by rewrite bool_decide_eq_true_2.
Qed.

(** C1. The visited map is shared between sibling calls: once a call of
    [processSchemaProperty] on a titled schema has returned, a second call
    on that schema with the same map, as for the second of two sibling
    properties, returns the circular-reference stub. So of two sibling
    properties [a] and [b] of one schema [Pet], the one the loop meets
    first is expanded and the other one is rendered as a circular
    reference, although [Pet] is not on its branch. *)
Theorem sibling_branch_gets_circular_reference :
  (forall (h : Store) (fuel fuel' : nat) (schema : ptr) (visited visited' : gset string)
     (d : any),
      Schema.Title (deref h schema) <> "" ->
      processSchemaProperty h fuel schema visited = Some (d, visited') ->
      processSchemaProperty h (S fuel') schema visited'
      = Some (circularReference (Schema.Title (deref h schema)), visited'))
  /\ fst <$> processSchemaProperty Sample.siblings 3 0%nat ∅
     = Some (Map [("type", Strs ["object"]);
                  ("properties",
                   Map [("a", Sample.petExpanded); ("b", circularReference "Pet")])])
  /\ fst <$> processSchemaProperty Sample.siblingsReversed 3 0%nat ∅
     = Some (Map [("type", Strs ["object"]);
                  ("properties",
                   Map [("b", Sample.petExpanded); ("a", circularReference "Pet")])]).
Proof.
  split_and!.
  - intros h fuel fuel' schema visited visited' d Htitle Hrun.
    apply processSchemaProperty_visited; [done|].
    by eapply processSchemaProperty_marks.
  - vm_compute. reflexivity.
  - vm_compute. reflexivity.
Qed.

(** ** The walker: cycles *)

Lemma untitledLoop_never_returns (fuel : nat) (visited : gset string) :
  processSchemaProperty Sample.untitledLoop fuel 0%nat visited = None.
Proof.
  revert visited. induction fuel as [|fuel IH]; intros visited; [done|].
  cbn. unfold guarded, propertyBody, bind. cbn. by rewrite IH.
Qed.

Lemma itemsLoop_items_never_return (fuel : nat) (visited : gset string) :
  processSchemaItems Sample.itemsLoop fuel 0%nat visited = None.
Proof.
  revert visited. induction fuel as [|fuel IH]; intros visited; [done|].
  cbn. unfold itemsBody, bind. cbn. by rewrite IH.
Qed.

(** The same for a titled array that is its own item schema: the check at
    the head of [processSchemaProperty] passes once, and the calls of
    [processSchemaItems] that follow are not checked. *)
Lemma itemsLoop_never_returns (fuel : nat) :
  processSchemaProperty Sample.itemsLoop fuel 0%nat ∅ = None.
Proof.
  destruct fuel as [|fuel]; [done|].
  cbn. unfold guarded. cbn. rewrite bool_decide_eq_false_2 by set_solver.
  unfold propertyBody, bind. cbn. by rewrite itemsLoop_items_never_return.
Qed.

(** C2 fails as stated: the walk of a schema without a title that is its
    own property returns for no amount of fuel. *)
Lemma untitled_cycle_never_returns :
  ~ exists fuel result,
      processSchemaProperty Sample.untitledLoop fuel 0%nat ∅ = Some result.
Proof. intros (fuel & result & Hrun). by rewrite untitledLoop_never_returns in Hrun. Qed.

(** *** Walks that return *)

Lemma returnsFrom_ret {A : Type} (visited0 : gset string) (a : A) :
  returnsFrom visited0 (ret a).
Proof. intros visited Hsub. exists a, visited. by split. Qed.

Lemma returnsFrom_bind {A B : Type} (visited0 : gset string) (m : Walk A) (k : A -> Walk B) :
  returnsFrom visited0 m -> (forall a, returnsFrom visited0 (k a)) ->
  returnsFrom visited0 (bind m k).
Proof.
  intros Hm Hk visited Hsub. unfold bind.
  destruct (Hm visited Hsub) as (a & visited1 & -> & Hsub1).
  destruct (Hk a visited1) as (b & visited2 & Hb & Hsub2); [set_solver|].
  exists b, visited2. split; [done|set_solver].
Qed.

Lemma walkRefs_returns (visited0 : gset string) (w : ptr -> Walk any)
  (refs : list SchemaRef) :
  (forall p, In p (refValues refs) -> returnsFrom visited0 (w p)) ->
  returnsFrom visited0 (walkRefs w refs).
Proof.
  induction refs as [|[ref [p|]] refs IH]; intros Hw; simpl.
  - apply returnsFrom_ret.
  - apply returnsFrom_bind; [apply Hw; by left|]. intros d.
    apply returnsFrom_bind; [|intros ds; apply returnsFrom_ret].
    apply IH. intros q Hq. apply Hw. by right.
  - apply IH. intros q Hq. by apply Hw.
Qed.

Lemma walkProperties_returns (visited0 : gset string) (w : ptr -> Walk any)
  (props : list (string * SchemaRef)) (out : list (string * any)) :
  (forall p, In p (refValues (map snd props)) -> returnsFrom visited0 (w p)) ->
  returnsFrom visited0 (walkProperties w props out).
Proof.
  revert out. induction props as [|[propName [ref [p|]]] props IH]; intros out Hw; simpl.
  - apply returnsFrom_ret.
  - apply returnsFrom_bind; [apply Hw; by left|]. intros d.
    apply IH. intros q Hq. apply Hw. by right.
  - apply IH. intros q Hq. by apply Hw.
Qed.

Lemma composition_returns (visited0 : gset string) (w : ptr -> Walk any) (key : string)
  (refs : list SchemaRef) (property : list (string * any)) :
  (forall p, In p (refValues refs) -> returnsFrom visited0 (w p)) ->
  returnsFrom visited0 (composition w key refs property).
Proof.
  intros Hw. unfold composition. destruct (0 <? length refs)%nat; [|apply returnsFrom_ret].
  apply returnsFrom_bind; [by apply walkRefs_returns|]. intros walked. apply returnsFrom_ret.
Qed.

(** The body of [processSchemaProperty] returns when the calls it makes
    do. *)
Lemma propertyBody_returns (visited0 : gset string) (walkProperty walkItems : ptr -> Walk any)
  (s : Schema.t) :
  (forall p, In (AsProperty, p) (propertyCalls s) -> returnsFrom visited0 (walkProperty p)) ->
  (forall p, In (AsItems, p) (propertyCalls s) -> returnsFrom visited0 (walkItems p)) ->
  returnsFrom visited0 (propertyBody walkProperty walkItems s).
Proof.
  intros HP HI.
  assert (HP' : forall p,
             In p (refValues (Schema.OneOf s) ++ refValues (Schema.AnyOf s)
                   ++ refValues (Schema.AllOf s)
                   ++ option_list (refValue (Schema.Not s))
                   ++ match Has (Schema.AdditionalProps s) with
                      | Some _ => []
                      | None =>
                          option_list (refValue (AdditionalSchema (Schema.AdditionalProps s)))
                      end
                   ++ (if TypeIs (Schema.Type_ s) "object"
                          && (0 <? length (Schema.Properties s))%nat
                       then refValues (map snd (Schema.Properties s)) else [])) ->
             returnsFrom visited0 (walkProperty p)).
  { intros p Hin. apply HP. unfold propertyCalls. apply in_or_app. left. by apply in_map. }
  assert (HI' : forall p,
             In p (if TypeIs (Schema.Type_ s) "array"
                   then option_list (refValue (Schema.Items s)) else []) ->
             returnsFrom visited0 (walkItems p)).
  { intros p Hin. apply HI. unfold propertyCalls. apply in_or_app. right. by apply in_map. }
  clear HP HI. unfold propertyBody.
  apply returnsFrom_bind.
  { apply composition_returns. intros p Hin. apply HP'. rewrite !in_app_iff. tauto. }
  intros property1. apply returnsFrom_bind.
  { apply composition_returns. intros p Hin. apply HP'. rewrite !in_app_iff. tauto. }
  intros property2. apply returnsFrom_bind.
  { apply composition_returns. intros p Hin. apply HP'. rewrite !in_app_iff. tauto. }
  intros property3. apply returnsFrom_bind.
  { destruct (refValue (Schema.Not s)) as [p|] eqn:Hnot; [|apply returnsFrom_ret].
    apply returnsFrom_bind; [|intros d; apply returnsFrom_ret].
    apply HP'. rewrite !in_app_iff. simpl. tauto. }
  intros property4. apply returnsFrom_bind.
  { destruct (Has (Schema.AdditionalProps s)) as [has|] eqn:Hhas; [apply returnsFrom_ret|].
    destruct (refValue (AdditionalSchema (Schema.AdditionalProps s))) as [p|] eqn:Hadd;
      [|apply returnsFrom_ret].
    apply returnsFrom_bind; [|intros d; apply returnsFrom_ret].
    apply HP'. rewrite !in_app_iff. simpl. tauto. }
  intros property5. apply returnsFrom_bind.
  { destruct (TypeIs (Schema.Type_ s) "object" && (0 <? length (Schema.Properties s))%nat)
      eqn:Hobj; [|apply returnsFrom_ret].
    apply returnsFrom_bind; [|intros d; apply returnsFrom_ret].
    apply walkProperties_returns. intros p Hin. apply HP'. rewrite !in_app_iff. tauto. }
  intros property6. apply returnsFrom_bind; [|intros property7; apply returnsFrom_ret].
  destruct (TypeIs (Schema.Type_ s) "array"); [|apply returnsFrom_ret].
  destruct (refValue (Schema.Items s)) as [p|]; [|apply returnsFrom_ret].
  apply returnsFrom_bind; [|intros d; apply returnsFrom_ret].
  apply HI'. simpl. tauto.
Qed.

(** The body of [processSchemaItems] returns when the calls it makes do. *)
Lemma itemsBody_returns (visited0 : gset string) (walkProperty walkItems : ptr -> Walk any)
  (s : Schema.t) :
  (forall p, In (AsProperty, p) (itemsCalls s) -> returnsFrom visited0 (walkProperty p)) ->
  (forall p, In (AsItems, p) (itemsCalls s) -> returnsFrom visited0 (walkItems p)) ->
  returnsFrom visited0 (itemsBody walkProperty walkItems s).
Proof.
  intros HP HI. unfold itemsBody.
  apply returnsFrom_bind.
  { destruct (0 <? length (Schema.Properties s))%nat; [|apply returnsFrom_ret].
    apply returnsFrom_bind; [|intros d; apply returnsFrom_ret].
    apply walkProperties_returns. intros p Hin. apply HP.
    unfold itemsCalls. apply in_or_app. left. by apply in_map. }
  intros item1. apply returnsFrom_bind; [|intros item2; apply returnsFrom_ret].
  destruct (refValue (Schema.Items s)) as [p|] eqn:Hitems; [|apply returnsFrom_ret].
  apply returnsFrom_bind; [|intros d; apply returnsFrom_ret].
  apply HI. unfold itemsCalls. apply in_or_app. right. apply in_map.
  rewrite Hitems. by left.
Qed.

(** *** Termination *)

Lemma title_in_titles (h : Store) (p : ptr) :
  Schema.Title (deref h p) <> "" -> Schema.Title (deref h p) ∈ titles h.
Proof.
  unfold deref, titles. destruct (h !! p) as [s|] eqn:Hp; simpl; [|done].
  intros _. apply elem_of_list_to_set, list_elem_of_fmap. exists s. split; [done|].
  by eapply list_elem_of_lookup_2.
Qed.

Lemma size_difference_mono (T visited visited' : gset string) :
  visited ⊆ visited' -> (size (T ∖ visited') <= size (T ∖ visited))%nat.
Proof. intros Hsub. apply subseteq_size. set_solver. Qed.

Lemma size_difference_insert (T visited : gset string) (t : string) :
  t ∈ T -> t ∉ visited -> (size (T ∖ ({[t]} ∪ visited)) < size (T ∖ visited))%nat.
Proof.
  intros HT Hv. apply subset_size. apply strict_spec_alt. split; [set_solver|].
  intros Heq. assert (t ∈ T ∖ visited) as Hin by set_solver.
  rewrite <- Heq in Hin. set_solver.
Qed.

Section Termination.

Variable h : Store.
Variable rank : Mode * ptr -> nat.
Variable R : nat.

Hypothesis rank_decreases :
  forall n c, In c (calls h n) -> unchecked h c -> (rank c < rank n)%nat.
Hypothesis rank_bounded : forall n, (rank n <= R)%nat.

Lemma bodyVisited_above (n : Mode * ptr) (visited : gset string) :
  visited ⊆ bodyVisited h n visited.
Proof.
  unfold bodyVisited. destruct (fst n); [|done].
  destruct (nonEmpty _); set_solver.
Qed.

Lemma depth_call (n c : Mode * ptr) (visited visited' : gset string) :
  In c (calls h n) ->
  bodyVisited h n visited ⊆ visited' ->
  (fst c = AsProperty -> Schema.Title (deref h (snd c)) <> "" ->
   Schema.Title (deref h (snd c)) ∉ visited') ->
  (depth h rank R c visited' < depth h rank R n visited)%nat.
Proof.
  intros Hcall Hsub Hfresh. unfold depth.
  pose proof (size_difference_mono (titles h) _ _ Hsub) as Hmono.
  pose proof (rank_bounded c) as Hc.
  destruct c as [[|] q]; simpl in *.
  - unfold bodyVisited at 1. simpl. unfold nonEmpty.
    destruct (String.eqb_spec (Schema.Title (deref h q)) "") as [Hempty|Htitle]; simpl.
    + assert (rank (AsProperty, q) < rank n)%nat by (apply rank_decreases; [done|by right]).
      nia.
    + pose proof (size_difference_insert (titles h) visited' _
                    (title_in_titles h q Htitle) (Hfresh eq_refl Htitle)).
      nia.
  - unfold bodyVisited at 1. simpl.
    assert (rank (AsItems, q) < rank n)%nat by (apply rank_decreases; [done|by left]).
    nia.
Qed.

Lemma walk_returns_within (fuel : nat) (n : Mode * ptr) (visited : gset string) :
  (depth h rank R n visited + 1 < fuel)%nat ->
  exists d visited', walk h fuel n visited = Some (d, visited') /\ visited ⊆ visited'.
Proof.
  revert n visited. induction fuel as [|fuel IH]; intros n visited Hfuel; [lia|].
  assert (Hcalls : forall c, In c (calls h n) ->
                     returnsFrom (bodyVisited h n visited) (walk h fuel c)).
  { intros c Hcall visited' Hsub.
    destruct (decide (fst c = AsProperty /\ Schema.Title (deref h (snd c)) <> ""
                      /\ Schema.Title (deref h (snd c)) ∈ visited'))
      as [(Hmode & Htitle & Hin)|Hfresh].
    - destruct c as [m q]; simpl in *; subst m. unfold walk; simpl.
      destruct fuel as [|fuel]; [lia|].
      rewrite processSchemaProperty_visited by done. by eexists _, _.
    - apply IH.
      assert (depth h rank R c visited' < depth h rank R n visited)%nat; [|lia].
      apply depth_call; [done|done|]. intros Hmode Htitle Hin. apply Hfresh. done. }
  destruct n as [[|] p]; unfold walk; simpl.
  - unfold guarded. unfold bodyVisited in Hcalls; simpl in Hcalls.
    destruct (nonEmpty (Schema.Title (deref h p))).
    + case_bool_decide as Hin; [by eexists _, _|].
      destruct (propertyBody_returns ({[Schema.Title (deref h p)]} ∪ visited)
                  (processSchemaProperty h fuel) (processSchemaItems h fuel) (deref h p))
        with (visited := {[Schema.Title (deref h p)]} ∪ visited)
        as (d & visited' & -> & Hsub); [| |done|].
      * intros q Hq. by apply (Hcalls (AsProperty, q)).
      * intros q Hq. by apply (Hcalls (AsItems, q)).
      * eexists _, _. split; [done|set_solver].
    + destruct (propertyBody_returns visited
                  (processSchemaProperty h fuel) (processSchemaItems h fuel) (deref h p))
        with (visited := visited) as (d & visited' & -> & Hsub); [| |done|].
      * intros q Hq. by apply (Hcalls (AsProperty, q)).
      * intros q Hq. by apply (Hcalls (AsItems, q)).
      * by eexists _, _.
  - unfold bodyVisited in Hcalls; simpl in Hcalls.
    destruct (itemsBody_returns visited
                (processSchemaProperty h fuel) (processSchemaItems h fuel) (deref h p))
      with (visited := visited) as (d & visited' & -> & Hsub); [| |done|].
    + intros q Hq. by apply (Hcalls (AsProperty, q)).
    + intros q Hq. by apply (Hcalls (AsItems, q)).
    + by eexists _, _.
Qed.

End Termination.

(** *** More fuel changes nothing *)

Lemma refines_refl {A : Type} (m : Walk A) : refines m m.
Proof. by intros visited r. Qed.

Lemma refines_bind {A B : Type} (m m' : Walk A) (k k' : A -> Walk B) :
  refines m m' -> (forall a, refines (k a) (k' a)) -> refines (bind m k) (bind m' k').
Proof.
  intros Hm Hk visited r. unfold bind.
  destruct (m visited) as [[a visited1]|] eqn:Hrun; [|done].
  rewrite (Hm _ _ Hrun). apply Hk.
Qed.

Lemma walkRefs_refines (w w' : ptr -> Walk any) (refs : list SchemaRef) :
  (forall p, refines (w p) (w' p)) -> refines (walkRefs w refs) (walkRefs w' refs).
Proof.
  intros Hw. induction refs as [|[ref [p|]] refs IH]; simpl.
  - apply refines_refl.
  - apply refines_bind; [done|]. intros d.
    apply refines_bind; [done|]. intros ds. apply refines_refl.
  - done.
Qed.

Lemma walkProperties_refines (w w' : ptr -> Walk any) (props : list (string * SchemaRef))
  (out : list (string * any)) :
  (forall p, refines (w p) (w' p)) ->
  refines (walkProperties w props out) (walkProperties w' props out).
Proof.
  intros Hw. revert out. induction props as [|[propName [ref [p|]]] props IH]; intros out; simpl.
  - apply refines_refl.
  - apply refines_bind; [done|]. intros d. apply IH.
  - apply IH.
Qed.

Lemma composition_refines (w w' : ptr -> Walk any) (key : string) (refs : list SchemaRef)
  (property : list (string * any)) :
  (forall p, refines (w p) (w' p)) ->
  refines (composition w key refs property) (composition w' key refs property).
Proof.
  intros Hw. unfold composition. destruct (0 <? length refs)%nat; [|apply refines_refl].
  apply refines_bind; [by apply walkRefs_refines|]. intros walked. apply refines_refl.
Qed.

Ltac refines_step :=
  first
    [ apply refines_refl
    | apply composition_refines; assumption
    | apply walkProperties_refines; assumption
    | match goal with H : forall p, refines (?w p) _ |- refines (?w _) _ => apply H end
    | apply refines_bind; [|intros ?]
    | match goal with
      | |- refines (match ?x with _ => _ end) _ => destruct x
      end ].

Lemma propertyBody_refines (walkProperty walkProperty' walkItems walkItems' : ptr -> Walk any)
  (s : Schema.t) :
  (forall p, refines (walkProperty p) (walkProperty' p)) ->
  (forall p, refines (walkItems p) (walkItems' p)) ->
  refines (propertyBody walkProperty walkItems s) (propertyBody walkProperty' walkItems' s).
Proof. intros HP HI. unfold propertyBody. cbv zeta. repeat refines_step. Qed.

Lemma itemsBody_refines (walkProperty walkProperty' walkItems walkItems' : ptr -> Walk any)
  (s : Schema.t) :
  (forall p, refines (walkProperty p) (walkProperty' p)) ->
  (forall p, refines (walkItems p) (walkItems' p)) ->
  refines (itemsBody walkProperty walkItems s) (itemsBody walkProperty' walkItems' s).
Proof. intros HP HI. unfold itemsBody. cbv zeta. repeat refines_step. Qed.

Lemma guarded_refines (s : Schema.t) (body body' : Walk any) :
  refines body body' -> refines (guarded s body) (guarded s body').
Proof.
  intros Hb visited r. unfold guarded.
  destruct (nonEmpty (Schema.Title s)); [|apply Hb].
  case_bool_decide; [done|].
  destruct (body _) as [[property visited1]|] eqn:Hrun; [|done].
  by rewrite (Hb _ _ Hrun).
Qed.

Lemma fuel_succ (h : Store) (fuel : nat) :
  (forall p, refines (processSchemaProperty h fuel p) (processSchemaProperty h (S fuel) p))
  /\ (forall p, refines (processSchemaItems h fuel p) (processSchemaItems h (S fuel) p)).
Proof.
  induction fuel as [|fuel [IHP IHI]].
  - split; intros p visited r; done.
  - split; intros p.
    + change (refines
                (guarded (deref h p)
                   (propertyBody (processSchemaProperty h fuel) (processSchemaItems h fuel)
                      (deref h p)))
                (guarded (deref h p)
                   (propertyBody (processSchemaProperty h (S fuel))
                      (processSchemaItems h (S fuel)) (deref h p)))).
      by apply guarded_refines, propertyBody_refines.
    + change (refines
                (itemsBody (processSchemaProperty h fuel) (processSchemaItems h fuel)
                   (deref h p))
                (itemsBody (processSchemaProperty h (S fuel)) (processSchemaItems h (S fuel))
                   (deref h p))).
      by apply itemsBody_refines.
Qed.

(** A walk that returned returns the same with any larger fuel. *)
Lemma fuel_le (h : Store) (fuel fuel' : nat) (n : Mode * ptr) :
  (fuel <= fuel')%nat -> refines (walk h fuel n) (walk h fuel' n).
Proof.
  induction 1 as [|fuel' Hle IH]; [apply refines_refl|].
  intros visited r Hrun. apply IH in Hrun. revert Hrun.
  destruct (fuel_succ h fuel') as [HP HI].
  destruct n as [[|] p]; [apply HP|apply HI].
Qed.

(** *** The theorem *)

(** Only schemas of the store make calls. *)
Lemma calls_in_store (h : Store) (n c : Mode * ptr) :
  In c (calls h n) -> (snd n < length h)%nat.
Proof.
  unfold calls, deref. destruct (h !! snd n) as [s|] eqn:Hn.
  - intros _. by eapply lookup_lt_Some.
  - simpl. by destruct (fst n).
Qed.

(** A rank that decreases along the unchecked calls can be taken bounded:
    the store is finite. *)
Lemma bounded_rank (h : Store) (rank : Mode * ptr -> nat) :
  (forall n c, In c (calls h n) -> unchecked h c -> (rank c < rank n)%nat) ->
  exists (rank' : Mode * ptr -> nat) (R : nat),
    (forall n c, In c (calls h n) -> unchecked h c -> (rank' c < rank' n)%nat)
    /\ (forall n, (rank' n <= R)%nat).
Proof.
  intros Hrank.
  exists (fun n => if decide (snd n < length h)%nat then rank n else 0%nat).
  exists (max_list (map (fun p => (rank (AsProperty, p) `max` rank (AsItems, p))%nat)
                      (seq 0 (length h)))).
  split.
  - intros n c Hcall Hun. pose proof (calls_in_store h n c Hcall) as Hn.
    pose proof (Hrank n c Hcall Hun) as Hlt.
    simpl. repeat case_decide; try done; lia.
  - intros [m p]. simpl. case_decide as Hp; [|lia].
    assert (Hle : ((rank (AsProperty, p) `max` rank (AsItems, p))
                   <= max_list (map (fun p => (rank (AsProperty, p) `max` rank (AsItems, p))%nat)
                                  (seq 0 (length h))))%nat).
    { apply max_list_elem_of_le, list_elem_of_fmap. exists p. split; [done|].
      apply list_elem_of_In, in_seq. lia. }
    destruct m; lia.
Qed.

(** C2, amended. Let the calls that the check does not cover (calls of
    [processSchemaItems], and calls of [processSchemaProperty] on schemas
    without a title) form no cycle: some rank decreases along each of them.
    Then every walk returns: from some amount of fuel on, both functions
    return one and the same result. And a call of [processSchemaProperty]
    on a schema whose title is in the visited map does not recurse: it
    returns the circular-reference stub and leaves the map as it is. *)
Theorem checked_cycles_terminate (h : Store) (rank : Mode * ptr -> nat) :
  (forall n c, In c (calls h n) -> unchecked h c -> (rank c < rank n)%nat) ->
  forall (schema : ptr) (visited : gset string),
    (exists fuel0 d visited',
        forall fuel, (fuel0 <= fuel)%nat ->
          processSchemaProperty h fuel schema visited = Some (d, visited'))
    /\ (exists fuel0 d visited',
           forall fuel, (fuel0 <= fuel)%nat ->
             processSchemaItems h fuel schema visited = Some (d, visited'))
    /\ (Schema.Title (deref h schema) <> "" ->
        Schema.Title (deref h schema) ∈ visited ->
        forall fuel,
          processSchemaProperty h (S fuel) schema visited
          = Some (Map [("type", Str "reference");
                       ("description",
                        Str ("Circular reference to " +:+ Schema.Title (deref h schema)));
                       ("title", Str (Schema.Title (deref h schema)))],
                  visited)).
Proof.
  intros Hrank schema visited.
  destruct (bounded_rank h rank Hrank) as (rank' & R & Hdecr & Hbound).
  assert (Hwalk : forall n, exists fuel0 d visited',
             forall fuel, (fuel0 <= fuel)%nat -> walk h fuel n visited = Some (d, visited')).
  { intros n.
    destruct (walk_returns_within h rank' R Hdecr Hbound
                (S (S (depth h rank' R n visited))) n visited) as (d & visited' & Hrun & _);
      [lia|].
    exists (S (S (depth h rank' R n visited))), d, visited'.
    intros fuel Hle. by apply (fuel_le h _ fuel n Hle). }
  split_and!.
  - apply (Hwalk (AsProperty, schema)).
  - apply (Hwalk (AsItems, schema)).
  - intros Htitle Hin fuel. by apply processSchemaProperty_visited.
Qed.

Lemma person_calls_are_checked (n c : Mode * ptr) :
  In c (calls Sample.person n) -> unchecked Sample.person c -> (0 < 0)%nat.
Proof.
  destruct n as [m [|p]]; destruct m; simpl; intros Hin; try done;
    destruct Hin as [<-|[]]; intros [Hmode|Htitle]; done.
Qed.

Lemma checked_cycles_terminate_witness :
  (exists fuel0 d visited',
      forall fuel, (fuel0 <= fuel)%nat ->
        processSchemaProperty Sample.person fuel 0%nat ∅ = Some (d, visited'))
  /\ (forall fuel,
         processSchemaProperty Sample.person (S fuel) 0%nat {["Person"]}
         = Some (Map [("type", Str "reference");
                      ("description", Str "Circular reference to Person");
                      ("title", Str "Person")],
                 {["Person"]})).
Proof.
  split.
  - exact (proj1 (checked_cycles_terminate Sample.person (fun _ => 0%nat)
                    person_calls_are_checked 0%nat ∅)).
  - apply (proj2 (proj2 (checked_cycles_terminate Sample.person (fun _ => 0%nat)
                           person_calls_are_checked 0%nat {["Person"]}))).
    + discriminate.
    + apply elem_of_singleton. reflexivity.
Defined.

(** The walk of [Person], whose property [friend] is [Person] again: the
    cycle is cut at the second visit. *)
Example person_walk :
  fst <$> processSchemaProperty Sample.person 2 0%nat ∅
  = Some (Map [("type", Strs ["object"]); ("title", Str "Person");
               ("properties", Map [("friend", circularReference "Person")])]).
Proof. vm_compute. reflexivity. Qed.

(** * Further properties of the converter *)

(** ** What [getArgs] stores *)

Lemma mapSet_fresh {V : Type} (k : string) (v : V) (m : list (string * V)) :
  ~ In k (map fst m) -> mapSet k v m = m ++ [(k, v)].
Proof.
  induction m as [|[k' v'] m IH]; simpl; [done|]. intros Hk.
  destruct (String.eqb_spec k' k) as [->|_]; [tauto|]. rewrite IH; tauto.
Qed.

Lemma entriesUnder_app (pre : string) (bag1 bag2 : Bag) :
  entriesUnder pre (bag1 ++ bag2) = entriesUnder pre bag1 ++ entriesUnder pre bag2.
Proof. unfold entriesUnder. by rewrite List.filter_app, map_app. Qed.

(** Two keys with the same prefix and the same name after it are equal. *)
Lemma entriesUnder_key (pre : string) (bag : Bag) (k : string) :
  strings.HasPrefix k pre = true ->
  In (strings.TrimPrefix k pre) (map fst (entriesUnder pre bag)) ->
  In k (map fst bag).
Proof.
  intros Hk. unfold entriesUnder. rewrite map_map. simpl.
  intros Hin. apply in_map_iff in Hin as ([k' v'] & Heq & Hin). simpl in Heq.
  apply filter_In in Hin as [Hin Hk']. simpl in Hk'.
  apply in_map_iff. exists (k', v'). split; [|done]. simpl.
  rewrite (TrimPrefix_drop k' pre Hk'), (TrimPrefix_drop k pre Hk). by rewrite Heq.
Qed.

Lemma getArgsFrom_field (field : Args -> list (string * any)) (pre : string) :
  (forall arg arg' k v,
      getArgsStep arg k v = Ok arg' ->
      field arg' = if strings.HasPrefix k pre
                   then mapSet (strings.TrimPrefix k pre) v (field arg)
                   else field arg) ->
  forall (bag seen : Bag) (a arg : Args),
    NoDup (map fst (seen ++ bag)) ->
    field a = entriesUnder pre seen ->
    getArgsFrom a bag = Ok arg ->
    field arg = entriesUnder pre (seen ++ bag).
Proof.
  intros Hstep. induction bag as [|[k v] bag IH]; intros seen a arg Hnd Ha Hrun.
  - simpl in Hrun. inversion Hrun; subst. by rewrite app_nil_r.
  - simpl in Hrun.
    destruct (getArgsStep a k v) as [a1| | |] eqn:Hs; simpl in Hrun; try done.
    replace (seen ++ (k, v) :: bag) with ((seen ++ [(k, v)]) ++ bag) in *
      by (by rewrite <- app_assoc).
    apply (IH _ a1); [done| |done].
    rewrite (Hstep _ _ _ _ Hs), Ha, entriesUnder_app.
    replace (entriesUnder pre [(k, v)])
      with (if strings.HasPrefix k pre then [(strings.TrimPrefix k pre, v)] else [])
      by (unfold entriesUnder; simpl; by destruct (strings.HasPrefix k pre)).
    destruct (strings.HasPrefix k pre) eqn:Hk; [|by rewrite app_nil_r].
    apply mapSet_fresh. intros Hin. apply (entriesUnder_key pre seen k Hk) in Hin.
    rewrite !map_app in Hnd. simpl in Hnd.
    apply NoDup_app in Hnd as [Hnd _]. apply NoDup_app in Hnd as (_ & Hdisj & _).
    apply (Hdisj k); [by apply list_elem_of_In | by left].
Qed.

Lemma query_key (k : string) :
  strings.HasPrefix k "query|" = true ->
  strings.HasPrefix k "openapi|" = false /\ String.eqb k "body" = false.
Proof. intros Hk. apply HasPrefix_split in Hk. rewrite Hk. by cbn. Qed.

Lemma path_key (k : string) :
  strings.HasPrefix k "path|" = true ->
  strings.HasPrefix k "openapi|" = false /\ String.eqb k "body" = false
  /\ strings.HasPrefix k "query|" = false.
Proof. intros Hk. apply HasPrefix_split in Hk. rewrite Hk. by cbn. Qed.

Lemma header_key (k : string) :
  strings.HasPrefix k "header|" = true ->
  strings.HasPrefix k "openapi|" = false /\ String.eqb k "body" = false
  /\ strings.HasPrefix k "query|" = false /\ strings.HasPrefix k "path|" = false.
Proof. intros Hk. apply HasPrefix_split in Hk. rewrite Hk. by cbn. Qed.

Lemma getArgsStep_Query (arg arg' : Args) (k : string) (v : any) :
  getArgsStep arg k v = Ok arg' ->
  Query arg' = if strings.HasPrefix k "query|"
               then mapSet (strings.TrimPrefix k "query|") v (Query arg)
               else Query arg.
Proof.
  unfold getArgsStep. intros Hstep.
  destruct (strings.HasPrefix k "query|") eqn:Hk.
  - destruct (query_key k Hk) as (-> & ->) in Hstep. by inversion Hstep.
  - repeat match type of Hstep with
           | context [if ?b then _ else _] => destruct b
           end; try (destruct v; simpl in Hstep); inversion Hstep; done.
Qed.

Lemma getArgsStep_Path (arg arg' : Args) (k : string) (v : any) :
  getArgsStep arg k v = Ok arg' ->
  Path arg' = if strings.HasPrefix k "path|"
              then mapSet (strings.TrimPrefix k "path|") v (Path arg)
              else Path arg.
Proof.
  unfold getArgsStep. intros Hstep.
  destruct (strings.HasPrefix k "path|") eqn:Hk.
  - destruct (path_key k Hk) as (-> & -> & ->) in Hstep. by inversion Hstep.
  - repeat match type of Hstep with
           | context [if ?b then _ else _] => destruct b
           end; try (destruct v; simpl in Hstep); inversion Hstep; done.
Qed.

Lemma getArgsStep_Headers (arg arg' : Args) (k : string) (v : any) :
  getArgsStep arg k v = Ok arg' ->
  Headers arg' = if strings.HasPrefix k "header|"
                 then mapSet (strings.TrimPrefix k "header|") v (Headers arg)
                 else Headers arg.
Proof.
  unfold getArgsStep. intros Hstep.
  destruct (strings.HasPrefix k "header|") eqn:Hk.
  - destruct (header_key k Hk) as (-> & -> & -> & ->) in Hstep. by inversion Hstep.
  - repeat match type of Hstep with
           | context [if ?b then _ else _] => destruct b
           end; try (destruct v; simpl in Hstep); inversion Hstep; done.
Qed.

(** X1. The four maps [getArgs] returns hold exactly the entries of the bag
    under the prefixes [query|], [path|], [header|] and [formData|], each
    under its name without the prefix and with its value unchanged: no
    entry is lost, merged or invented. *)
Theorem getArgs_demultiplexes (bag : Bag) (arg : Args) :
  NoDup (map fst bag) ->
  getArgs bag = Ok arg ->
  Query arg = entriesUnder "query|" bag
  /\ Path arg = entriesUnder "path|" bag
  /\ Headers arg = entriesUnder "header|" bag
  /\ Forms arg = entriesUnder "formData|" bag.
Proof.
  intros Hnd Harg. split_and!.
  - apply (getArgsFrom_field Query "query|" getArgsStep_Query bag [] emptyArgs); done.
  - apply (getArgsFrom_field Path "path|" getArgsStep_Path bag [] emptyArgs); done.
  - apply (getArgsFrom_field Headers "header|" getArgsStep_Headers bag [] emptyArgs); done.
  - apply (getArgsFrom_field Forms "formData|" getArgsStep_Forms bag [] emptyArgs); done.
Qed.

Lemma getArgs_demultiplexes_witness :
  Query
    {| ServerAddr := ""; AuthToken := "t"; AuthUsername := ""; AuthPassword := "";
       AuthOAuth2Token := ""; Headers := [("X-Trace", Str "1")]; ArgBody := Nil;
       Query := [("limit", Uint64 10); ("tag", Str "cat")]; Path := [("id", Str "42")];
       Forms := [] |}
  = entriesUnder "query|"
      [("query|limit", Uint64 10); ("path|id", Str "42"); ("openapi|auth_token", Str "t");
       ("header|X-Trace", Str "1"); ("query|tag", Str "cat"); ("other", Bool true)].
Proof.
  refine (proj1 (getArgs_demultiplexes
            [("query|limit", Uint64 10); ("path|id", Str "42");
             ("openapi|auth_token", Str "t"); ("header|X-Trace", Str "1");
             ("query|tag", Str "cat"); ("other", Bool true)] _ _ eq_refl)).
  apply (bool_decide_unpack _). vm_compute. reflexivity.
Defined.

(** ** The visited map of a walk *)

Lemma addsWithin_ret {A : Type} (T : gset string) (a : A) : addsWithin T (ret a).
Proof. intros visited a' visited' Hrun. inversion Hrun; subst. set_solver. Qed.

Lemma addsWithin_bind {A B : Type} (T : gset string) (m : Walk A) (k : A -> Walk B) :
  addsWithin T m -> (forall a, addsWithin T (k a)) -> addsWithin T (bind m k).
Proof.
  intros Hm Hk visited b visited' Hrun. unfold bind in Hrun.
  destruct (m visited) as [[a visited1]|] eqn:Hm1; [|done].
  destruct (Hm _ _ _ Hm1), (Hk _ _ _ _ Hrun). set_solver.
Qed.

Lemma walkRefs_addsWithin (T : gset string) (w : ptr -> Walk any) (refs : list SchemaRef) :
  (forall p, addsWithin T (w p)) -> addsWithin T (walkRefs w refs).
Proof.
  intros Hw. induction refs as [|[ref [p|]] refs IH]; simpl.
  - apply addsWithin_ret.
  - apply addsWithin_bind; [done|]. intros d.
    apply addsWithin_bind; [done|]. intros ds. apply addsWithin_ret.
  - done.
Qed.

Lemma walkProperties_addsWithin (T : gset string) (w : ptr -> Walk any)
  (props : list (string * SchemaRef)) (out : list (string * any)) :
  (forall p, addsWithin T (w p)) -> addsWithin T (walkProperties w props out).
Proof.
  intros Hw. revert out. induction props as [|[propName [ref [p|]]] props IH]; intros out; simpl.
  - apply addsWithin_ret.
  - apply addsWithin_bind; [done|]. intros d. apply IH.
  - apply IH.
Qed.

Lemma composition_addsWithin (T : gset string) (w : ptr -> Walk any) (key : string)
  (refs : list SchemaRef) (property : list (string * any)) :
  (forall p, addsWithin T (w p)) -> addsWithin T (composition w key refs property).
Proof.
  intros Hw. unfold composition. destruct (0 <? length refs)%nat; [|apply addsWithin_ret].
  apply addsWithin_bind; [by apply walkRefs_addsWithin|]. intros walked. apply addsWithin_ret.
Qed.

Ltac addsWithin_step :=
  first
    [ apply addsWithin_ret
    | apply composition_addsWithin; assumption
    | apply walkProperties_addsWithin; assumption
    | match goal with H : forall p, addsWithin _ (?w p) |- addsWithin _ (?w _) => apply H end
    | apply addsWithin_bind; [|intros ?]
    | match goal with
      | |- addsWithin _ (match ?x with _ => _ end) => destruct x
      end ].

Lemma propertyBody_addsWithin (T : gset string) (walkProperty walkItems : ptr -> Walk any)
  (s : Schema.t) :
  (forall p, addsWithin T (walkProperty p)) -> (forall p, addsWithin T (walkItems p)) ->
  addsWithin T (propertyBody walkProperty walkItems s).
Proof. intros HP HI. unfold propertyBody. cbv zeta. repeat addsWithin_step. Qed.

Lemma itemsBody_addsWithin (T : gset string) (walkProperty walkItems : ptr -> Walk any)
  (s : Schema.t) :
  (forall p, addsWithin T (walkProperty p)) -> (forall p, addsWithin T (walkItems p)) ->
  addsWithin T (itemsBody walkProperty walkItems s).
Proof. intros HP HI. unfold itemsBody. cbv zeta. repeat addsWithin_step. Qed.

Lemma guarded_addsWithin (T : gset string) (s : Schema.t) (body : Walk any) :
  (Schema.Title s <> "" -> Schema.Title s ∈ T) ->
  addsWithin T body -> addsWithin T (guarded s body).
Proof.
  intros Htitle Hbody visited d visited'. unfold guarded, nonEmpty.
  destruct (String.eqb_spec (Schema.Title s) "") as [Hempty|Hfull]; simpl; [apply Hbody|].
  case_bool_decide.
  - intros Hrun. inversion Hrun; subst. set_solver.
  - destruct (body _) as [[property visited1]|]; [|done].
    intros Hrun. inversion Hrun; subst. specialize (Htitle Hfull). set_solver.
Qed.

Lemma walk_addsWithin (h : Store) (fuel : nat) :
  (forall p, addsWithin (titles h) (processSchemaProperty h fuel p))
  /\ (forall p, addsWithin (titles h) (processSchemaItems h fuel p)).
Proof.
  induction fuel as [|fuel [IHP IHI]].
  - split; intros p visited d visited'; done.
  - split; intros p.
    + change (addsWithin (titles h)
                (guarded (deref h p)
                   (propertyBody (processSchemaProperty h fuel) (processSchemaItems h fuel)
                      (deref h p)))).
      apply guarded_addsWithin; [apply title_in_titles|].
      by apply propertyBody_addsWithin.
    + change (addsWithin (titles h)
                (itemsBody (processSchemaProperty h fuel) (processSchemaItems h fuel)
                   (deref h p))).
      by apply itemsBody_addsWithin.
Qed.

(** X2. A walk never takes a title out of the visited map it was handed, and
    whatever it adds is the title of a schema of the document: when a call
    of either function returns, the caller's map lies between the map as it
    was and that map with the document's titles. *)
Theorem walk_only_adds_titles (h : Store) (fuel : nat) (schema : ptr)
  (visited visited' : gset string) (d : any) :
  (processSchemaProperty h fuel schema visited = Some (d, visited') ->
   visited ⊆ visited' /\ visited' ⊆ visited ∪ titles h)
  /\ (processSchemaItems h fuel schema visited = Some (d, visited') ->
      visited ⊆ visited' /\ visited' ⊆ visited ∪ titles h).
Proof.
  destruct (walk_addsWithin h fuel) as [HP HI].
  split; intros Hrun; [by eapply HP | by eapply HI].
Qed.

Lemma walk_only_adds_titles_witness :
  (∅ : gset string) ⊆ {["Pet"]} /\ ({["Pet"]} : gset string) ⊆ ∅ ∪ titles Sample.siblings.
Proof.
  apply (proj1 (walk_only_adds_titles Sample.siblings 3 0%nat ∅ {["Pet"]}
                  (Map [("type", Strs ["object"]);
                        ("properties",
                         Map [("a", Sample.petExpanded); ("b", circularReference "Pet")])]))).
  vm_compute. reflexivity.
Defined.

(** ** What the walker emits *)

Lemma mapSet_keys {V : Type} (k k' : string) (v : V) (m : list (string * V)) :
  In k' (map fst (mapSet k v m)) <-> k' = k \/ In k' (map fst m).
Proof.
  induction m as [|[k0 v0] m IH]; simpl.
  - intuition.
  - destruct (String.eqb_spec k0 k) as [->|Hne]; simpl; [intuition|].
    rewrite IH. intuition.
Qed.

Lemma setIf_keys (c : bool) (k k' : string) (v : any) (m : list (string * any)) :
  In k' (map fst (setIf c k v m)) -> k' = k \/ In k' (map fst m).
Proof. destruct c; simpl; [apply mapSet_keys|tauto]. Qed.

Lemma setSome_keys {A : Type} (o : option A) (k k' : string) (f : A -> any)
  (m : list (string * any)) :
  In k' (map fst (setSome o k f m)) -> k' = k \/ In k' (map fst m).
Proof. destruct o; simpl; [apply mapSet_keys|tauto]. Qed.

(** X3. The descriptor [processSchemaItems] returns for an item schema is a
    map with no other keys than [type], [description], [properties] and
    [items]: the title, format, enum and validation attributes of an item
    schema are not carried over. *)
Theorem items_descriptor_keys (h : Store) (fuel : nat) (schema : ptr)
  (visited visited' : gset string) (d : any) :
  processSchemaItems h fuel schema visited = Some (d, visited') ->
  exists item,
    d = Map item
    /\ forall k, In k (map fst item) -> In k ["type"; "description"; "properties"; "items"].
Proof.
  destruct fuel as [|fuel]; [done|]. simpl. unfold itemsBody, bind, ret.
  intros Hrun.
  repeat (case_match; simplify_eq);
    eexists; (split; [reflexivity|]); intros k Hk;
    repeat match type of Hk with
           | In _ (map fst (mapSet _ _ _)) => apply mapSet_keys in Hk as [->|Hk]
           | In _ (map fst (setIf _ _ _ _)) => apply setIf_keys in Hk as [->|Hk]
           | In _ (map fst (setSome _ _ _ _)) => apply setSome_keys in Hk as [->|Hk]
           end; simpl in *; tauto.
Qed.

Lemma items_descriptor_keys_witness :
  exists item,
    Map [("type", Strs ["string"])] = Map item
    /\ forall k, In k (map fst item) -> In k ["type"; "description"; "properties"; "items"].
Proof.
  apply (items_descriptor_keys Sample.siblings 2 2%nat ∅ ∅). vm_compute. reflexivity.
Defined.

Lemma walkProperties_keys (w : ptr -> Walk any) (props : list (string * SchemaRef))
  (out obj : list (string * any)) (visited visited' : gset string) :
  walkProperties w props out visited = Some (obj, visited') ->
  forall name,
    In name (map fst obj)
    <-> In name (map fst out)
        \/ exists ref p, In (name, ref) props /\ Value ref = Some p.
Proof.
  revert out visited.
  induction props as [|[propName ref] props IH]; intros out visited Hrun name; simpl in Hrun.
  - inversion Hrun; subst. split; [tauto|]. intros [Hin|(ref & p & [] & _)]. done.
  - destruct (Value ref) as [p|] eqn:Hval.
    + unfold bind in Hrun. destruct (w p visited) as [[d visited1]|]; [|done].
      rewrite (IH _ _ Hrun name), mapSet_keys. split.
      * intros [[->|Hin]|(ref' & p' & Hin & Hp)]; eauto 8 using in_eq, in_cons.
      * intros [Hin|(ref' & p' & [Heq|Hin] & Hp)]; [tauto| |eauto 8].
        inversion Heq; subst. tauto.
    + rewrite (IH _ _ Hrun name). split.
      * intros [Hin|(ref' & p' & Hin & Hp)]; eauto 8 using in_cons.
      * intros [Hin|(ref' & p' & [Heq|Hin] & Hp)]; [tauto| |eauto 8].
        inversion Heq; subst. congruence.
Qed.

(** X4. The object [processSchemaProperties] returns has one entry for each
    property of the schema whose reference holds a schema, under the name of
    the property, and no other entry: properties with a nil schema are left
    out. *)
Theorem properties_descriptor_keys (h : Store) (fuel : nat) (schema : ptr)
  (visited visited' : gset string) (d : any) :
  processSchemaProperties h fuel schema visited = Some (d, visited') ->
  exists obj,
    d = Map obj
    /\ forall name,
         In name (map fst obj)
         <-> exists ref p,
               In (name, ref) (Schema.Properties (deref h schema)) /\ Value ref = Some p.
Proof.
  unfold processSchemaProperties, bind, ret. intros Hrun.
  destruct (walkProperties _ _ _ _) as [[obj visited1]|] eqn:Hwalk; [|done].
  inversion Hrun; subst. exists obj. split; [done|]. intros name.
  rewrite (walkProperties_keys _ _ _ _ _ _ Hwalk name). simpl. tauto.
Qed.

Lemma properties_descriptor_keys_witness :
  exists obj,
    Map [("a", Sample.petExpanded); ("b", circularReference "Pet")] = Map obj
    /\ forall name,
         In name (map fst obj)
         <-> exists ref p,
               In (name, ref) (Schema.Properties (deref Sample.siblings 0%nat))
               /\ Value ref = Some p.
Proof.
  apply (properties_descriptor_keys Sample.siblings 2 0%nat ∅ {["Pet"]}).
  vm_compute. reflexivity.
Defined.

(** ** Generated tool names *)

Lemma append_assoc' (a b c : string) : (a +:+ b) +:+ c = a +:+ (b +:+ c).
Proof.
  induction a as [|ch a IH]; [done|].
  change (String ch ((a +:+ b) +:+ c) = String ch (a +:+ (b +:+ c))). by rewrite IH.
Qed.

Lemma concat_cons (sep x : string) (xs : list string) :
  xs <> [] -> String.concat sep (x :: xs) = x +:+ sep +:+ String.concat sep xs.
Proof. by destruct xs. Qed.

Lemma append_nil_r (s : string) : s +:+ "" = s.
Proof.
  induction s as [|ch s IH]; [done|].
  change (String ch (s +:+ "") = String ch s). by rewrite IH.
Qed.

(** Splitting on the slash and joining with the underscore replaces each
    slash by an underscore. *)
Lemma Join_Split_slash (cur s : string) :
  String.concat "_" (strings.splitFrom "/" 0 cur s)
  = cur +:+ strings.mapBytes slashToUnderscore s.
Proof.
  revert cur. induction s as [|ch s IH]; intros cur.
  - simpl. by rewrite append_nil_r.
  - change (strings.mapBytes slashToUnderscore (String ch s))
      with (String (slashToUnderscore ch) (strings.mapBytes slashToUnderscore s)).
    change (strings.splitFrom "/" 0 cur (String ch s))
      with (if Ascii.eqb "/" ch && true
            then cur :: strings.splitFrom "/" 0 "" s
            else strings.splitFrom "/" 0 (cur +:+ String ch "") s).
    unfold slashToUnderscore. rewrite andb_true_r, (Ascii.eqb_sym "/" ch).
    destruct (Ascii.eqb ch "/").
    + rewrite concat_cons by apply splitFrom_not_nil. by rewrite IH.
    + rewrite IH, append_assoc'. done.
Qed.

Lemma ReplaceAll_byte (c : ascii) (s : string) :
  strings.ReplaceAll s (String c "") "" = withoutByte c s.
Proof.
  unfold strings.ReplaceAll. induction s as [|ch s IH]; simpl; [done|].
  rewrite (Ascii.eqb_sym c ch). destruct (Ascii.eqb ch c); simpl; by rewrite IH.
Qed.

Lemma hasByte_withoutByte (c c' : ascii) (s : string) :
  hasByte c (withoutByte c' s) = hasByte c s && negb (Ascii.eqb c c').
Proof.
  induction s as [|ch s IH]; simpl; [done|].
  destruct (Ascii.eqb_spec ch c') as [->|Hne]; simpl; rewrite IH.
  - rewrite (Ascii.eqb_sym c' c). by destruct (Ascii.eqb c c'), (hasByte c s).
  - destruct (Ascii.eqb_spec ch c) as [->|Hne']; simpl; [|done].
    destruct (Ascii.eqb_spec c c'); [done|]. by simpl.
Qed.

Lemma hasByte_slashToUnderscore (s : string) :
  hasByte "/" (strings.mapBytes slashToUnderscore s) = false.
Proof.
  induction s as [|ch s IH]; simpl; [done|]. rewrite IH.
  unfold slashToUnderscore. by destruct (Ascii.eqb_spec ch "/") as [->|Hne]; simpl;
    [|destruct (Ascii.eqb_spec ch "/")].
Qed.

(** X5. The name generated for an operation without an id is the lower-case
    method, an underscore, and the path without its outer slashes, each
    inner slash turned into an underscore and the braces taken out. The
    part after the method therefore has no slash and no brace in it. *)
Theorem generated_name_has_no_slash_or_brace (path method : string)
  (operation : Operation.t) :
  Operation.OperationID operation = "" ->
  exists pathName,
    GetOperationID path method operation = strings.ToLower method +:+ "_" +:+ pathName
    /\ pathName
       = withoutByte "}"
           (withoutByte "{" (strings.mapBytes slashToUnderscore (strings.Trim path "/")))
    /\ hasByte "/" pathName = false
    /\ hasByte "{" pathName = false
    /\ hasByte "}" pathName = false.
Proof.
  intros Hid. eexists. split; [|split; [reflexivity|]].
  - rewrite (GetOperationID_generated _ _ _ Hid).
    unfold strings.Join, strings.Split. rewrite Join_Split_slash. simpl.
    by rewrite !ReplaceAll_byte.
  - rewrite !hasByte_withoutByte, hasByte_slashToUnderscore. simpl.
    split_and!; [done| |]; by rewrite andb_false_r.
Qed.

Lemma generated_name_has_no_slash_or_brace_witness :
  exists pathName,
    GetOperationID "/users/{userId}/pets/" "get" Sample.bare
    = strings.ToLower "get" +:+ "_" +:+ pathName
    /\ pathName
       = withoutByte "}"
           (withoutByte "{"
              (strings.mapBytes slashToUnderscore (strings.Trim "/users/{userId}/pets/" "/")))
    /\ hasByte "/" pathName = false
    /\ hasByte "{" pathName = false
    /\ hasByte "}" pathName = false.
Proof.
  apply (generated_name_has_no_slash_or_brace "/users/{userId}/pets/" "get" Sample.bare).
  reflexivity.
Defined.

(** ** The operations of a path item *)

Lemma mapSet_NoDup {V : Type} (k : string) (v : V) (m : list (string * V)) :
  NoDup (map fst m) -> NoDup (map fst (mapSet k v m)).
Proof.
  induction m as [|[k' v'] m IH]; simpl; intros Hnd.
  - repeat constructor. by intros Hin%elem_of_nil.
  - apply NoDup_cons in Hnd as [Hk' Hnd].
    destruct (String.eqb_spec k' k) as [->|Hne]; simpl.
    + by apply NoDup_cons.
    + apply NoDup_cons. split; [|by apply IH].
      rewrite list_elem_of_In, mapSet_keys. rewrite list_elem_of_In in Hk'. intuition.
Qed.

Lemma mapGet_In {V : Type} (k : string) (v : V) (m : list (string * V)) :
  NoDup (map fst m) -> In (k, v) m -> mapGet k m = Some v.
Proof.
  induction m as [|[k' v'] m IH]; simpl; [done|]. intros Hnd Hin.
  apply NoDup_cons in Hnd as [Hk' Hnd].
  destruct Hin as [Heq|Hin].
  - inversion Heq; subst. by rewrite String.eqb_refl.
  - destruct (String.eqb_spec k' k) as [->|Hne]; [|by apply IH].
    exfalso. apply Hk', list_elem_of_In, in_map_iff. by exists (k, v).
Qed.

Lemma getOperations_NoDup (pathItem : PathItem) :
  NoDup (map fst (getOperations pathItem)).
Proof.
  unfold getOperations. cbv zeta beta.
  repeat match goal with
         | |- NoDup (map fst (match ?o with Some _ => mapSet _ _ _ | None => _ end)) =>
             destruct o; [apply mapSet_NoDup|]
         end; apply NoDup_nil_2.
Qed.

Lemma getOperations_methods (pathItem : PathItem) method operation :
  In (method, operation) (getOperations pathItem) -> In method methods.
Proof.
  intros Hin. apply (in_map fst) in Hin. simpl in Hin. revert Hin.
  unfold getOperations. cbv zeta beta.
  assert (Hadd : forall k m (o : option Operation.t) ops,
             In k (map fst (match o with Some op => mapSet m op ops | None => ops end)) ->
             m = k \/ In k (map fst ops)).
  { intros k m [op|] ops; [|tauto]. rewrite mapSet_keys. intuition. }
  intros Hin.
  repeat (apply Hadd in Hin; destruct Hin as [<-|Hin]; [simpl; tauto|]).
  done.
Qed.

(** X6. [getOperations] holds, under each of the eight lower-case method
    names, the operation the path item declares for that method, and
    nothing under any other key; no method occurs twice. *)
Theorem getOperations_by_method (pathItem : PathItem) :
  (mapGet "get" (getOperations pathItem) = Get pathItem
   /\ mapGet "post" (getOperations pathItem) = Post pathItem
   /\ mapGet "put" (getOperations pathItem) = Put pathItem
   /\ mapGet "delete" (getOperations pathItem) = Delete pathItem
   /\ mapGet "options" (getOperations pathItem) = Options_ pathItem
   /\ mapGet "head" (getOperations pathItem) = Head pathItem
   /\ mapGet "patch" (getOperations pathItem) = Patch pathItem
   /\ mapGet "trace" (getOperations pathItem) = Trace pathItem)
  /\ NoDup (map fst (getOperations pathItem))
  /\ (forall method operation,
         In (method, operation) (getOperations pathItem) ->
         In method methods
         /\ strings.ToLower method = method
         /\ mapGet method (getOperations pathItem) = Some operation).
Proof.
  split; [|split].
  - destruct pathItem as [[g|] [po|] [pu|] [de|] [op|] [he|] [pa|] [tr|]];
      split_and!; reflexivity.
  - apply getOperations_NoDup.
  - intros method operation Hin.
    pose proof (mapGet_In _ _ _ (getOperations_NoDup pathItem) Hin) as Hget.
    split_and!; [| |done].
    + by apply getOperations_methods in Hin.
    + apply getOperations_methods in Hin. unfold methods in Hin. simpl in Hin.
      decompose [or] Hin; subst; done.
Qed.

(** ** Errors of the conversion *)

Lemma noError_Ok {A : Type} (a : A) : noError (Ok a).
Proof. by intros msg. Qed.

Lemma noError_Panic {A : Type} (msg : string) : noError (@Panic A msg).
Proof. by intros msg'. Qed.

Lemma noError_Diverge {A : Type} : noError (@Diverge A).
Proof. by intros msg. Qed.

Lemma noError_obind {A B : Type} (m : outcome A) (k : A -> outcome B) :
  noError m -> (forall a, m = Ok a -> noError (k a)) -> noError (obind m k).
Proof.
  intros Hm Hk msg. destruct m as [a|msg'| |]; simpl; try done.
  - by apply Hk.
  - by destruct (Hm msg').
Qed.

Lemma noError_walked (w : Walk any) : noError (walked w).
Proof. intros msg. unfold walked. by destruct (w ∅) as [[d visited]|]. Qed.

Ltac noError_step :=
  repeat first
    [ apply noError_Ok | apply noError_Panic | apply noError_Diverge | apply noError_walked
    | apply noError_obind; [|intros ? _]
    | match goal with
      | |- noError (match ?x with _ => _ end) => destruct x
      | |- noError (if ?b then _ else _) => destruct b
      | |- noError (let '(_, _) := ?x in _) => destruct x
      end ].

Section ConversionErrors.

Context {L : GoLib}.

Variable c : Converter.

Lemma convertParameter_noError (fuel : nat) (param : Param.t) :
  noError (convertParameter c fuel param).
Proof. unfold convertParameter, parameterType. noError_step. Qed.

Lemma convertParameters_noError (fuel : nat) (parameters : list ParameterRef) :
  noError (convertParameters c fuel parameters).
Proof.
  induction parameters as [|[[param|]] parameters IH]; simpl; [apply noError_Ok| |done].
  apply noError_obind; [apply convertParameter_noError|]. intros arg _.
  apply noError_obind; [done|]. intros args _. apply noError_Ok.
Qed.

Lemma convertContent_noError (fuel : nat) (requestBody : RequestBody.t)
  (content : list (string * MediaType)) :
  noError (convertContent c fuel requestBody content).
Proof.
  induction content as [|[contentType mediaType] content IH]; simpl; [apply noError_Ok|].
  destruct (refValue (MediaType_Schema mediaType)) as [schema|]; [|done].
  apply noError_obind; [unfold bodyType; noError_step|]. intros [t propertyOptions] _.
  apply noError_obind; [done|]. intros args _. apply noError_Ok.
Qed.

Lemma describeContent_noError (fuel : nat) (content : list (string * MediaType))
  (desc : string) :
  noError (describeContent c fuel content desc).
Proof.
  revert desc. induction content as [|[contentType mediaType] content IH]; intros desc; simpl;
    [apply noError_Ok|].
  destruct (refValue (MediaType_Schema mediaType)) as [schema|]; [|done].
  apply noError_obind; [apply noError_walked|]. intros property _.
  destruct (json_Marshal property); done.
Qed.

Lemma describeResponse_noError (fuel : nat) (code : string) (response : Response.t) :
  noError (describeResponse c fuel code response).
Proof.
  unfold describeResponse.
  assert (Hcontent : forall desc,
             noError (do* desc := describeContent c fuel (Response.Content response) desc in
                      Ok (Some desc))).
  { intros desc. apply noError_obind; [apply describeContent_noError|].
    intros desc' _. apply noError_Ok. }
  destruct (Response.Description response) as [description|]; [|apply noError_Panic].
  cbv zeta.
  repeat match goal with
         | |- noError (match ?x with _ => _ end) => destruct x
         | |- noError (if ?b then _ else _) => destruct b
         end;
    try apply Hcontent; try apply noError_Ok.
  all: apply noError_obind; [apply noError_walked|]; intros property _.
  all: destruct (json_Marshal property); [apply Hcontent|apply noError_Ok].
Qed.

Lemma describeResponses_noError (fuel : nat) (respMap : list (string * option ResponseRef)) :
  noError (describeResponses c fuel respMap).
Proof.
  induction respMap as [|[code [[[response|]]|]] respMap IH]; simpl;
    [apply noError_Ok| |done|done].
  apply noError_obind; [apply describeResponse_noError|]. intros desc _.
  apply noError_obind; [done|]. intros descs _. apply noError_Ok.
Qed.

Lemma toolDescription_noError (fuel : nat) (operation : Operation.t) :
  noError (toolDescription c fuel operation).
Proof.
  unfold toolDescription, generateResponseDescription.
  destruct (Operation.Responses operation) as [responses|]; [|apply noError_Ok].
  apply noError_obind.
  - apply noError_obind; [apply describeResponses_noError|]. intros ds _. apply noError_Ok.
  - intros responseDesc _. destruct (nonEmpty responseDesc); apply noError_Ok.
Qed.

Lemma operationOptions_noError (fuel : nat) (operation : Operation.t) :
  noError (operationOptions c fuel operation).
Proof.
  unfold operationOptions, convertRequestBody.
  apply noError_obind; [apply convertParameters_noError|]. intros args _.
  apply noError_obind.
  - destruct (Operation.RequestBody operation) as [[[requestBody|]]|]; try apply noError_Ok.
    apply noError_obind; [apply convertContent_noError|]. intros bodyArgs _. apply noError_Ok.
  - intros args' _. apply noError_obind; [apply toolDescription_noError|].
    intros description _. apply noError_Ok.
Qed.

Lemma convertOperation_noError (fuel : nat) (path method : string) (operation : Operation.t) :
  noError (convertOperation c fuel path method operation).
Proof.
  unfold convertOperation. apply noError_obind; [apply operationOptions_noError|].
  intros args _. apply noError_Ok.
Qed.

Lemma convertOperations_noError (fuel : nat) (server : option Server) (path : string)
  (operations : list (string * Operation.t)) tools :
  noError (convertOperations c fuel server path operations tools).
Proof.
  revert tools. induction operations as [|[method operation] operations IH]; intros tools;
    simpl; [apply noError_Ok|].
  apply noError_obind; [apply convertOperation_noError|]. intros tool _. apply IH.
Qed.

Lemma convertPaths_noError (fuel : nat) (server : option Server)
  (paths : list (string * PathItem)) tools :
  noError (convertPaths c fuel server paths tools).
Proof.
  revert tools. induction paths as [|[path pathItem] paths IH]; intros tools; simpl;
    [apply noError_Ok|].
  apply noError_obind; [apply convertOperations_noError|]. intros tools1 _. apply IH.
Qed.

End ConversionErrors.

(** X7. The conversion has exactly two errors: [Convert] returns a non-nil
    error if and only if no document is loaded or the document has no info
    section, with the message of that case. [convertOperation] never
    returns an error, so the error branches that wrap its error in
    [Convert] and in [convertOperation] are never taken. *)
Theorem Convert_errors {L : GoLib} (c : Converter) (fuel : nat) :
  (forall path method operation msg,
      convertOperation c fuel path method operation <> Err msg)
  /\ (forall msg,
         Convert c fuel = Err msg <->
         (GetDocument (parser c) = None /\ msg = "no OpenAPI document loaded")
         \/ (GetDocument (parser c) <> None /\ GetInfo (parser c) = None
             /\ msg = "no info found in OpenAPI document")).
Proof.
  split.
  - intros path method operation msg. apply convertOperation_noError.
  - intros msg. unfold Convert.
    destruct (GetDocument (parser c)) as [document|] eqn:Hdoc.
    + destruct (GetInfo (parser c)) as [info|] eqn:Hinfo.
      * split.
        -- intros Herr. exfalso. revert Herr.
           match goal with
           | |- obind ?m ?k = _ -> _ =>
               assert (Hne : noError (obind m k));
               [apply noError_obind; [apply convertPaths_noError|intros ? _; apply noError_Ok]
               |apply Hne]
           end.
        -- intros [[? _]|(_ & ? & _)]; done.
      * split.
        -- intros Herr. right. inversion Herr. done.
        -- intros [[? _]|(_ & _ & ->)]; done.
    + split.
      * intros Herr. left. inversion Herr. done.
      * intros [[_ ->]|(? & _)]; done.
Qed.

(** ** The tools [Convert] registers *)

Lemma mapGet_mapSet_keeps {V : Type} (k k' : string) (v : V) (m : list (string * V)) :
  mapGet k m <> None -> mapGet k (mapSet k' v m) <> None.
Proof.
  intros Hk. destruct (String.eqb_spec k' k) as [->|Hne].
  - by rewrite mapGet_mapSet_eq.
  - by rewrite mapGet_mapSet_ne.
Qed.

Section Registration.

Context {L : GoLib}.

Variables (c : Converter) (fuel : nat) (server : option Server).

Lemma registered_weaken (declared declared' : string -> string -> Operation.t -> Prop) tools :
  (forall path method operation,
      declared path method operation -> declared' path method operation) ->
  registered c fuel server declared tools -> registered c fuel server declared' tools.
Proof.
  intros Hsub Hreg name tool handler Hin.
  destruct (Hreg _ _ _ Hin) as (Hname & path & method & operation & Hd & Hconv & Hh).
  split; [done|]. exists path, method, operation. auto.
Qed.

Lemma convertOperations_registered (declared : string -> string -> Operation.t -> Prop)
  (path : string) (operations : list (string * Operation.t)) tools tools' :
  (forall method operation, In (method, operation) operations ->
                            declared path method operation) ->
  registered c fuel server declared tools ->
  convertOperations c fuel server path operations tools = Ok tools' ->
  registered c fuel server declared tools'.
Proof.
  revert tools. induction operations as [|[method operation] operations IH];
    intros tools Hd Hreg Hrun; simpl in Hrun.
  - by inversion Hrun; subst.
  - destruct (convertOperation c fuel path method operation) as [tool| | |] eqn:Hconv;
      simpl in Hrun; try done.
    refine (IH _ _ _ Hrun); [intros; apply Hd; by right|].
    intros name tool' handler Hin.
    apply mapSet_In in Hin as [Heq|Hin]; [|by apply Hreg].
    inversion Heq; subst. split; [done|].
    exists path, method, operation. split_and!; [apply Hd; by left|done|done].
Qed.

Lemma convertPaths_registered (paths0 paths : list (string * PathItem)) tools tools' :
  (forall entry, In entry paths -> In entry paths0) ->
  registered c fuel server (declaredIn paths0) tools ->
  convertPaths c fuel server paths tools = Ok tools' ->
  registered c fuel server (declaredIn paths0) tools'.
Proof.
  revert tools. induction paths as [|[path pathItem] paths IH];
    intros tools Hsub Hreg Hrun; simpl in Hrun.
  - by inversion Hrun; subst.
  - destruct (convertOperations c fuel server path (getOperations pathItem) tools)
      as [tools1| | |] eqn:Hops; simpl in Hrun; try done.
    apply (IH tools1); [intros; apply Hsub; by right| |done].
    eapply convertOperations_registered; [|done|done].
    intros method operation Hin. exists pathItem. split; [apply Hsub; by left|done].
Qed.

Lemma convertOperations_NoDup (path : string) (operations : list (string * Operation.t))
  tools tools' :
  NoDup (map fst tools) ->
  convertOperations c fuel server path operations tools = Ok tools' ->
  NoDup (map fst tools').
Proof.
  revert tools. induction operations as [|[method operation] operations IH];
    intros tools Hnd Hrun; simpl in Hrun.
  - by inversion Hrun; subst.
  - destruct (convertOperation c fuel path method operation) as [tool| | |];
      simpl in Hrun; try done.
    refine (IH _ _ Hrun). by apply mapSet_NoDup.
Qed.

Lemma convertPaths_NoDup (paths : list (string * PathItem)) tools tools' :
  NoDup (map fst tools) ->
  convertPaths c fuel server paths tools = Ok tools' ->
  NoDup (map fst tools').
Proof.
  revert tools. induction paths as [|[path pathItem] paths IH];
    intros tools Hnd Hrun; simpl in Hrun.
  - by inversion Hrun; subst.
  - destruct (convertOperations c fuel server path (getOperations pathItem) tools)
      as [tools1| | |] eqn:Hops; simpl in Hrun; try done.
    apply (IH tools1); [|done]. by eapply convertOperations_NoDup.
Qed.

Lemma convertOperations_keeps (path : string) (operations : list (string * Operation.t))
  tools tools' (name : string) :
  mapGet name tools <> None ->
  convertOperations c fuel server path operations tools = Ok tools' ->
  mapGet name tools' <> None.
Proof.
  revert tools. induction operations as [|[method operation] operations IH];
    intros tools Hk Hrun; simpl in Hrun.
  - by inversion Hrun; subst.
  - destruct (convertOperation c fuel path method operation) as [tool| | |];
      simpl in Hrun; try done.
    refine (IH _ _ Hrun). by apply mapGet_mapSet_keeps.
Qed.

Lemma convertPaths_keeps (paths : list (string * PathItem)) tools tools' (name : string) :
  mapGet name tools <> None ->
  convertPaths c fuel server paths tools = Ok tools' ->
  mapGet name tools' <> None.
Proof.
  revert tools. induction paths as [|[path pathItem] paths IH];
    intros tools Hk Hrun; simpl in Hrun.
  - by inversion Hrun; subst.
  - destruct (convertOperations c fuel server path (getOperations pathItem) tools)
      as [tools1| | |] eqn:Hops; simpl in Hrun; try done.
    apply (IH tools1); [|done]. by eapply convertOperations_keeps.
Qed.

Lemma convertOperations_covers (path : string) (operations : list (string * Operation.t))
  tools tools' method operation :
  In (method, operation) operations ->
  convertOperations c fuel server path operations tools = Ok tools' ->
  exists tool,
    convertOperation c fuel path method operation = Ok tool
    /\ mapGet (mcp.Tool.Name tool) tools' <> None.
Proof.
  revert tools. induction operations as [|[method' operation'] operations IH];
    intros tools Hin Hrun; simpl in Hrun; [done|].
  destruct (convertOperation c fuel path method' operation') as [tool| | |] eqn:Hconv;
    simpl in Hrun; try done.
  destruct Hin as [Heq|Hin]; [|by eapply IH].
  inversion Heq; subst. exists tool. split; [done|].
  eapply convertOperations_keeps; [|done]. by rewrite mapGet_mapSet_eq.
Qed.

Lemma convertPaths_covers (paths : list (string * PathItem)) tools tools'
  path method operation :
  declaredIn paths path method operation ->
  convertPaths c fuel server paths tools = Ok tools' ->
  exists tool,
    convertOperation c fuel path method operation = Ok tool
    /\ mapGet (mcp.Tool.Name tool) tools' <> None.
Proof.
  revert tools. induction paths as [|[path' pathItem'] paths IH];
    intros tools (pathItem & Hin & Hop) Hrun; simpl in Hrun; [done|].
  destruct (convertOperations c fuel server path' (getOperations pathItem') tools)
    as [tools1| | |] eqn:Hops; simpl in Hrun; try done.
  destruct Hin as [Heq|Hin].
  - inversion Heq; subst.
    destruct (convertOperations_covers _ _ _ _ _ _ Hop Hops) as (tool & Hconv & Hk).
    exists tool. split; [done|]. by eapply convertPaths_keeps.
  - eapply IH; [|done]. by exists pathItem.
Qed.

End Registration.

(** X8. When [Convert] succeeds, the server is named after the options, or
    after the document's info where an option is empty, and its tools are
    exactly the conversions of the declared operations: every registered
    tool is registered once, under its own name, is the tool
    [convertOperation] returns for an operation some path declares, and has
    the handler of that same path, method and operation, bound to the
    single declared server; and every declared operation was converted to
    a tool whose name is registered. *)
Theorem Convert_registers_declared_operations {L : GoLib} (c : Converter) (fuel : nat)
  (srv : MCPServer) :
  Convert c fuel = Ok srv ->
  exists info,
    GetInfo (parser c) = Some info
    /\ MCPServer_name srv = ServerName (options (withDefaults c info))
    /\ MCPServer_version srv = Version (options (withDefaults c info))
    /\ NoDup (map fst (MCPServer_tools srv))
    /\ (forall name tool handler,
           In (name, (tool, handler)) (MCPServer_tools srv) ->
           name = mcp.Tool.Name tool
           /\ exists path method operation,
                declaredIn (GetPaths (parser c)) path method operation
                /\ convertOperation (withDefaults c info) fuel path method operation = Ok tool
                /\ handler = newHandler (boundServer (GetServers (parser c)))
                               path method operation)
    /\ (forall path method operation,
           declaredIn (GetPaths (parser c)) path method operation ->
           exists tool,
             convertOperation (withDefaults c info) fuel path method operation = Ok tool
             /\ mapGet (mcp.Tool.Name tool) (MCPServer_tools srv) <> None).
Proof.
  unfold Convert. intros Hrun.
  destruct (GetDocument (parser c)) as [document|]; [|done].
  destruct (GetInfo (parser c)) as [info|]; [|done].
  change {| parser := parser c;
            options :=
              {| ServerName := if String.eqb (ServerName (options c)) ""
                               then Info_Title info else ServerName (options c);
                 Version := if String.eqb (Version (options c)) ""
                            then Info_Version info else Version (options c);
                 ToolNamePrefix := ToolNamePrefix (options c) |} |}
    with (withDefaults c info) in Hrun.
  cbv zeta in Hrun. change (parser (withDefaults c info)) with (parser c) in Hrun.
  destruct (convertPaths (withDefaults c info) fuel (boundServer (GetServers (parser c)))
              (GetPaths (parser c)) []) as [tools| | |] eqn:Hpaths; simpl in Hrun; try done.
  inversion Hrun; subst; clear Hrun. simpl.
  exists info. split_and!; try done.
  - eapply convertPaths_NoDup; [|done]. apply NoDup_nil_2.
  - eapply (convertPaths_registered _ _ _ (GetPaths (parser c))); [done| |done].
    by intros name tool handler [].
  - intros path method operation Hd. by eapply convertPaths_covers.
Qed.

Lemma Convert_registers_declared_operations_witness :
  exists srv,
    Convert (L := Sample.lib) (Sample.converter [Sample.apiServer]) 3 = Ok srv
    /\ MCPServer_name srv = "pets"
    /\ map fst (MCPServer_tools srv) = ["get_pets_id"]
    /\ NoDup (map fst (MCPServer_tools srv)).
Proof.
  assert (Hrun : { srv | Convert (L := Sample.lib) (Sample.converter [Sample.apiServer]) 3
                         = Ok srv }) by (eexists; lazy; reflexivity).
  destruct Hrun as [srv Hrun]. exists srv. split; [exact Hrun|].
  destruct (Convert_registers_declared_operations (L := Sample.lib) _ _ _ Hrun)
    as (info & Hinfo & Hname & Hversion & Hnd & _).
  split_and!; [|
    |exact Hnd].
  - rewrite Hname. inversion Hinfo. reflexivity.
  - revert Hrun. lazy. intros Hrun. inversion Hrun. reflexivity.
Defined.

(** ** A response without description *)

Section NilDescription.

Context {L : GoLib}.

Variable c : Converter.

Lemma describeResponses_nil_description (fuel : nat)
  (respMap : list (string * option ResponseRef)) (code : string) (response : Response.t) :
  In (code, Some {| Response_Value := Some response |}) respMap ->
  Response.Description response = None ->
  forall descs, describeResponses c fuel respMap <> Ok descs.
Proof.
  intros Hin Hnil. induction respMap as [|[code' responseRef] respMap IH]; [done|].
  intros descs. simpl. destruct Hin as [Heq|Hin].
  - inversion Heq; subst. unfold describeResponse. rewrite Hnil. done.
  - specialize (IH Hin).
    destruct responseRef as [[[response'|]]|]; try apply IH.
    destruct (describeResponse c fuel code' response') as [desc| | |]; simpl; try done.
    destruct (describeResponses c fuel respMap) as [descs'| | |]; simpl; try done.
    by destruct (IH descs').
Qed.

Lemma convertOperation_nil_description (fuel : nat) (path method : string)
  (operation : Operation.t) responses (code : string) (response : Response.t) :
  Operation.Responses operation = Some responses ->
  In (code, Some {| Response_Value := Some response |}) responses ->
  Response.Description response = None ->
  forall tool, convertOperation c fuel path method operation <> Ok tool.
Proof.
  intros Hresp Hin Hnil tool.
  unfold convertOperation, operationOptions, toolDescription, generateResponseDescription.
  rewrite Hresp.
  destruct (convertParameters c fuel (Operation.Parameters operation)); simpl; try done.
  match goal with
  | |- obind (obind ?m _) _ <> _ => destruct m; simpl; try done
  end.
  pose proof (describeResponses_nil_description fuel responses code response Hin Hnil) as Hd.
  destruct (describeResponses c fuel responses) as [descs| | |]; simpl; try done.
  by destruct (Hd descs).
Qed.

End NilDescription.

(** X9. [generateResponseDescription] dereferences the description of every
    response it formats. An operation that has a response without
    description (a nil [Description]) is therefore never converted to a
    tool: [convertOperation] neither returns a tool nor an error, it panics
    (or does not return, when an earlier step of the conversion does not);
    and a document that declares such an operation makes [Convert] as a
    whole fail to return a server. *)
Theorem response_without_description_is_fatal {L : GoLib} (c : Converter) (fuel : nat)
  (path method : string) (operation : Operation.t)
  (responses : list (string * option ResponseRef)) (code : string) (response : Response.t) :
  Operation.Responses operation = Some responses ->
  In (code, Some {| Response_Value := Some response |}) responses ->
  Response.Description response = None ->
  ((exists msg, convertOperation c fuel path method operation = Panic msg)
   \/ convertOperation c fuel path method operation = Diverge)
  /\ (declaredIn (GetPaths (parser c)) path method operation ->
      forall srv, Convert c fuel <> Ok srv).
Proof.
  intros Hresp Hin Hnil. split.
  - pose proof (convertOperation_nil_description c fuel path method operation _ _ _
                  Hresp Hin Hnil) as Hok.
    pose proof (convertOperation_noError c fuel path method operation) as Herr.
    destruct (convertOperation c fuel path method operation) as [tool|msg|msg|].
    + by destruct (Hok tool).
    + by destruct (Herr msg).
    + left. by exists msg.
    + by right.
  - intros Hd srv Hrun. unfold Convert in Hrun.
    destruct (GetDocument (parser c)) as [document|]; [|done].
    destruct (GetInfo (parser c)) as [info|]; [|done].
    cbv zeta in Hrun.
    match type of Hrun with
    | obind (convertPaths ?c' ?f ?s ?p ?t) _ = _ =>
        destruct (convertPaths c' f s p t) as [tools| | |] eqn:Hpaths; try done;
        destruct (convertPaths_covers c' f s p t tools path method operation Hd Hpaths)
          as (tool & Hconv & _);
        by destruct (convertOperation_nil_description c' f path method operation _ _ _
                       Hresp Hin Hnil tool)
    end.
Qed.

Lemma response_without_description_is_fatal_witness :
  convertOperation (L := Sample.lib) Examples.undescribedConverter 3 "/ping" "get"
    Examples.undescribed
  = Panic "invalid memory address or nil pointer dereference"
  /\ forall srv, Convert (L := Sample.lib) Examples.undescribedConverter 3 <> Ok srv.
Proof.
  pose proof (response_without_description_is_fatal (L := Sample.lib)
                Examples.undescribedConverter 3 "/ping" "get" Examples.undescribed
                _ "200" _ eq_refl (or_introl eq_refl) eq_refl) as [_ Hconvert].
  split; [reflexivity|]. apply Hconvert.
  eexists. split; [left; reflexivity|]. left. reflexivity.
Defined.

(** ** The argument of a parameter *)

Lemma TypeIs_unique (t : option (list string)) (a b : string) :
  TypeIs t a = true -> TypeIs t b = true -> a = b.
Proof.
  destruct t as [[|x [|y l]]|]; simpl; try done.
  intros Ha%String.eqb_eq Hb%String.eqb_eq. congruence.
Qed.

Section ParameterArgument.

Context {L : GoLib}.

Variable c : Converter.

(** What [convertParameter] returns: the option of the chosen type, named
    after the parameter, with the description, the required mark, the
    type-specific option, the enumeration and the default, in this order. *)
Lemma convertParameter_Ok (fuel : nat) (param : Param.t) (opt : mcp.ToolOption) :
  convertParameter c fuel param = Ok opt ->
  exists t typed,
    opt = createToolOption t
            (if String.eqb (Param.In param) "body" then "body"
             else Param.In param +:+ "|" +:+ Param.Name param)
            ([mcp.Description (Param.Description param)]
             ++ (if Param.Required param then [mcp.Required] else [])
             ++ typed
             ++ match refValue (Param.Schema param) with
                | Some schema =>
                    let s := deref (GetStore (parser c)) schema in
                    (if (0 <? length (Schema.Enum s))%nat
                     then [mcp.Enum (map enumString (Schema.Enum s))] else [])
                    ++ (if isNil (Schema.Example s) then []
                        else [mcp.DefaultString (Sprint (Schema.Example s))])
                | None => []
                end)
    /\ match refValue (Param.Schema param) with
       | Some schema =>
           parameterType c fuel schema [] = Ok (t, typed)
       | None => t = PropertyTypeString /\ typed = []
       end.
Proof.
  unfold convertParameter. intros Hrun.
  destruct (refValue (Param.Schema param)) as [schema|]; simpl in Hrun.
  - set (s := deref (GetStore (parser c)) schema) in *.
    unfold parameterType in *. fold s in Hrun. fold s.
    destruct (Schema.Enum s) as [|e es]; simpl in Hrun |- *;
      destruct (isNil (Schema.Example s)); simpl in Hrun |- *;
      destruct (Param.Required param); simpl in Hrun |- *;
      repeat match type of Hrun with
             | context [walked ?w] => destruct (walked w); simpl in Hrun |- *; try done
             | context [match ?x with _ => _ end] =>
                 lazymatch x with
                 | String.eqb (Param.In param) "body" => fail
                 | _ => destruct x; simpl in Hrun |- *; try done
                 end
             end;
      revert Hrun;
      (destruct (String.eqb_spec (Param.In param) "body") as [Hbody|Hbody];
       [rewrite ?Hbody|]);
      intros Hrun; inversion Hrun; subst opt;
      eexists _, _; (split; [|reflexivity]); reflexivity.
  - exists PropertyTypeString, []. split; [|by split].
    revert Hrun.
    destruct (Param.Required param); simpl;
      (destruct (String.eqb_spec (Param.In param) "body") as [Hbody|Hbody];
       [rewrite ?Hbody|]);
      intros Hrun; by inversion Hrun.
Qed.

Lemma parameterType_typed (fuel : nat) (schema : ptr) (t : propertyType)
  (typed : list mcp.PropertyOption) :
  parameterType c fuel schema [] = Ok (t, typed) ->
  typed = [] \/ (exists item, typed = [mcp.Items item])
  \/ (exists obj, typed = [mcp.Properties obj]).
Proof.
  unfold parameterType. intros Hrun.
  repeat match type of Hrun with
         | context [walked ?w] => destruct (walked w); simpl in Hrun; try done
         | context [match ?x with _ => _ end] => destruct x; simpl in Hrun; try done
         end;
    inversion Hrun; subst; eauto.
Qed.

Lemma parameterType_kind (fuel : nat) (schema : ptr) (t : propertyType)
  (typed : list mcp.PropertyOption) :
  parameterType c fuel schema [] = Ok (t, typed) ->
  let s := deref (GetStore (parser c)) schema in
  match t with
  | PropertyTypeArray =>
      TypeIs (Schema.Type_ s) "array" = true /\ refValue (Schema.Items s) <> None
      /\ exists item, typed = [mcp.Items item]
  | PropertyTypeObject =>
      TypeIs (Schema.Type_ s) "object" = true /\ Schema.Properties s <> []
      /\ exists obj, typed = [mcp.Properties obj]
  | PropertyTypeInteger => TypeIs (Schema.Type_ s) "integer" = true /\ typed = []
  | PropertyTypeNumber => TypeIs (Schema.Type_ s) "number" = true /\ typed = []
  | PropertyTypeBoolean => TypeIs (Schema.Type_ s) "boolean" = true /\ typed = []
  | PropertyTypeString =>
      typed = []
      /\ (TypeIs (Schema.Type_ s) "array" = false \/ refValue (Schema.Items s) = None)
      /\ (TypeIs (Schema.Type_ s) "object" = false \/ Schema.Properties s = [])
      /\ TypeIs (Schema.Type_ s) "integer" = false
      /\ TypeIs (Schema.Type_ s) "number" = false
      /\ TypeIs (Schema.Type_ s) "boolean" = false
  end.
Proof.
  intros Hrun. cbv zeta. unfold parameterType in Hrun.
  set (s := deref (GetStore (parser c)) schema) in *.
  assert (Hrest :
            (if TypeIs (Schema.Type_ s) "object" && (0 <? length (Schema.Properties s))%nat
             then
               do* obj := walked (processSchemaProperties (GetStore (parser c)) fuel schema) in
               Ok (PropertyTypeObject, [] ++ [mcp.Properties obj])
             else if TypeIs (Schema.Type_ s) "integer" then Ok (PropertyTypeInteger, [])
             else if TypeIs (Schema.Type_ s) "number" then Ok (PropertyTypeNumber, [])
             else if TypeIs (Schema.Type_ s) "boolean" then Ok (PropertyTypeBoolean, [])
             else Ok (PropertyTypeString, [])) = Ok (t, typed) ->
            match t with
            | PropertyTypeArray => False
            | PropertyTypeObject =>
                TypeIs (Schema.Type_ s) "object" = true /\ Schema.Properties s <> []
                /\ exists obj, typed = [mcp.Properties obj]
            | PropertyTypeInteger => TypeIs (Schema.Type_ s) "integer" = true /\ typed = []
            | PropertyTypeNumber => TypeIs (Schema.Type_ s) "number" = true /\ typed = []
            | PropertyTypeBoolean => TypeIs (Schema.Type_ s) "boolean" = true /\ typed = []
            | PropertyTypeString =>
                typed = []
                /\ (TypeIs (Schema.Type_ s) "object" = false \/ Schema.Properties s = [])
                /\ TypeIs (Schema.Type_ s) "integer" = false
                /\ TypeIs (Schema.Type_ s) "number" = false
                /\ TypeIs (Schema.Type_ s) "boolean" = false
            end).
  { clear Hrun. intros Hrun.
    destruct (TypeIs (Schema.Type_ s) "object") eqn:Hobject; simpl in Hrun.
    - destruct (Schema.Properties s) as [|prop props] eqn:Hprops; simpl in Hrun.
      + destruct (TypeIs (Schema.Type_ s) "integer") eqn:Hinteger;
          [|destruct (TypeIs (Schema.Type_ s) "number") eqn:Hnumber;
            [|destruct (TypeIs (Schema.Type_ s) "boolean") eqn:Hboolean]];
          inversion Hrun; subst; auto 10.
      + destruct (walked _) as [obj| | |]; simpl in Hrun; try done.
        inversion Hrun; subst. split_and!; [done|done|by exists obj].
    - destruct (TypeIs (Schema.Type_ s) "integer") eqn:Hinteger;
        [|destruct (TypeIs (Schema.Type_ s) "number") eqn:Hnumber;
          [|destruct (TypeIs (Schema.Type_ s) "boolean") eqn:Hboolean]];
        inversion Hrun; subst; auto 10. }
  destruct (TypeIs (Schema.Type_ s) "array") eqn:Harray.
  - destruct (refValue (Schema.Items s)) as [items|] eqn:Hitems.
    + destruct (walked _) as [item| | |]; simpl in Hrun; try done.
      inversion Hrun; subst. split_and!; [done|done|by exists item].
    + apply Hrest in Hrun. destruct t; intuition.
  - assert (Hrun' := Hrun). destruct (refValue (Schema.Items s)); apply Hrest in Hrun;
      destruct t; intuition.
Qed.

End ParameterArgument.

Ltac types_clash :=
  repeat match goal with
         | H1 : TypeIs ?t ?a = true, H2 : TypeIs ?t ?b = true |- _ =>
             lazymatch a with b => fail | _ => idtac end;
             by pose proof (TypeIs_unique t a b H1 H2)
         end;
  try congruence.

(** X10. The argument [convertParameters] declares for a parameter is named
    [body] for a parameter in the body and [{in}|{name}] otherwise, is
    required exactly when the parameter is, carries the parameter's
    description, lists the schema's enumeration with every value that is
    not a string rendered as one, and takes the rendered example of the
    schema as its default; without a schema, or without enumeration or
    example, it has no [enum] or [default]. *)
Theorem parameter_argument_descriptor {L : GoLib} (c : Converter) (fuel : nat)
  (param : Param.t) (opt : mcp.ToolOption) :
  convertParameter c fuel param = Ok opt ->
  exists a,
    mcp.argument opt = Some a
    /\ mcp.ArgName a = (if String.eqb (Param.In param) "body" then "body"
                        else Param.In param +:+ "|" +:+ Param.Name param)
    /\ mcp.ArgRequired a = Param.Required param
    /\ mapGet "required" (mcp.ArgSchema a) = None
    /\ mapGet "description" (mcp.ArgSchema a) = Some (Str (Param.Description param))
    /\ mapGet "enum" (mcp.ArgSchema a)
       = match refValue (Param.Schema param) with
         | Some schema =>
             let s := deref (GetStore (parser c)) schema in
             if (0 <? length (Schema.Enum s))%nat
             then Some (Strs (map enumString (Schema.Enum s))) else None
         | None => None
         end
    /\ mapGet "default" (mcp.ArgSchema a)
       = match refValue (Param.Schema param) with
         | Some schema =>
             let s := deref (GetStore (parser c)) schema in
             if isNil (Schema.Example s) then None
             else Some (Str (Sprint (Schema.Example s)))
         | None => None
         end.
Proof.
  intros Hrun.
  destruct (convertParameter_Ok c fuel param opt Hrun) as (t & typed & -> & Hty).
  set (name := if String.eqb (Param.In param) "body" then "body"
               else Param.In param +:+ "|" +:+ Param.Name param).
  destruct (refValue (Param.Schema param)) as [schema|].
  - apply parameterType_typed in Hty. cbv zeta.
    destruct (0 <? length (Schema.Enum (deref (GetStore (parser c)) schema)))%nat,
      (isNil (Schema.Example (deref (GetStore (parser c)) schema))),
      (Param.Required param);
      destruct Hty as [->|[[item ->]|[obj ->]]];
      destruct t; eexists; (split; [reflexivity|]); split_and!; reflexivity.
  - destruct Hty as [-> ->].
    destruct (Param.Required param); eexists; (split; [reflexivity|]);
      split_and!; reflexivity.
Qed.

Lemma parameter_argument_descriptor_witness :
  exists a,
    mcp.argument
      (mcp.WithString "path|id" [mcp.Description "pet id"; mcp.Required]) = Some a
    /\ mcp.ArgName a = "path|id"
    /\ mcp.ArgRequired a = true.
Proof.
  destruct (parameter_argument_descriptor (L := Sample.lib)
              (Sample.converter [Sample.apiServer]) 3
              {| Param.Name := "id"; Param.In := "path"; Param.Description := "pet id";
                 Param.Required := true; Param.Schema := Some (refTo 0%nat) |}
              (mcp.WithString "path|id" [mcp.Description "pet id"; mcp.Required])
              eq_refl) as (a & Ha & Hname & Hreq & _).
  exists a. split_and!; [exact Ha|exact Hname|exact Hreq].
Defined.

(** X11. The JSON type of a parameter's argument is one of string, number,
    boolean, object and array, never integer. It is array exactly for an
    array schema that has an item schema, object exactly for an object
    schema that has properties, number exactly for an integer or number
    schema, boolean exactly for a boolean schema, and string in every other
    case: without a schema, without a type, with several types, and for an
    array without items or an object without properties. *)
Theorem parameter_argument_type {L : GoLib} (c : Converter) (fuel : nat)
  (param : Param.t) (opt : mcp.ToolOption) :
  convertParameter c fuel param = Ok opt ->
  exists a ty,
    mcp.argument opt = Some a
    /\ mapGet "type" (mcp.ArgSchema a) = Some (Str ty)
    /\ In ty ["string"; "number"; "boolean"; "object"; "array"]
    /\ (ty = "array" <->
        exists schema,
          refValue (Param.Schema param) = Some schema
          /\ TypeIs (Schema.Type_ (deref (GetStore (parser c)) schema)) "array" = true
          /\ refValue (Schema.Items (deref (GetStore (parser c)) schema)) <> None)
    /\ (ty = "object" <->
        exists schema,
          refValue (Param.Schema param) = Some schema
          /\ TypeIs (Schema.Type_ (deref (GetStore (parser c)) schema)) "object" = true
          /\ Schema.Properties (deref (GetStore (parser c)) schema) <> [])
    /\ (ty = "number" <->
        exists schema,
          refValue (Param.Schema param) = Some schema
          /\ (TypeIs (Schema.Type_ (deref (GetStore (parser c)) schema)) "integer" = true
              \/ TypeIs (Schema.Type_ (deref (GetStore (parser c)) schema)) "number" = true))
    /\ (ty = "boolean" <->
        exists schema,
          refValue (Param.Schema param) = Some schema
          /\ TypeIs (Schema.Type_ (deref (GetStore (parser c)) schema)) "boolean" = true).
Proof.
  intros Hrun.
  destruct (convertParameter_Ok c fuel param opt Hrun) as (t & typed & -> & Hty).
  set (name := if String.eqb (Param.In param) "body" then "body"
               else Param.In param +:+ "|" +:+ Param.Name param).
  destruct (refValue (Param.Schema param)) as [schema|].
  - apply parameterType_kind in Hty. cbv zeta in *.
    set (s := deref (GetStore (parser c)) schema) in *.
    assert (Hsome : forall P : ptr -> Prop,
               (exists schema', Some schema = Some schema' /\ P schema') <-> P schema).
    { intros P. split; [by intros (schema' & [= <-] & HP)|by exists schema]. }
    destruct (0 <? length (Schema.Enum s))%nat, (isNil (Schema.Example s)),
      (Param.Required param);
      destruct t; destruct_and?;
      repeat match goal with
             | H : exists _, typed = _ |- _ => destruct H as [? ->]
             | H : typed = [] |- _ => rewrite H
             end;
      eexists _, _; (split_and!; [reflexivity|reflexivity|simpl; tauto|..]);
      rewrite Hsome; subst s;
      (split;
       [intros Hty'; try done; auto
       |intros; destruct_and?; destruct_or?; try done; try congruence; types_clash]).
  - destruct Hty as [-> ->].
    destruct (Param.Required param); eexists _, "string";
      (split_and!; [reflexivity|reflexivity|simpl; tauto|..]);
      (split; [done|by intros (schema & Heq & _)]).
Qed.

Lemma parameter_argument_type_witness :
  exists a,
    mcp.argument (mcp.WithNumber "query|limit" [mcp.Description "page size"]) = Some a
    /\ mapGet "type" (mcp.ArgSchema a) = Some (Str "number").
Proof.
  destruct (parameter_argument_type (L := Sample.lib) Examples.scalarConverter 3
              Examples.limit (mcp.WithNumber "query|limit" [mcp.Description "page size"])
              eq_refl) as (a & ty & Ha & Hty & _ & _ & _ & Hnumber & _).
  exists a. split; [exact Ha|].
  rewrite Hty. f_equal. f_equal. apply Hnumber.
  exists 0%nat. split; [reflexivity|]. left. reflexivity.
Defined.

(** ** The arguments of a request body *)

Section BodyArguments.

Context {L : GoLib}.

Variable c : Converter.

Lemma bodyType_Ok (fuel : nat) (schema : ptr) (base opts : list mcp.PropertyOption)
  (t : propertyType) :
  bodyType c fuel schema base = Ok (t, opts) ->
  exists typed,
    opts = base ++ typed
    /\ (typed = [] \/ (exists item, typed = [mcp.Items item])
        \/ (exists obj, typed = [mcp.Properties obj]))
    /\ (Schema.Type_ (deref (GetStore (parser c)) schema) = None ->
        t = PropertyTypeObject /\ typed = []).
Proof.
  unfold bodyType. intros Hrun.
  destruct (Schema.Type_ (deref (GetStore (parser c)) schema)) as [types|].
  - repeat match type of Hrun with
           | context [walked ?w] => destruct (walked w); simpl in Hrun; try done
           | context [match ?x with _ => _ end] => destruct x; simpl in Hrun; try done
           end;
      inversion Hrun; subst;
      first [ exists []; rewrite app_nil_r; split_and!; [done|by left|done]
            | eexists [_]; split_and!; [done|eauto|done] ].
  - inversion Hrun; subst. exists []. rewrite app_nil_r. by split_and!; [|left|].
Qed.

End BodyArguments.

(** X12. [convertRequestBody] declares one argument for every media type
    of the body that has a schema, in the order it meets them, and every
    one of them under the same name [body]. Each is required exactly when
    the body is, carries the body's description when that is not empty and
    none otherwise, and has one of the five JSON types; a schema without a
    type gives an object argument with no properties. *)
Theorem request_body_arguments {L : GoLib} (c : Converter) (fuel : nat)
  (requestBody : RequestBody.t) (args : list mcp.ToolOption) :
  convertRequestBody c fuel requestBody = Ok args ->
  Forall2
    (fun (schema : ptr) (opt : mcp.ToolOption) =>
       exists a ty,
         mcp.argument opt = Some a
         /\ mcp.ArgName a = "body"
         /\ mcp.ArgRequired a = RequestBody.Required requestBody
         /\ mapGet "description" (mcp.ArgSchema a)
            = (if nonEmpty (RequestBody.Description requestBody)
               then Some (Str (RequestBody.Description requestBody)) else None)
         /\ mapGet "type" (mcp.ArgSchema a) = Some (Str ty)
         /\ In ty ["string"; "number"; "boolean"; "object"; "array"]
         /\ (Schema.Type_ (deref (GetStore (parser c)) schema) = None ->
             ty = "object" /\ mapGet "properties" (mcp.ArgSchema a) = Some (Map [])))
    (omap (fun entry : string * MediaType => refValue (MediaType_Schema (snd entry)))
       (RequestBody.Content requestBody))
    args.
Proof.
  unfold convertRequestBody. generalize (RequestBody.Content requestBody) as content.
  intros content. revert args.
  induction content as [|[contentType mediaType] content IH]; intros args Hrun;
    simpl in Hrun |- *.
  - inversion Hrun. constructor.
  - destruct (refValue (MediaType_Schema mediaType)) as [schema|]; [|by apply IH].
    destruct (bodyType c fuel schema _) as [[t opts]| | |] eqn:Hty; simpl in Hrun; try done.
    destruct (convertContent c fuel requestBody content) as [rest| | |]; simpl in Hrun;
      try done.
    inversion Hrun; subst args; clear Hrun. constructor; [|by apply IH].
    apply bodyType_Ok in Hty as (typed & -> & Htyped & Hnone).
    destruct (Schema.Type_ (deref (GetStore (parser c)) schema)) as [types|].
    + destruct (nonEmpty (RequestBody.Description requestBody)),
        (RequestBody.Required requestBody);
        destruct Htyped as [->|[[item ->]|[obj ->]]];
        destruct t; eexists _, _;
        (split_and!; [reflexivity|reflexivity|reflexivity|reflexivity|reflexivity
                     |simpl; tauto|done]).
    + destruct (Hnone eq_refl) as [-> ->].
      destruct (nonEmpty (RequestBody.Description requestBody)),
        (RequestBody.Required requestBody);
        eexists _, _;
        (split_and!; [reflexivity|reflexivity|reflexivity|reflexivity|reflexivity
                     |simpl; tauto|by intros _]).
Qed.

Lemma request_body_arguments_witness :
  exists a,
    mcp.argument (mcp.WithNumber "body" [mcp.Description "payload"; mcp.Required]) = Some a
    /\ mcp.ArgName a = "body"
    /\ mcp.ArgRequired a = true.
Proof.
  pose proof (request_body_arguments (L := Sample.lib) Examples.scalarConverter 3
                Examples.payload
                [mcp.WithNumber "body" [mcp.Description "payload"; mcp.Required]]
                eq_refl) as Hargs.
  apply Forall2_cons_1 in Hargs as [(a & ty & Ha & Hname & Hrequired & _) _].
  exists a. split_and!; [exact Ha|exact Hname|exact Hrequired].
Defined.

(** ** Security arguments *)

Lemma convertSecurityRequirements_In (c : Converter)
  (securityRequirements : list SecurityRequirement) (opt : mcp.ToolOption) :
  In opt (convertSecurityRequirements c securityRequirements) ->
  exists document components requirement schemeName scopes scheme,
    GetDocument (parser c) = Some document
    /\ DocComponents document = Some components
    /\ In requirement securityRequirements
    /\ In (schemeName, scopes) requirement
    /\ mapGet schemeName (SecuritySchemes components)
       = Some {| SecurityScheme_Value := Some scheme |}
    /\ In opt (securityOptions schemeName scopes scheme).
Proof.
  unfold convertSecurityRequirements.
  destruct (GetDocument (parser c)) as [document|] eqn:Hdoc; [|done].
  destruct (DocComponents document) as [components|] eqn:Hcomponents; [|done].
  destruct (length (SecuritySchemes components) =? 0)%nat; [done|].
  intros (requirement & Hreq & Hin)%in_flat_map.
  apply in_flat_map in Hin as ([schemeName scopes] & Hscheme & Hin).
  destruct (mapGet schemeName (SecuritySchemes components)) as [[[scheme|]]|] eqn:Hget;
    try done.
  exists document, components, requirement, schemeName, scopes, scheme.
  split_and!; done.
Qed.

Lemma getArgsStep_credential (arg : Args) (rest value : string) :
  exists arg',
    getArgsStep arg ("openapi|auth_" +:+ rest) (Str value) = Ok arg'
    /\ ServerAddr arg' = ServerAddr arg /\ Headers arg' = Headers arg
    /\ ArgBody arg' = ArgBody arg /\ Query arg' = Query arg
    /\ Path arg' = Path arg /\ Forms arg' = Forms arg
    /\ (AuthToken arg' = value \/ AuthUsername arg' = value
        \/ AuthPassword arg' = value \/ AuthOAuth2Token arg' = value).
Proof.
  unfold getArgsStep.
  change ("openapi|auth_" +:+ rest) with ("openapi|" +:+ ("auth_" +:+ rest)).
  rewrite HasPrefix_append, TrimPrefix_append.
  change ("auth_" +:+ rest)
    with (String "a" (String "u" (String "t" (String "h" (String "_" rest))))).
  simpl.
  repeat match goal with
         | |- context [if ?b then _ else _] => destruct b
         end;
    eexists; (split; [reflexivity|]); simpl; tauto.
Qed.

(** X13. Every argument [convertSecurityRequirements] declares is a
    required string with a description, named under the prefix
    [openapi|auth_]. Each comes from a requirement that names a scheme the
    document's components define; a scheme of a type other than apiKey,
    http basic, http bearer and oauth2 gets no argument. The handler
    accepts each of them:
    for a string value [getArgs] stores it in one of its four credential
    slots and leaves the server address, the headers, the body, the query,
    the path and the form fields untouched. *)
Theorem security_arguments (c : Converter)
  (securityRequirements : list SecurityRequirement) :
  (forall opt,
      In opt (convertSecurityRequirements c securityRequirements) ->
      exists a description,
        mcp.argument opt = Some a
        /\ strings.HasPrefix (mcp.ArgName a) "openapi|auth_" = true
        /\ mcp.ArgRequired a = true
        /\ mcp.ArgSchema a = [("type", Str "string"); ("description", Str description)]
        /\ forall (arg : Args) (value : string),
             exists arg',
               getArgsStep arg (mcp.ArgName a) (Str value) = Ok arg'
               /\ ServerAddr arg' = ServerAddr arg /\ Headers arg' = Headers arg
               /\ ArgBody arg' = ArgBody arg /\ Query arg' = Query arg
               /\ Path arg' = Path arg /\ Forms arg' = Forms arg
               /\ (AuthToken arg' = value \/ AuthUsername arg' = value
                   \/ AuthPassword arg' = value \/ AuthOAuth2Token arg' = value))
  /\ (forall opt,
         In opt (convertSecurityRequirements c securityRequirements) ->
         exists document components requirement schemeName scopes scheme,
           GetDocument (parser c) = Some document
           /\ DocComponents document = Some components
           /\ In requirement securityRequirements
           /\ In (schemeName, scopes) requirement
           /\ mapGet schemeName (SecuritySchemes components)
              = Some {| SecurityScheme_Value := Some scheme |}
           /\ In opt (securityOptions schemeName scopes scheme))
  /\ (forall schemeName scopes scheme,
         SecurityScheme_Type scheme <> "apiKey" ->
         SecurityScheme_Type scheme <> "oauth2" ->
         (SecurityScheme_Type scheme = "http" ->
          SecurityScheme_Scheme scheme <> "basic"
          /\ SecurityScheme_Scheme scheme <> "bearer") ->
         securityOptions schemeName scopes scheme = []).
Proof.
  split; [|split; [apply convertSecurityRequirements_In|]].
  - intros opt Hin.
    apply convertSecurityRequirements_In
      in Hin as (_ & _ & _ & schemeName & scopes & scheme & _ & _ & _ & _ & _ & Hin).
    unfold securityOptions in Hin.
    repeat match type of Hin with
           | context [if ?b then _ else _] => destruct b
           end;
      simpl in Hin; destruct_or?; try done; subst opt;
      eexists _, _; (split_and!; [reflexivity|..]);
      try reflexivity; simpl;
      try apply HasPrefix_append;
      intros arg value;
      first [ exact (getArgsStep_credential arg schemeName value)
            | exact (getArgsStep_credential arg "username" value)
            | exact (getArgsStep_credential arg "password" value)
            | exact (getArgsStep_credential arg "token" value)
            | exact (getArgsStep_credential arg "oauth2_token" value) ].
  - intros schemeName scopes scheme Hkey Hoauth Hhttp. unfold securityOptions.
    destruct (String.eqb_spec (SecurityScheme_Type scheme) "apiKey"); [done|].
    destruct (String.eqb_spec (SecurityScheme_Type scheme) "oauth2"); [done|].
    destruct (String.eqb_spec (SecurityScheme_Type scheme) "http") as [Heq|]; [|done].
    destruct (Hhttp Heq).
    destruct (String.eqb_spec (SecurityScheme_Scheme scheme) "basic"); [done|].
    by destruct (String.eqb_spec (SecurityScheme_Scheme scheme) "bearer").
Qed.

(** ** Path parameters *)

Lemma replaceFrom_absent (c : ascii) (old new s : string) :
  hasByte c s = false -> strings.replaceFrom (String c old) new 0 s = s.
Proof.
  induction s as [|ch s IH]; simpl; [done|].
  intros [Hch Hs]%orb_false_elim. rewrite (Ascii.eqb_sym c ch), Hch. simpl.
  by rewrite IH.
Qed.

Lemma replaceFrom_prefix (c : ascii) (old new pre s : string) :
  hasByte c pre = false ->
  strings.replaceFrom (String c old) new 0 (pre +:+ s)
  = pre +:+ strings.replaceFrom (String c old) new 0 s.
Proof.
  induction pre as [|ch pre IH]; [done|]. simpl hasByte.
  intros [Hch Hpre]%orb_false_elim.
  change (String ch pre +:+ s) with (String ch (pre +:+ s)).
  change (String ch pre +:+ strings.replaceFrom (String c old) new 0 s)
    with (String ch (pre +:+ strings.replaceFrom (String c old) new 0 s)).
  simpl. rewrite (Ascii.eqb_sym c ch), Hch. simpl. by rewrite IH.
Qed.

Lemma replaceFrom_skip (old new x s : string) :
  strings.replaceFrom old new (String.length x) (x +:+ s) = strings.replaceFrom old new 0 s.
Proof.
  induction x as [|ch x IH]; [done|].
  change (String ch x +:+ s) with (String ch (x +:+ s)). simpl. apply IH.
Qed.

Lemma ReplaceAll_once (c : ascii) (old new pre post : string) :
  hasByte c pre = false -> hasByte c post = false ->
  strings.ReplaceAll (pre +:+ String c old +:+ post) (String c old) new
  = pre +:+ new +:+ post.
Proof.
  intros Hpre Hpost. unfold strings.ReplaceAll.
  rewrite replaceFrom_prefix by done.
  change (String c old +:+ post) with (String c (old +:+ post)).
  change (strings.replaceFrom (String c old) new 0 (String c (old +:+ post)))
    with (if strings.HasPrefix (String c (old +:+ post)) (String c old)
          then new +:+ strings.replaceFrom (String c old) new
                         (String.length (String c old) - 1) (old +:+ post)
          else String c (strings.replaceFrom (String c old) new 0 (old +:+ post))).
  change (String c (old +:+ post)) with (String c old +:+ post) at 1.
  rewrite HasPrefix_append.
  replace (String.length (String c old) - 1)%nat with (String.length old)
    by (simpl; lia).
  by rewrite replaceFrom_skip, replaceFrom_absent.
Qed.

(** X14. A path template without a brace is sent as it is, whatever path
    arguments the call supplies. Where the template has one placeholder
    [{name}] and the call supplies the path argument [name] alone, the
    placeholder is replaced by the rendered value and the text before and
    after it is kept. *)
Theorem path_parameter_substitution {L : GoLib} (pre : string) :
  hasByte "{" pre = false ->
  (forall arg : Args, finalPath pre arg = pre)
  /\ (forall (arg : Args) (name post : string) (value : any),
         hasByte "{" post = false ->
         Path arg = [(name, value)] ->
         finalPath (pre +:+ "{" +:+ name +:+ "}" +:+ post) arg
         = pre +:+ Sprint value +:+ post).
Proof.
  intros Hpre. split.
  - intros arg. unfold finalPath.
    induction (Path arg) as [|[paramName paramValue] params IH]; simpl; [done|].
    change ("{" +:+ paramName +:+ "}") with (String "{" (paramName +:+ "}")).
    unfold strings.ReplaceAll. by rewrite replaceFrom_absent.
  - intros arg name post value Hpost Hpath. unfold finalPath. rewrite Hpath. simpl.
    change ("{" +:+ name +:+ "}") with (String "{" (name +:+ "}")).
    change ("{" +:+ name +:+ "}" +:+ post) with (String "{" (name +:+ "}" +:+ post)).
    rewrite <- (append_assoc' name "}" post).
    change (String "{" ((name +:+ "}") +:+ post))
      with (String "{" (name +:+ "}") +:+ post).
    by apply ReplaceAll_once.
Qed.

Lemma path_parameter_substitution_witness :
  finalPath (L := Sample.lib) ("/pets/" +:+ "{" +:+ "id" +:+ "}" +:+ "/toys")
    {| ServerAddr := ""; AuthToken := ""; AuthUsername := ""; AuthPassword := "";
       AuthOAuth2Token := ""; Headers := []; ArgBody := Nil; Query := [];
       Path := [("id", Str "42")]; Forms := [] |}
  = "/pets/" +:+ Sprint (GoLib := Sample.lib) (Str "42") +:+ "/toys".
Proof.
  exact (proj2 (path_parameter_substitution (L := Sample.lib) "/pets/" eq_refl)
           {| ServerAddr := ""; AuthToken := ""; AuthUsername := ""; AuthPassword := "";
              AuthOAuth2Token := ""; Headers := []; ArgBody := Nil; Query := [];
              Path := [("id", Str "42")]; Forms := [] |}
           "id" "/toys" (Str "42") eq_refl eq_refl).
Defined.

(** ** Header arguments *)

Lemma Values_Add_In (key value : string) (v : Values) :
  In value (default [] (mapGet key (Values_Add key value v))).
Proof.
  unfold Values_Add. destruct (mapGet key v) as [old|]; rewrite mapGet_mapSet_eq; simpl.
  - apply in_or_app. right. by left.
  - by left.
Qed.

Lemma Values_Add_keeps (key key' value x : string) (v : Values) :
  In x (default [] (mapGet key v)) ->
  In x (default [] (mapGet key (Values_Add key' value v))).
Proof.
  intros Hin. unfold Values_Add. destruct (String.eqb_spec key' key) as [->|Hne].
  - destruct (mapGet key v) as [old|]; rewrite mapGet_mapSet_eq; simpl in *; [|done].
    apply in_or_app. by left.
  - destruct (mapGet key' v); by rewrite mapGet_mapSet_ne.
Qed.

Section HeaderArguments.

Context {L : GoLib}.

Lemma Header_Add_all_keeps (headers : list (string * any)) (h : Values) (key x : string) :
  In x (Header_Values key h) ->
  In x (Header_Values key
          (fold_left (fun header '(key, value) => Header_Add key (Sprint value) header)
             headers h)).
Proof.
  revert h. induction headers as [|[key' value'] headers IH]; intros h Hin; simpl; [done|].
  apply IH. unfold Header_Values, Header_Add in *. by apply Values_Add_keeps.
Qed.

Lemma Header_Add_all_In (headers : list (string * any)) (h : Values) (key : string)
  (value : any) :
  In (key, value) headers ->
  In (Sprint value)
    (Header_Values key
       (fold_left (fun header '(key, value) => Header_Add key (Sprint value) header)
          headers h)).
Proof.
  revert h. induction headers as [|[key' value'] headers IH]; intros h Hin; simpl; [done|].
  destruct Hin as [Heq|Hin]; [|by apply IH].
  inversion Heq; subst. apply Header_Add_all_keeps.
  unfold Header_Values, Header_Add. apply Values_Add_In.
Qed.

Lemma entriesUnder_In (pre name : string) (value : any) (bag : Bag) :
  In (pre +:+ name, value) bag -> In (name, value) (entriesUnder pre bag).
Proof.
  intros Hin. unfold entriesUnder. apply in_map_iff. exists (pre +:+ name, value).
  simpl. rewrite TrimPrefix_append. split; [done|].
  apply filter_In. split; [done|]. simpl. apply HasPrefix_append.
Qed.

End HeaderArguments.

(** X15. Every [header|name] argument of a call reaches the request: when
    the handler builds the request, the rendered value of the argument is
    among the values of the header [name], unless the canonical form of the
    name is Authorization or Content-Type, the two headers the handler
    sets itself. *)
Theorem header_arguments_are_sent {L : GoLib} (server : option Server)
  (path method : string) (bag : Bag) (req : Request) (name : string) (value : any) :
  NoDup (map fst bag) ->
  buildRequest server path method bag = Ok req ->
  In ("header|" +:+ name, value) bag ->
  CanonicalMIMEHeaderKey name <> "Authorization" ->
  CanonicalMIMEHeaderKey name <> "Content-Type" ->
  In (Sprint value) (Header_Values name (Header req)).
Proof.
  intros Hnd Hreq Hin Hauth Hcontent.
  apply buildRequest_Ok in Hreq
      as (arg & fullURL & parsedURL & Harg & _ & _ & _ & _ & Hrest).
  assert (Hheaders : Headers arg = entriesUnder "header|" bag)
    by (apply (getArgsFrom_field Headers "header|" getArgsStep_Headers bag [] emptyArgs);
        done).
  assert (Hsent : In (Sprint value)
                    (Header_Values name (applyAuth (authentication arg) (contentHeader arg)))).
  { assert (Hc : In (Sprint value) (Header_Values name (contentHeader arg))).
    { unfold contentHeader.
      assert (Hadd := Header_Add_all_In (Headers arg) [] name value).
      rewrite Hheaders in Hadd at 1. specialize (Hadd (entriesUnder_In _ _ _ _ Hin)).
      destruct (negb (isNil (ArgBody arg))); [|done].
      rewrite Header_Values_Set_ne; [done|]. by rewrite canonical_ContentType. }
    unfold applyAuth. destruct (authentication arg) as [auth|]; [|done].
    rewrite Header_Values_Set_ne; [done|]. by rewrite canonical_Authorization. }
  destruct (0 <? length (Forms arg))%nat.
  - destruct Hrest as (data & _ & -> & _).
    rewrite Header_Values_Set_ne; [done|]. by rewrite canonical_ContentType.
  - destruct Hrest as [-> _]. done.
Qed.

Lemma header_arguments_are_sent_witness :
  In (Sprint (GoLib := Sample.lib) (Str "1"))
    (Header_Values (L := Sample.lib) "X-Trace"
       [("X-Trace", [Sprint (GoLib := Sample.lib) (Str "1")])]).
Proof.
  refine (header_arguments_are_sent (L := Sample.lib) (Some Sample.apiServer)
            "/pets" "get" [("header|X-Trace", Str "1")]
            {| Method := "GET"; RequestURL := "https://api.example.com/pets";
               Header := [("X-Trace", [Sprint (GoLib := Sample.lib) (Str "1")])];
               Body := None |}
            "X-Trace" (Str "1") _ eq_refl (or_introl eq_refl) _ _).
  - apply (bool_decide_unpack _). vm_compute. reflexivity.
  - vm_compute. discriminate.
  - vm_compute. discriminate.
Defined.

(** ** Form fields *)

Lemma mapGet_None {V : Type} (k : string) (m : list (string * V)) :
  ~ In k (map fst m) -> mapGet k m = None.
Proof.
  induction m as [|[k' v'] m IH]; simpl; [done|]. intros Hk.
  destruct (String.eqb_spec k' k) as [->|Hne]; [tauto|]. apply IH. tauto.
Qed.

Section FormFields.

Context {L : GoLib}.

Lemma formData_Ok (forms : list (string * any)) (data0 data : Values) :
  NoDup (map fst data0 ++ map fst forms) ->
  formData forms data0 = Ok data ->
  exists fields, data = data0 ++ fields /\ Forall2 formField forms fields.
Proof.
  revert data0. induction forms as [|[key value] forms IH]; intros data0 Hnd Hrun;
    simpl in Hrun.
  - inversion Hrun; subst. exists []. by rewrite app_nil_r.
  - assert (Hfresh : ~ In key (map fst data0)).
    { apply NoDup_app in Hnd as (_ & Hdisj & _). intros Hin%list_elem_of_In.
      apply (Hdisj _ Hin). simpl. by left. }
    assert (Hadd : forall s, Values_Add key s data0 = data0 ++ [(key, [s])]).
    { intros s. unfold Values_Add. rewrite (mapGet_None _ _ Hfresh).
      by apply mapSet_fresh. }
    assert (Hnd' : forall s, NoDup (map fst (data0 ++ [(key, [s])]) ++ map fst forms)).
    { intros s. rewrite map_app, <- app_assoc. done. }
    assert (Hstep : forall s,
               match value with
               | Map _ => json_Marshal value = Some s
               | _ => s = Sprint value
               end ->
               formData forms (Values_Add key s data0) = Ok data ->
               exists fields,
                 data = data0 ++ fields /\ Forall2 formField ((key, value) :: forms) fields).
    { intros s Hs Hrest. rewrite Hadd in Hrest.
      destruct (IH _ (Hnd' s) Hrest) as (fields & -> & Hfields).
      exists ((key, [s]) :: fields). rewrite <- app_assoc. split; [done|].
      constructor; [|done]. split; [done|]. by exists s. }
    destruct value; try (by apply (Hstep _ eq_refl)).
    destruct (json_Marshal (Map m)) as [jsonStr|] eqn:Hm; [|done].
    by apply (Hstep jsonStr).
Qed.

Lemma formData_outcome (forms : list (string * any)) (data0 : Values) :
  match formData forms data0 with
  | Ok _ => True
  | Err _ => exists key m, In (key, Map m) forms /\ json_Marshal (Map m) = None
  | Panic _ | Diverge => False
  end.
Proof.
  revert data0. induction forms as [|[key value] forms IH]; intros data0; simpl; [done|].
  assert (Hrest : forall data1,
             match formData forms data1 with
             | Ok _ => True
             | Err _ =>
                 exists key' m,
                   ((key, value) = (key', Map m) \/ In (key', Map m) forms)
                   /\ json_Marshal (Map m) = None
             | Panic _ | Diverge => False
             end).
  { intros data1. specialize (IH data1). destruct (formData forms data1); try done.
    destruct IH as (key' & m & Hin & Hm). exists key', m. auto. }
  destruct value; try apply Hrest.
  destruct (json_Marshal (Map m)) as [jsonStr|] eqn:Hm; [apply Hrest|].
  exists key, m. auto.
Qed.

End FormFields.

(** X16. The form of a request has one field for every entry of the form
    arguments, in their order and under the same name, with a single
    value: the JSON of the entry's value when that is an object, and its
    rendering otherwise. Building the form never panics; it fails only
    when an object among the values cannot be marshalled. *)
Theorem form_fields {L : GoLib} (forms : list (string * any)) :
  NoDup (map fst forms) ->
  (forall data, formData forms [] = Ok data -> Forall2 formField forms data)
  /\ (forall msg,
         formData forms [] = Err msg ->
         exists key m, In (key, Map m) forms /\ json_Marshal (Map m) = None)
  /\ (forall msg, formData forms [] <> Panic msg)
  /\ formData forms [] <> Diverge.
Proof.
  intros Hnd. pose proof (formData_outcome forms []) as Hout. split_and!.
  - intros data Hrun. by destruct (formData_Ok forms [] data Hnd Hrun) as (fields & -> & ?).
  - intros msg Hrun. by rewrite Hrun in Hout.
  - intros msg Hrun. by rewrite Hrun in Hout.
  - intros Hrun. by rewrite Hrun in Hout.
Qed.

Lemma form_fields_witness :
  Forall2 (formField (L := Sample.lib))
    [("name", Str "rex"); ("age", Uint64 3)]
    [("name", [Sprint (GoLib := Sample.lib) (Str "rex")]);
     ("age", [Sprint (GoLib := Sample.lib) (Uint64 3)])].
Proof.
  refine (proj1 (form_fields (L := Sample.lib) [("name", Str "rex"); ("age", Uint64 3)] _)
            _ eq_refl).
  apply (bool_decide_unpack _). vm_compute. reflexivity.
Defined.

(** ** Name and description of a tool *)

Lemma HasPrefix_refl (s : string) : strings.HasPrefix s s = true.
Proof. rewrite <- (append_nil_r s) at 1. apply HasPrefix_append. Qed.

Lemma applyToolOption_Name (t : mcp.Tool.t) (opt : mcp.ToolOption) :
  mcp.Tool.Name (mcp.applyToolOption t opt) = mcp.Tool.Name t.
Proof.
  destruct opt; simpl; try done;
    unfold mcp.withProperty; by destruct (mcp.propertySchema _ _).
Qed.

Lemma fold_applyToolOption_Name (opts : list mcp.ToolOption) (t : mcp.Tool.t) :
  mcp.Tool.Name (fold_left mcp.applyToolOption opts t) = mcp.Tool.Name t.
Proof.
  revert t. induction opts as [|opt opts IH]; intros t; simpl; [done|].
  by rewrite IH, applyToolOption_Name.
Qed.

Lemma getDescription_deprecated (operation : Operation.t) :
  Operation.Deprecated operation = true ->
  exists pre, getDescription operation = pre +:+ "WARNING: This operation is deprecated.".
Proof.
  intros Hd. unfold getDescription. rewrite Hd.
  destruct (nonEmpty (Operation.Summary operation)),
    (nonEmpty (Operation.Description operation)); simpl.
  - eexists (Operation.Summary operation +:+ String "010" (String "010" "")
             +:+ Operation.Description operation +:+ String "010" (String "010" "")).
    by rewrite !append_assoc'.
  - eexists (Operation.Summary operation +:+ String "010" (String "010" "")).
    by rewrite !append_assoc'.
  - eexists (Operation.Description operation +:+ String "010" (String "010" "")).
    by rewrite !append_assoc'.
  - by exists "".
Qed.

(** X17. The tool [convertOperation] returns is named by the tool-name
    prefix followed by the operation id, whatever its arguments are. Its
    description is the one composed last: it starts with the operation's
    own description (summary, description and deprecation warning), is
    exactly that when the operation declares no responses, and for a
    deprecated operation the operation's own description ends with the
    warning. *)
Theorem tool_name_and_description {L : GoLib} (c : Converter) (fuel : nat)
  (path method : string) (operation : Operation.t) (tool : mcp.Tool.t) :
  convertOperation c fuel path method operation = Ok tool ->
  mcp.Tool.Name tool = ToolNamePrefix (options c) +:+ GetOperationID path method operation
  /\ toolDescription c fuel operation = Ok (mcp.Tool.Description tool)
  /\ strings.HasPrefix (mcp.Tool.Description tool) (getDescription operation) = true
  /\ (Operation.Responses operation = None ->
      mcp.Tool.Description tool = getDescription operation)
  /\ (Operation.Deprecated operation = true ->
      exists pre,
        getDescription operation = pre +:+ "WARNING: This operation is deprecated.").
Proof.
  unfold convertOperation, operationOptions. intros Hrun.
  destruct (convertParameters c fuel (Operation.Parameters operation)) as [args| | |];
    simpl in Hrun; try done.
  match type of Hrun with
  | obind (obind ?m _) _ = _ => destruct m as [args'| | |]; simpl in Hrun; try done
  end.
  destruct (toolDescription c fuel operation) as [description| | |] eqn:Hdesc;
    simpl in Hrun; try done.
  inversion Hrun; subst tool; clear Hrun.
  unfold mcp.NewTool. rewrite fold_left_app. simpl.
  rewrite fold_applyToolOption_Name. simpl.
  split_and!.
  - apply toolName_prefix.
  - done.
  - unfold toolDescription in Hdesc.
    destruct (Operation.Responses operation) as [responses|].
    + destruct (generateResponseDescription c fuel responses) as [responseDesc| | |];
        simpl in Hdesc; try done.
      destruct (nonEmpty responseDesc); inversion Hdesc; subst.
      * apply HasPrefix_append.
      * apply HasPrefix_refl.
    + inversion Hdesc. apply HasPrefix_refl.
  - intros Hnone. unfold toolDescription in Hdesc. rewrite Hnone in Hdesc.
    by inversion Hdesc.
  - apply getDescription_deprecated.
Qed.

Lemma tool_name_and_description_witness :
  mcp.Tool.Name
    (mcp.NewTool "get_pets_id"
       [mcp.WithString "path|id" [mcp.Description "pet id"; mcp.Required];
        serverAddrOption [Sample.apiServer];
        mcp.WithDescription "Find a pet"])
  = ToolNamePrefix (options (Sample.converter [Sample.apiServer]))
    +:+ GetOperationID "/pets/{id}" "get" Sample.getPet.
Proof.
  exact (proj1 (tool_name_and_description (L := Sample.lib)
                  (Sample.converter [Sample.apiServer]) 3 "/pets/{id}" "get" Sample.getPet
                  _ eq_refl)).
Defined.

(** ** Query arguments *)

Section QueryArguments.

Context {L : GoLib}.

Lemma Values_Add_all_keeps (entries : list (string * any)) (q : Values) (key x : string) :
  In x (default [] (mapGet key q)) ->
  In x (default [] (mapGet key
          (fold_left (fun q '(key, value) => Values_Add key (Sprint value) q) entries q))).
Proof.
  revert q. induction entries as [|[key' value'] entries IH]; intros q Hin; simpl; [done|].
  apply IH. by apply Values_Add_keeps.
Qed.

Lemma Values_Add_all_In (entries : list (string * any)) (q : Values) (key : string)
  (value : any) :
  In (key, value) entries ->
  In (Sprint value)
    (default [] (mapGet key
       (fold_left (fun q '(key, value) => Values_Add key (Sprint value) q) entries q))).
Proof.
  revert q. induction entries as [|[key' value'] entries IH]; intros q Hin; simpl; [done|].
  destruct Hin as [Heq|Hin]; [|by apply IH].
  inversion Heq; subst. apply Values_Add_all_keeps, Values_Add_In.
Qed.

End QueryArguments.

(** X18. When the handler builds the request, the URL is the joined and
    parsed address as it is if the call has no [query|] argument.
    Otherwise its query is replaced by the encoding of a set of values
    that keeps every value the parsed address already had in its query and
    has, under each [query|name] argument's name, the rendered value of
    that argument. *)
Theorem query_arguments_are_added {L : GoLib} (server : option Server)
  (path method : string) (bag : Bag) (req : Request) :
  NoDup (map fst bag) ->
  buildRequest server path method bag = Ok req ->
  exists arg fullURL parsedURL,
    getArgs bag = Ok arg
    /\ url_JoinPath (serverURL server arg) (finalPath path arg) = Some fullURL
    /\ url_Parse fullURL = Some parsedURL
    /\ if (0 <? length (entriesUnder "query|" bag))%nat
       then exists q,
           RequestURL req = URL_String (URL_setRawQuery parsedURL (Values_Encode q))
           /\ (forall name value,
                  In ("query|" +:+ name, value) bag ->
                  In (Sprint value) (default [] (mapGet name q)))
           /\ (forall key x,
                  In x (default [] (mapGet key (URL_Query parsedURL))) ->
                  In x (default [] (mapGet key q)))
       else RequestURL req = URL_String parsedURL.
Proof.
  intros Hnd Hreq.
  apply buildRequest_Ok in Hreq
      as (arg & fullURL & parsedURL & Harg & Hjoin & Hparse & _ & Hurl & _).
  exists arg, fullURL, parsedURL. split_and!; try done.
  assert (Hquery : Query arg = entriesUnder "query|" bag)
    by (apply (getArgsFrom_field Query "query|" getArgsStep_Query bag [] emptyArgs); done).
  unfold withQuery in Hurl. rewrite Hquery in Hurl.
  destruct (0 <? length (entriesUnder "query|" bag))%nat; [|done].
  eexists. split_and!; [exact Hurl| |].
  - intros name value Hin. by apply Values_Add_all_In, entriesUnder_In.
  - intros key x Hin. by apply Values_Add_all_keeps.
Qed.

Lemma query_arguments_are_added_witness :
  exists arg fullURL,
    getArgs [("query|limit", Uint64 10)] = Ok arg
    /\ url_JoinPath (GoLib := Sample.lib) (serverURL (Some Sample.apiServer) arg)
         (finalPath (L := Sample.lib) "/pets" arg) = Some fullURL.
Proof.
  assert (Hreq : { req | buildRequest (L := Sample.lib) (Some Sample.apiServer) "/pets" "get"
                           [("query|limit", Uint64 10)] = Ok req })
    by (eexists; lazy; reflexivity).
  destruct Hreq as [req Hreq].
  assert (Hnd : NoDup (map fst [("query|limit", Uint64 10)]))
    by (apply (bool_decide_unpack _); vm_compute; reflexivity).
  destruct (query_arguments_are_added (L := Sample.lib) _ _ _ _ _ Hnd Hreq)
    as (arg & fullURL & parsedURL & Harg & Hjoin & _).
  by exists arg, fullURL.
Defined.

(** ** Outcomes of a call *)

Section HandlerOutcomes.

Context {L : GoLib}.

Lemma getArgsFrom_outcome (bag : Bag) (arg : Args) :
  match getArgsFrom arg bag with
  | Ok _ | Panic _ => True
  | Err _ | Diverge => False
  end.
Proof.
  revert arg. induction bag as [|[k v] bag IH]; intros arg; simpl; [done|].
  destruct (getArgsStep_cases arg k v) as [[arg' ->]| ->]; simpl; [apply IH|done].
Qed.

Lemma buildRequest_outcome (server : option Server) (path method : string) (bag : Bag) :
  match buildRequest server path method bag with
  | Ok _ => True
  | Panic msg => getArgs bag = Panic msg
  | Diverge => False
  | Err _ =>
      exists arg,
        getArgs bag = Ok arg
        /\ (url_JoinPath (serverURL server arg) (finalPath path arg) = None
            \/ (exists fullURL,
                   url_JoinPath (serverURL server arg) (finalPath path arg) = Some fullURL
                   /\ (url_Parse fullURL = None
                       \/ exists parsedURL,
                           url_Parse fullURL = Some parsedURL
                           /\ http_validRequest (strings.ToUpper method)
                                (URL_String (withQuery parsedURL arg)) = false))
            \/ (ArgBody arg <> Nil /\ json_Marshal (ArgBody arg) = None)
            \/ (exists key m, In (key, Map m) (Forms arg) /\ json_Marshal (Map m) = None))
  end.
Proof.
  unfold buildRequest. pose proof (getArgsFrom_outcome bag emptyArgs) as Hargs.
  fold (getArgs bag) in Hargs.
  destruct (getArgs bag) as [arg| | |] eqn:Harg; simpl; try done.
  destruct (url_JoinPath _ _) as [fullURL|] eqn:Hjoin; [|by exists arg; auto].
  destruct (url_Parse fullURL) as [parsedURL|] eqn:Hparse;
    [|exists arg; split; [done|]; right; left; exists fullURL; auto].
  destruct (isNil (ArgBody arg)) eqn:Hnil; simpl.
  - destruct (http_validRequest _ _) eqn:Hvalid; simpl;
      [|exists arg; split; [done|]; right; left; exists fullURL; split; [done|];
        right; by exists parsedURL].
    destruct (0 <? length (Forms arg))%nat; simpl; [|done].
    pose proof (formData_outcome (Forms arg) []) as Hforms.
    destruct (formData (Forms arg) []) as [data|msg|msg|]; simpl; try done.
    exists arg. auto.
  - destruct (json_Marshal (ArgBody arg)) as [bodyBytes|] eqn:Hm; simpl;
      [|exists arg; split; [done|]; right; right; left; split; [|done];
        intros Heq; by rewrite Heq in Hnil].
    destruct (http_validRequest _ _) eqn:Hvalid; simpl;
      [|exists arg; split; [done|]; right; left; exists fullURL; split; [done|];
        right; by exists parsedURL].
    destruct (0 <? length (Forms arg))%nat; simpl; [|done].
    pose proof (formData_outcome (Forms arg) []) as Hforms.
    destruct (formData (Forms arg) []) as [data|msg|msg|]; simpl; try done.
    exists arg. auto.
Qed.

End HandlerOutcomes.

(** X19. A call of a handler ends whenever the library calls it makes
    return, and the handler rejects no call on its own. It panics only
    when [getArgs] does. It returns an error
    only when a library call fails: joining or parsing the URL, marshalling
    the body or an object among the form fields, creating the request,
    sending it, or reading the response. In every other case it returns
    the text result made of the status code and the body of the response
    to the request it built. *)
Theorem handler_outcomes {L : GoLib} (server : option Server) (path method : string)
  (operation : Operation.t) (bag : Bag) :
  newHandler server path method operation bag <> Diverge
  /\ (forall msg,
         newHandler server path method operation bag = Panic msg -> getArgs bag = Panic msg)
  /\ (forall msg,
         newHandler server path method operation bag = Err msg ->
         exists arg,
           getArgs bag = Ok arg
           /\ (url_JoinPath (serverURL server arg) (finalPath path arg) = None
               \/ (exists fullURL,
                      url_JoinPath (serverURL server arg) (finalPath path arg) = Some fullURL
                      /\ (url_Parse fullURL = None
                          \/ exists parsedURL,
                              url_Parse fullURL = Some parsedURL
                              /\ http_validRequest (strings.ToUpper method)
                                   (URL_String (withQuery parsedURL arg)) = false))
               \/ (ArgBody arg <> Nil /\ json_Marshal (ArgBody arg) = None)
               \/ (exists key m,
                      In (key, Map m) (Forms arg) /\ json_Marshal (Map m) = None)
               \/ (exists req,
                      buildRequest server path method bag = Ok req
                      /\ (http_Do req = None
                          \/ exists resp,
                              http_Do req = Some resp /\ ResponseBody resp = None))))
  /\ (forall result,
         newHandler server path method operation bag = Ok result ->
         exists req resp body,
           buildRequest server path method bag = Ok req
           /\ http_Do req = Some resp
           /\ ResponseBody resp = Some body
           /\ result = NewToolResultText (resultText (StatusCode resp) body)).
Proof.
  unfold newHandler. pose proof (buildRequest_outcome server path method bag) as Hbuild.
  destruct (buildRequest server path method bag) as [req|msg|msg|] eqn:Hreq; simpl.
  - assert (Harg : exists arg, getArgs bag = Ok arg).
    { apply buildRequest_Ok in Hreq as (arg & _ & _ & Harg & _). by exists arg. }
    destruct Harg as [arg Harg].
    destruct (http_Do req) as [resp|] eqn:Hdo.
    + destruct (ResponseBody resp) as [body|] eqn:Hbody.
      * split_and!; try done. intros result [= <-]. by exists req, resp, body.
      * split_and!; try done. intros msg _. exists arg. split; [done|].
        do 4 right. exists req. split; [done|]. right. by exists resp.
    + split_and!; try done. intros msg _. exists arg. split; [done|].
      do 4 right. exists req. auto.
  - split_and!; try done. intros msg' _.
    destruct Hbuild as (arg & Harg & Hcause). exists arg. split; [done|].
    destruct Hcause as [?|[?|[?|?]]]; auto.
  - split_and!; try done. by intros msg' [= <-].
  - done.
Qed.

(** ** The description of the responses *)

Lemma HasPrefix_append_l (s a b : string) :
  strings.HasPrefix s (a +:+ b) = true -> strings.HasPrefix s a = true.
Proof.
  revert s. induction a as [|ch a IH]; intros s; [done|].
  change (String ch a +:+ b) with (String ch (a +:+ b)). simpl.
  destruct s as [|ch' s]; [done|].
  intros [Hch Hs]%andb_prop. rewrite Hch. simpl. by apply IH.
Qed.

Section ResponseDescription.

Context {L : GoLib}.

Variable c : Converter.

Lemma describeContent_prefix (fuel : nat) (content : list (string * MediaType))
  (desc desc' : string) :
  describeContent c fuel content desc = Ok desc' -> strings.HasPrefix desc' desc = true.
Proof.
  revert desc. induction content as [|[contentType mediaType] content IH]; intros desc Hrun;
    simpl in Hrun.
  - inversion Hrun. apply HasPrefix_refl.
  - destruct (refValue (MediaType_Schema mediaType)) as [schema|]; [|by apply IH].
    destruct (walked _) as [property| | |]; simpl in Hrun; try done.
    destruct (json_Marshal property) as [str|]; [|by apply IH].
    apply IH in Hrun. by apply HasPrefix_append_l in Hrun.
Qed.

Lemma describeResponse_prefix (fuel : nat) (code : string) (response : Response.t)
  (desc : string) :
  describeResponse c fuel code response = Ok (Some desc) ->
  exists description,
    Response.Description response = Some description
    /\ strings.HasPrefix desc ("- status: " +:+ code +:+ ", description: " +:+ description)
       = true.
Proof.
  unfold describeResponse. intros Hrun.
  destruct (Response.Description response) as [description|]; [|done].
  exists description. split; [done|]. cbv zeta in Hrun.
  assert (Hcontent : forall desc0,
             (do* desc1 := describeContent c fuel (Response.Content response) desc0 in
              Ok (Some desc1)) = Ok (Some desc) ->
             strings.HasPrefix desc desc0 = true).
  { intros desc0 Hc.
    destruct (describeContent c fuel (Response.Content response) desc0) as [desc1| | |]
      eqn:Hd; simpl in Hc; try done.
    inversion Hc; subst. by eapply describeContent_prefix. }
  repeat match type of Hrun with
         | context [walked ?w] => destruct (walked w); simpl in Hrun; try done
         | match ?x with _ => _ end = _ => destruct x; simpl in Hrun; try done
         end;
    apply Hcontent in Hrun; try done;
    by apply HasPrefix_append_l in Hrun.
Qed.

Lemma describeResponses_blocks (fuel : nat) (respMap : list (string * option ResponseRef))
  (blocks : list string) :
  describeResponses c fuel respMap = Ok blocks ->
  (length blocks <= length respMap)%nat
  /\ Forall (fun block =>
               exists code response description,
                 In (code, Some {| Response_Value := Some response |}) respMap
                 /\ Response.Description response = Some description
                 /\ strings.HasPrefix block
                      ("- status: " +:+ code +:+ ", description: " +:+ description) = true)
       blocks.
Proof.
  revert blocks. induction respMap as [|[code responseRef] respMap IH]; intros blocks Hrun;
    simpl in Hrun.
  - inversion Hrun. split; [done|constructor].
  - assert (Hskip : forall blocks0,
               describeResponses c fuel respMap = Ok blocks0 ->
               (length blocks0 <= length respMap)%nat
               /\ Forall (fun block =>
                            exists code' response description,
                              In (code', Some {| Response_Value := Some response |})
                                ((code, responseRef) :: respMap)
                              /\ Response.Description response = Some description
                              /\ strings.HasPrefix block
                                   ("- status: " +:+ code' +:+ ", description: "
                                    +:+ description) = true)
                    blocks0).
    { intros blocks0 Hrest. destruct (IH _ Hrest) as [Hlen Hall]. split; [done|].
      eapply Forall_impl; [exact Hall|]. simpl.
      intros block (code' & response & description & Hin & Hd & Hp).
      exists code', response, description. auto. }
    assert (Hskip' : describeResponses c fuel respMap = Ok blocks ->
                     (length blocks <= length ((code, responseRef) :: respMap))%nat
                     /\ Forall (fun block =>
                                  exists code' response description,
                                    In (code', Some {| Response_Value := Some response |})
                                      ((code, responseRef) :: respMap)
                                    /\ Response.Description response = Some description
                                    /\ strings.HasPrefix block
                                         ("- status: " +:+ code' +:+ ", description: "
                                          +:+ description) = true)
                          blocks).
    { intros Hrest. destruct (Hskip _ Hrest). split; [simpl; lia|done]. }
    destruct responseRef as [[[response|]]|]; try by apply Hskip'.
    destruct (describeResponse c fuel code response) as [[desc|]| | |] eqn:Hdesc;
      simpl in Hrun; try done.
    + destruct (describeResponses c fuel respMap) as [descs| | |] eqn:Hrest;
        simpl in Hrun; try done.
      inversion Hrun; subst blocks. destruct (Hskip _ eq_refl) as [Hlen Hall].
      split; [simpl in *; lia|]. constructor; [|done].
      apply describeResponse_prefix in Hdesc as (description & Hd & Hp).
      exists code, response, description. split_and!; [by left|done|done].
    + destruct (describeResponses c fuel respMap) as [descs| | |] eqn:Hrest;
        simpl in Hrun; try done.
      inversion Hrun; subst blocks. by apply Hskip'.
Qed.

End ResponseDescription.

(** X20. The text [generateResponseDescription] returns is made of blocks
    joined by an empty line, at most one for each response. Every block is
    that of a response of the operation that has a value and a
    description, and starts with the line
    [- status: {code}, description: {description}] of this response;
    responses without a value contribute nothing. *)
Theorem response_description_blocks {L : GoLib} (c : Converter) (fuel : nat)
  (responses : list (string * option ResponseRef)) (text : string) :
  generateResponseDescription c fuel responses = Ok text ->
  exists blocks,
    text = strings.Join blocks (String "010" (String "010" ""))
    /\ (length blocks <= length responses)%nat
    /\ Forall (fun block =>
                 exists code response description,
                   In (code, Some {| Response_Value := Some response |}) responses
                   /\ Response.Description response = Some description
                   /\ strings.HasPrefix block
                        ("- status: " +:+ code +:+ ", description: " +:+ description) = true)
         blocks.
Proof.
  unfold generateResponseDescription. intros Hrun.
  destruct (describeResponses c fuel responses) as [blocks| | |] eqn:Hblocks;
    simpl in Hrun; try done.
  inversion Hrun; subst text. exists blocks.
  destruct (describeResponses_blocks c fuel responses blocks Hblocks). by split_and!.
Qed.

Lemma response_description_blocks_witness :
  exists blocks,
    "- status: 200, description: ok"
    = strings.Join blocks (String "010" (String "010" ""))
    /\ (length blocks <= 2)%nat.
Proof.
  destruct (response_description_blocks (L := Sample.lib) Examples.scalarConverter 3
              [("200", Some {| Response_Value :=
                                 Some {| Response.Description := Some "ok";
                                         Response.Extensions := [];
                                         Response.Content := [] |} |});
               ("404", None)]
              "- status: 200, description: ok" eq_refl) as (blocks & Htext & Hlen & _).
  by exists blocks.
Defined.

(** ** The descriptor of a property *)

Lemma yields_ret {A : Type} (a : A) (P : A -> Prop) : P a -> yields (ret a) P.
Proof. intros HP visited a' visited' Hrun. by inversion Hrun; subst. Qed.

Lemma yields_bind {A B : Type} (m : Walk A) (k : A -> Walk B) (Q : A -> Prop)
  (P : B -> Prop) :
  yields m Q -> (forall a, Q a -> yields (k a) P) -> yields (bind m k) P.
Proof.
  intros Hm Hk visited b visited' Hrun. unfold bind in Hrun.
  destruct (m visited) as [[a visited1]|] eqn:Hm1; [|done].
  eapply Hk; [|done]. by eapply Hm.
Qed.

Lemma yields_any {A : Type} (m : Walk A) : yields m (fun _ => True).
Proof. by intros visited a visited' _. Qed.

Lemma describes_mapSet (s : Schema.t) (k : string) (v : any) (m : list (string * any)) :
  In k propertyKeys -> k <> "type" -> k <> "title" -> k <> "description" ->
  describes s m -> describes s (mapSet k v m).
Proof.
  intros Hk Htype Htitle Hdesc (Hkeys & Ht & Hti & Hd). split_and!.
  - intros k' [->|Hin]%mapSet_keys; auto.
  - by rewrite mapGet_mapSet_ne.
  - by rewrite mapGet_mapSet_ne.
  - by rewrite mapGet_mapSet_ne.
Qed.

Lemma describes_setIf (s : Schema.t) (c : bool) (k : string) (v : any)
  (m : list (string * any)) :
  In k propertyKeys -> k <> "type" -> k <> "title" -> k <> "description" ->
  describes s m -> describes s (setIf c k v m).
Proof. destruct c; simpl; [apply describes_mapSet|done]. Qed.

Lemma describes_setSome {A : Type} (s : Schema.t) (o : option A) (k : string)
  (f : A -> any) (m : list (string * any)) :
  In k propertyKeys -> k <> "type" -> k <> "title" -> k <> "description" ->
  describes s m -> describes s (setSome o k f m).
Proof. destruct o; simpl; [apply describes_mapSet|done]. Qed.

Lemma describes_base (s : Schema.t) :
  describes s
    (setIf (nonEmpty (Schema.Description s)) "description" (Str (Schema.Description s))
       (setIf (nonEmpty (Schema.Title s)) "title" (Str (Schema.Title s))
          (setSome (Schema.Type_ s) "type" Strs []))).
Proof.
  unfold describes.
  destruct (Schema.Type_ s), (nonEmpty (Schema.Title s)), (nonEmpty (Schema.Description s));
    simpl; split_and!; try reflexivity; intros k Hk; simpl in *; tauto.
Qed.

Ltac describes_step :=
  repeat first
    [ assumption
    | apply describes_base
    | apply describes_setIf; [simpl; tauto|done|done|done|]
    | apply describes_setSome; [simpl; tauto|done|done|done|]
    | apply describes_mapSet; [simpl; tauto|done|done|done|] ].

Lemma composition_describes (s : Schema.t) (w : ptr -> Walk any) (key : string)
  (refs : list SchemaRef) (m : list (string * any)) :
  In key propertyKeys -> key <> "type" -> key <> "title" -> key <> "description" ->
  describes s m -> yields (composition w key refs m) (describes s).
Proof.
  intros Hk Htype Htitle Hdesc Hm. unfold composition.
  destruct (0 <? length refs)%nat; [|by apply yields_ret].
  eapply yields_bind; [apply yields_any|]. intros walked _.
  apply yields_ret. by apply describes_setIf.
Qed.

Lemma propertyBody_describes (walkProperty walkItems : ptr -> Walk any) (s : Schema.t) :
  yields (propertyBody walkProperty walkItems s)
    (fun d => exists property, d = Map property /\ describes s property).
Proof.
  unfold propertyBody. cbv zeta.
  eapply (yields_bind _ _ (describes s));
    [apply composition_describes; [simpl; tauto|done|done|done|describes_step]|].
  intros property1 H1.
  eapply (yields_bind _ _ (describes s));
    [apply composition_describes; [simpl; tauto|done|done|done|describes_step]|].
  intros property2 H2.
  eapply (yields_bind _ _ (describes s));
    [apply composition_describes; [simpl; tauto|done|done|done|describes_step]|].
  intros property3 H3.
  eapply (yields_bind _ _ (describes s)).
  { destruct (refValue (Schema.Not s)) as [p|]; [|by apply yields_ret].
    eapply yields_bind; [apply yields_any|]. intros d _. apply yields_ret. describes_step. }
  intros property4 H4.
  eapply (yields_bind _ _ (describes s)).
  { destruct (Has (Schema.AdditionalProps s)) as [has|];
      [apply yields_ret; describes_step|].
    destruct (refValue (AdditionalSchema (Schema.AdditionalProps s))) as [p|];
      [|apply yields_ret; describes_step].
    eapply yields_bind; [apply yields_any|]. intros d _. apply yields_ret. describes_step. }
  intros property5 H5.
  eapply (yields_bind _ _ (describes s)).
  { destruct (TypeIs (Schema.Type_ s) "object" && (0 <? length (Schema.Properties s))%nat);
      [|apply yields_ret; describes_step].
    eapply yields_bind; [apply yields_any|]. intros nestedProps _.
    apply yields_ret. describes_step. }
  intros property6 H6.
  eapply (yields_bind _ _ (describes s)).
  { destruct (TypeIs (Schema.Type_ s) "array"); [|by apply yields_ret].
    destruct (refValue (Schema.Items s)) as [p|]; [|by apply yields_ret].
    eapply yields_bind; [apply yields_any|]. intros d _. apply yields_ret. describes_step. }
  intros property7 H7.
  apply yields_ret. eexists. split; [reflexivity|]. describes_step.
Qed.

(** X21. The descriptor [processSchemaProperty] returns is a map whose keys
    are all among the thirty-six the function knows, and it always carries
    the schema's title when the schema has one. At a title already in the
    visited map it is the three-entry stub of type [reference]; everywhere
    else its type and description are those of the schema, present exactly
    when the schema has them: no later step of the function overwrites
    them. *)
Theorem property_descriptor (h : Store) (fuel : nat) (schema : ptr)
  (visited visited' : gset string) (d : any) :
  processSchemaProperty h fuel schema visited = Some (d, visited') ->
  exists property,
    d = Map property
    /\ (forall k, In k (map fst property) -> In k propertyKeys)
    /\ mapGet "title" property
       = (if nonEmpty (Schema.Title (deref h schema))
          then Some (Str (Schema.Title (deref h schema))) else None)
    /\ if nonEmpty (Schema.Title (deref h schema))
          && bool_decide (Schema.Title (deref h schema) ∈ visited)
       then property
            = [("type", Str "reference");
               ("description",
                Str ("Circular reference to " +:+ Schema.Title (deref h schema)));
               ("title", Str (Schema.Title (deref h schema)))]
       else mapGet "type" property = option_map Strs (Schema.Type_ (deref h schema))
            /\ mapGet "description" property
               = (if nonEmpty (Schema.Description (deref h schema))
                  then Some (Str (Schema.Description (deref h schema))) else None).
Proof.
  destruct fuel as [|fuel]; [done|]. simpl. unfold guarded.
  set (s := deref h schema).
  pose proof (propertyBody_describes (processSchemaProperty h fuel)
                (processSchemaItems h fuel) s) as Hbody.
  destruct (nonEmpty (Schema.Title s)) eqn:Htitle; simpl.
  - destruct (bool_decide (Schema.Title s ∈ visited)).
    + intros [= <- <-]. eexists. split; [reflexivity|]. split_and!; try reflexivity.
      intros k Hk. simpl in *. tauto.
    + intros Hrun.
      destruct (propertyBody _ _ s ({[Schema.Title s]} ∪ visited)) as [[property v1]|]
        eqn:Hrun1; [|done].
      inversion Hrun; subst; clear Hrun.
      destruct (Hbody _ _ _ Hrun1) as (property & -> & Hkeys & Ht & Hti & Hd).
      exists property. rewrite Htitle in Hti. by split_and!.
  - intros Hrun.
    destruct (Hbody _ _ _ Hrun) as (property & -> & Hkeys & Ht & Hti & Hd).
    exists property. rewrite Htitle in Hti. by split_and!.
Qed.

Lemma property_descriptor_witness :
  exists property,
    Map [("type", Strs ["string"])] = Map property
    /\ mapGet "title" property = None.
Proof.
  destruct (property_descriptor Sample.siblings 2 2%nat ∅ ∅
              (Map [("type", Strs ["string"])]))
    as (property & Heq & _ & Htitle & _).
  - vm_compute. reflexivity.
  - exists property. split; [exact Heq|exact Htitle].
Defined.

(** ** The input schema of a tool *)

Lemma argument_createToolOption (t : propertyType) (name : string)
  (opts : list mcp.PropertyOption) :
  exists a, mcp.argument (createToolOption t name opts) = Some a /\ mcp.ArgName a = name.
Proof.
  destruct t; simpl; destruct (mcp.propertySchema _ opts); by eexists.
Qed.

Lemma applyToolOption_properties (t : mcp.Tool.t) (opt : mcp.ToolOption) (name : string) :
  In name (map fst (mcp.Tool.InputProperties (mcp.applyToolOption t opt)))
  <-> In name (map fst (mcp.Tool.InputProperties t))
      \/ exists a, mcp.argument opt = Some a /\ mcp.ArgName a = name.
Proof.
  destruct opt; simpl.
  1: { split; [tauto|]. by intros [?|(a & ? & _)]. }
  all: unfold mcp.withProperty; destruct (mcp.propertySchema _ opts) as [schema required];
    simpl; rewrite mapSet_keys; split.
  all: try (intros [->|Hin]; [right; by eexists|by left]).
  all: intros [Hin|(a & [= <-] & <-)]; [by right|by left].
Qed.

Lemma applyToolOption_required (t : mcp.Tool.t) (opt : mcp.ToolOption) (name : string) :
  In name (mcp.Tool.InputRequired (mcp.applyToolOption t opt)) ->
  In name (mcp.Tool.InputRequired t)
  \/ exists a, mcp.argument opt = Some a /\ mcp.ArgName a = name.
Proof.
  destruct opt; simpl; [tauto|..].
  all: unfold mcp.withProperty; destruct (mcp.propertySchema _ opts) as [schema required];
    simpl; destruct required; [|tauto].
  all: intros [Hin|[<-|[]]]%in_app_or; [by left|right; by eexists].
Qed.

Lemma applyToolOption_NoDup (t : mcp.Tool.t) (opt : mcp.ToolOption) :
  NoDup (map fst (mcp.Tool.InputProperties t)) ->
  NoDup (map fst (mcp.Tool.InputProperties (mcp.applyToolOption t opt))).
Proof.
  destruct opt; simpl; [done|..].
  all: unfold mcp.withProperty; destruct (mcp.propertySchema _ opts) as [schema required];
    simpl; apply mapSet_NoDup.
Qed.

Lemma fold_applyToolOption_schema (opts : list mcp.ToolOption) (t : mcp.Tool.t) :
  (forall name,
      In name (map fst (mcp.Tool.InputProperties (fold_left mcp.applyToolOption opts t)))
      <-> In name (map fst (mcp.Tool.InputProperties t))
          \/ exists opt a, In opt opts /\ mcp.argument opt = Some a /\ mcp.ArgName a = name)
  /\ (forall name,
         In name (mcp.Tool.InputRequired (fold_left mcp.applyToolOption opts t)) ->
         In name (mcp.Tool.InputRequired t)
         \/ exists opt a, In opt opts /\ mcp.argument opt = Some a /\ mcp.ArgName a = name)
  /\ (NoDup (map fst (mcp.Tool.InputProperties t)) ->
      NoDup (map fst (mcp.Tool.InputProperties (fold_left mcp.applyToolOption opts t)))).
Proof.
  revert t. induction opts as [|opt opts IH]; intros t; simpl.
  - split_and!; [|tauto|done]. intros name. split; [tauto|].
    by intros [?|(opt & a & [] & _)].
  - destruct (IH (mcp.applyToolOption t opt)) as (Hprops & Hreq & Hnd). split_and!.
    + intros name. rewrite Hprops, applyToolOption_properties. split.
      * intros [[Hin|(a & Ha & Hn)]|(opt' & a & Hin & Ha & Hn)]; eauto 8.
      * intros [Hin|(opt' & a & [<-|Hin] & Ha & Hn)]; eauto 8.
    + intros name Hin. apply Hreq in Hin as [Hin|(opt' & a & Hin & Ha & Hn)]; [|eauto 8].
      apply applyToolOption_required in Hin as [Hin|(a & Ha & Hn)]; eauto 8.
    + intros Hnd0. by apply Hnd, applyToolOption_NoDup.
Qed.

Section InputSchema.

Context {L : GoLib}.

Variable c : Converter.

Lemma convertParameters_In (fuel : nat) (parameters : list ParameterRef)
  (args : list mcp.ToolOption) :
  convertParameters c fuel parameters = Ok args ->
  (forall opt, In opt args ->
     exists param,
       In {| Parameter_Value := Some param |} parameters
       /\ convertParameter c fuel param = Ok opt)
  /\ (forall param, In {| Parameter_Value := Some param |} parameters ->
        exists opt, In opt args /\ convertParameter c fuel param = Ok opt).
Proof.
  revert args. induction parameters as [|[[param|]] parameters IH]; intros args Hrun;
    simpl in Hrun.
  - inversion Hrun. by split.
  - destruct (convertParameter c fuel param) as [arg| | |] eqn:Harg; simpl in Hrun;
      try done.
    destruct (convertParameters c fuel parameters) as [rest| | |]; simpl in Hrun; try done.
    inversion Hrun; subst args. destruct (IH _ eq_refl) as [Hfrom Hto]. split.
    + intros opt [<-|Hin]; [exists param; split; [by left|done]|].
      destruct (Hfrom _ Hin) as (param' & Hin' & Hc). exists param'. split; [by right|done].
    + intros param' [[= <-]|Hin]; [exists arg; split; [by left|done]|].
      destruct (Hto _ Hin) as (opt & Hin' & Hc). exists opt. split; [by right|done].
  - destruct (IH _ Hrun) as [Hfrom Hto]. split.
    + intros opt Hin. destruct (Hfrom _ Hin) as (param & Hin' & Hc).
      exists param. split; [by right|done].
    + intros param [[=]|Hin]. by apply Hto.
Qed.

Lemma convertParameter_argument (fuel : nat) (param : Param.t) (opt : mcp.ToolOption) :
  convertParameter c fuel param = Ok opt ->
  exists a, mcp.argument opt = Some a /\ mcp.ArgName a = parameterKey param.
Proof.
  intros Hrun. destruct (convertParameter_Ok c fuel param opt Hrun) as (t & typed & -> & _).
  apply argument_createToolOption.
Qed.

Lemma convertContent_In (fuel : nat) (requestBody : RequestBody.t)
  (content : list (string * MediaType)) (args : list mcp.ToolOption) :
  convertContent c fuel requestBody content = Ok args ->
  (forall opt, In opt args ->
     exists a, mcp.argument opt = Some a /\ mcp.ArgName a = "body")
  /\ (args <> [] <->
      exists contentType mediaType schema,
        In (contentType, mediaType) content
        /\ refValue (MediaType_Schema mediaType) = Some schema).
Proof.
  revert args. induction content as [|[contentType mediaType] content IH]; intros args Hrun;
    simpl in Hrun.
  - inversion Hrun. split; [done|]. split; [done|]. by intros (? & ? & ? & [] & _).
  - destruct (refValue (MediaType_Schema mediaType)) as [schema|] eqn:Hschema.
    + destruct (bodyType c fuel schema _) as [[t opts]| | |]; simpl in Hrun; try done.
      destruct (convertContent c fuel requestBody content) as [rest| | |]; simpl in Hrun;
        try done.
      inversion Hrun; subst args. destruct (IH _ eq_refl) as [Hnames _]. split.
      * intros opt [<-|Hin]; [apply argument_createToolOption|by apply Hnames].
      * split; [|done]. intros _. exists contentType, mediaType, schema.
        split; [by left|done].
    + destruct (IH _ Hrun) as [Hnames Hne]. split; [done|]. rewrite Hne. split.
      * intros (ct & mt & sc & Hin & Hs). exists ct, mt, sc. split; [by right|done].
      * intros (ct & mt & sc & [[= <- <-]|Hin] & Hs); [congruence|].
        by exists ct, mt, sc.
Qed.

Lemma operationOptions_Ok (fuel : nat) (operation : Operation.t)
  (args : list mcp.ToolOption) :
  operationOptions c fuel operation = Ok args ->
  exists params bodyArgs description,
    convertParameters c fuel (Operation.Parameters operation) = Ok params
    /\ match Operation.RequestBody operation with
       | Some {| RequestBody_Value := Some requestBody |} =>
           convertRequestBody c fuel requestBody = Ok bodyArgs
       | _ => bodyArgs = []
       end
    /\ args = params ++ bodyArgs ++ [serverAddrOption (GetServers (parser c))]
              ++ match Operation.Security operation with
                 | Some security => convertSecurityRequirements c security
                 | None => []
                 end
              ++ [mcp.WithDescription description].
Proof.
  unfold operationOptions. intros Hrun.
  destruct (convertParameters c fuel (Operation.Parameters operation)) as [params| | |];
    simpl in Hrun; try done.
  assert (Hsec : forall base,
             match Operation.Security operation with
             | Some security =>
                 if (0 <? length security)%nat
                 then base ++ convertSecurityRequirements c security else base
             | None => base
             end
             = base ++ match Operation.Security operation with
                       | Some security => convertSecurityRequirements c security
                       | None => []
                       end).
  { intros base. destruct (Operation.Security operation) as [[|requirement security]|];
      simpl; try by rewrite app_nil_r.
    - unfold convertSecurityRequirements.
      destruct (GetDocument (parser c)) as [document|]; [|by rewrite app_nil_r].
      destruct (DocComponents document) as [components|]; [|by rewrite app_nil_r].
      destruct (length (SecuritySchemes components) =? 0)%nat; by rewrite app_nil_r.
    - done. }
  destruct (Operation.RequestBody operation) as [[[requestBody|]]|]; simpl in Hrun.
  - destruct (convertRequestBody c fuel requestBody) as [bodyArgs| | |]; simpl in Hrun;
      try done.
    destruct (toolDescription c fuel operation) as [description| | |]; simpl in Hrun;
      try done.
    inversion Hrun. exists params, bodyArgs, description.
    split_and!; [done|done|]. rewrite Hsec. by rewrite <- ?app_assoc.
  - destruct (toolDescription c fuel operation) as [description| | |]; simpl in Hrun;
      try done.
    inversion Hrun. exists params, [], description.
    split_and!; [done|done|]. rewrite Hsec. by rewrite <- ?app_assoc.
  - destruct (toolDescription c fuel operation) as [description| | |]; simpl in Hrun;
      try done.
    inversion Hrun. exists params, [], description.
    split_and!; [done|done|]. rewrite Hsec. by rewrite <- ?app_assoc.
Qed.

End InputSchema.

(** X22. The input schema of the tool [convertOperation] returns has a
    property exactly for: every parameter of the operation, under
    [{in}|{name}] or [body]; the request body, under [body], when one of
    its media types has a schema; the server address, under
    [openapi|server_addr]; and every security argument. No property name
    occurs twice, and every name in the schema's required list is the name
    of one of its properties. *)
Theorem tool_input_schema {L : GoLib} (c : Converter) (fuel : nat) (path method : string)
  (operation : Operation.t) (tool : mcp.Tool.t) :
  convertOperation c fuel path method operation = Ok tool ->
  (forall name,
      In name (map fst (mcp.Tool.InputProperties tool))
      <-> (exists param,
              In {| Parameter_Value := Some param |} (Operation.Parameters operation)
              /\ name = parameterKey param)
          \/ (name = "body"
              /\ exists requestBody contentType mediaType schema,
                   Operation.RequestBody operation
                   = Some {| RequestBody_Value := Some requestBody |}
                   /\ In (contentType, mediaType) (RequestBody.Content requestBody)
                   /\ refValue (MediaType_Schema mediaType) = Some schema)
          \/ name = "openapi|server_addr"
          \/ (exists security opt a,
                 Operation.Security operation = Some security
                 /\ In opt (convertSecurityRequirements c security)
                 /\ mcp.argument opt = Some a /\ mcp.ArgName a = name))
  /\ NoDup (map fst (mcp.Tool.InputProperties tool))
  /\ (forall name,
         In name (mcp.Tool.InputRequired tool) ->
         In name (map fst (mcp.Tool.InputProperties tool))).
Proof.
  unfold convertOperation. intros Hrun.
  destruct (operationOptions c fuel operation) as [args| | |] eqn:Hargs; simpl in Hrun;
    try done.
  inversion Hrun; subst tool; clear Hrun. unfold mcp.NewTool.
  destruct (fold_applyToolOption_schema args
              {| mcp.Tool.Name := toolName c path method operation;
                 mcp.Tool.Description := ""; mcp.Tool.InputProperties := [];
                 mcp.Tool.InputRequired := [] |}) as (Hprops & Hreq & Hnd).
  simpl in Hprops, Hreq, Hnd. split_and!.
  - intros name. rewrite Hprops. clear Hprops Hreq Hnd.
    apply operationOptions_Ok in Hargs as (params & bodyArgs & description & Hp & Hb & ->).
    destruct (convertParameters_In c fuel _ _ Hp) as [Hfrom Hto].
    assert (Hbody :
              (forall opt, In opt bodyArgs ->
                 exists a, mcp.argument opt = Some a /\ mcp.ArgName a = "body")
              /\ (bodyArgs <> [] <->
                  exists requestBody contentType mediaType schema,
                    Operation.RequestBody operation
                    = Some {| RequestBody_Value := Some requestBody |}
                    /\ In (contentType, mediaType) (RequestBody.Content requestBody)
                    /\ refValue (MediaType_Schema mediaType) = Some schema)).
    { destruct (Operation.RequestBody operation) as [[[requestBody|]]|].
      - destruct (convertContent_In c fuel _ _ _ Hb) as [Hnames Hne]. split; [done|].
        rewrite Hne. split.
        + intros (ct & mt & sc & Hin & Hs). by exists requestBody, ct, mt, sc.
        + intros (rb & ct & mt & sc & [= <-] & Hin & Hs). by exists ct, mt, sc.
      - subst bodyArgs. split; [done|]. split; [done|]. by intros (? & ? & ? & ? & [=] & _).
      - subst bodyArgs. split; [done|]. split; [done|]. by intros (? & ? & ? & ? & [=] & _). }
    destruct Hbody as [Hbnames Hbne]. split.
    + intros [[]|(opt & a & Hin & Ha & Hn)].
      rewrite !in_app_iff in Hin. destruct Hin as [Hin|[Hin|[Hin|[Hin|Hin]]]].
      * left. destruct (Hfrom _ Hin) as (param & Hin' & Hc). exists param.
        split; [done|]. destruct (convertParameter_argument c fuel _ _ Hc) as (a' & Ha' & <-).
        congruence.
      * right; left. destruct (Hbnames _ Hin) as (a' & Ha' & Hn').
        split; [congruence|]. apply Hbne. by intros ->.
      * right; right; left. destruct Hin as [<-|[]].
        rewrite serverAddrOption_argument in Ha. inversion Ha; subst a.
        by destruct (GetServers (parser c)) as [|server [|server' servers]].
      * right; right; right.
        destruct (Operation.Security operation) as [security|]; [|done].
        by exists security, opt, a.
      * destruct Hin as [<-|[]]. done.
    + intros [(param & Hin & ->)|[[-> Hex]|[->|(security & opt & a & Hs & Hin & Ha & Hn)]]];
        right.
      * destruct (Hto _ Hin) as (opt & Hin' & Hc).
        destruct (convertParameter_argument c fuel _ _ Hc) as (a & Ha & Hn).
        exists opt, a. rewrite !in_app_iff. auto.
      * apply Hbne in Hex. destruct bodyArgs as [|opt bodyArgs]; [done|].
        destruct (Hbnames opt (or_introl eq_refl)) as (a & Ha & Hn).
        exists opt, a. rewrite !in_app_iff. split_and!; [|done|done].
        right; left. by left.
      * exists (serverAddrOption (GetServers (parser c))), (serverAddrArgument (GetServers (parser c))).
        rewrite !in_app_iff. split_and!; [right; right; left; by left| |].
        -- apply serverAddrOption_argument.
        -- by destruct (GetServers (parser c)) as [|server [|server' servers]].
      * exists opt, a. rewrite !in_app_iff, Hs. split_and!; [|done|done].
        right; right; right; by left.
  - apply Hnd. constructor.
  - intros name Hin. apply Hprops. apply Hreq in Hin as [[]|Hin]. by right.
Qed.

Lemma tool_input_schema_witness :
  exists tool,
    convertOperation (L := Sample.lib) (Sample.converter [Sample.apiServer]) 3
      "/pets/{id}" "get" Sample.getPet = Ok tool
    /\ NoDup (map fst (mcp.Tool.InputProperties tool))
    /\ In "openapi|server_addr" (map fst (mcp.Tool.InputProperties tool)).
Proof.
  assert (Hrun : { tool | convertOperation (L := Sample.lib)
                            (Sample.converter [Sample.apiServer]) 3
                            "/pets/{id}" "get" Sample.getPet = Ok tool })
    by (eexists; lazy; reflexivity).
  destruct Hrun as [tool Hrun]. exists tool. split; [exact Hrun|].
  destruct (tool_input_schema (L := Sample.lib) _ _ _ _ _ _ Hrun) as (Hprops & Hnd & _).
  split; [exact Hnd|]. apply Hprops. right; right; left. reflexivity.
Defined.
